(** * Envoy xDS configuration ingestion: a shallow embedding

    The development follows the repository's sources:

    - [Cds]  : [CdsApiImpl::onConfigUpdate] (common/upstream/cds_api_impl.cc),
      the cluster discovery consumer that hands every cluster of a
      response to the cluster manager;
    - [Ecds] : [FilterConfigSubscription::onConfigUpdate]
      (common/filter/http/filter_config_discovery_impl.cc), the extension
      configuration consumer with its hash-based short cut;
    - [ProviderManager] : [FilterConfigProviderManagerImpl] of the same
      file, which makes the providers and has them share subscriptions;
    - [CallbackManager], [XdsResourceIdentifier] and [NewGrpcMux] : the
      callback registry and the delta-discovery multiplexer that the unit
      tests under test/common/ drive.

    C++ exceptions are modelled by the [Outcome] type: a function that can
    throw returns the state it leaves behind together with either its
    value or the thrown [EnvoyException]'s message. *)

From Stdlib Require Import Ascii.
From stdpp Require Import gmap strings list sorting pretty.

(** ** Exceptions *)

Inductive Outcome (A : Type) : Type :=
| Returned (a : A)
| Thrown (what : string).
Arguments Returned {A} a.
Arguments Thrown {A} what.

Definition is_thrown {A} (o : Outcome A) : bool :=
  match o with Thrown _ => true | Returned _ => false end.

(** Sequencing: the first [throw] ends the computation. *)
#[global] Instance Outcome_ret : MRet Outcome := λ A a, Returned a.
#[global] Instance Outcome_bind : MBind Outcome := λ A B f o,
  match o with
  | Returned a => f a
  | Thrown what => Thrown what
  end.

(** [absl::StrJoin(parts, sep)] *)
Fixpoint StrJoin (parts : list string) (sep : string) : string :=
  match parts with
  | [] => ""
  | [p] => p
  | p :: rest => p +:+ sep +:+ StrJoin rest sep
  end.

(** [++x] on a [uint32_t] *)
Definition uint32_incr (n : Z) : Z := ((n + 1) mod 2 ^ 32)%Z.

(** [Config::ConfigUpdateFailureReason] *)
Inductive ConfigUpdateFailureReason :=
| ConnectionFailure
| FetchTimedout
| UpdateRejected.

Lemma filter_none {A} (P : A → Prop) `{!∀ x, Decision (P x)} (l : list A) :
  (∀ x, x ∈ l → ¬ P x) → filter P l = [].
Proof.
  induction l as [|a l IH]; intros Hl; [done|].
  rewrite filter_cons_False by (apply Hl; by left).
  apply IH. intros x Hx. apply Hl. by right.
Qed.

(** ** CdsApiImpl *)

Module Cds.

(** [envoy::config::cluster::v3::Cluster]: the name and the rest of the
    message, kept opaque. *)
Record Cluster := { cluster_name : string; cluster_config : string }.

(** [Config::DecodedResource] for CDS. The resource decoder is built with
    the name field ["name"], hence [name()] is the cluster's name. *)
Record DecodedResource := { resource : Cluster; version : string }.

Definition name (r : DecodedResource) : string := cluster_name (resource r).

#[global] Instance Cluster_eq_dec : EqDecision Cluster.
Proof. solve_decision. Defined.
#[global] Instance DecodedResource_eq_dec : EqDecision DecodedResource.
Proof. solve_decision. Defined.

(** The part of [Upstream::ClusterManager] that [CdsApiImpl] calls.
    [addOrUpdateCluster] returns whether the cluster was applied and can
    throw; [removeCluster] returns whether a cluster was removed;
    [clusters] lists the names of the active and of the warming clusters
    in iteration order. *)
Class ClusterManager (CM : Type) := {
  addOrUpdateCluster : CM → Cluster → string → CM * Outcome bool;
  removeCluster : CM → string → CM * bool;
  clusters : CM → list string * list string
}.

(** What was asked of the cluster manager, and what it answered. *)
Inductive CmRequest :=
| ReqAddOrUpdate (c : Cluster) (version_info : string)
| ReqRemove (resource_name : string).

Inductive CmCall :=
| CallAddOrUpdate (c : Cluster) (version_info : string) (answer : Outcome bool)
| CallRemove (resource_name : string) (answer : bool).

Definition request_of (c : CmCall) : CmRequest :=
  match c with
  | CallAddOrUpdate cl v _ => ReqAddOrUpdate cl v
  | CallRemove n _ => ReqRemove n
  end.

(** A call that makes [any_applied] true. *)
Definition applied (c : CmCall) : bool :=
  match c with
  | CallAddOrUpdate _ _ (Returned true) => true
  | CallRemove _ true => true
  | _ => false
  end.

Definition threw (c : CmCall) : bool :=
  match c with
  | CallAddOrUpdate _ _ (Thrown _) => true
  | _ => false
  end.

Record CdsApiImpl (CM : Type) := {
  cm_ : CM;
  system_version_info_ : string;
  (** whether [initialize_callback_] is set *)
  initialize_callback_ : bool;
  (** how many times the initialize callback has run *)
  initialize_runs : nat
}.
Arguments cm_ {CM} _.
Arguments system_version_info_ {CM} _.
Arguments initialize_callback_ {CM} _.
Arguments initialize_runs {CM} _.

(** The locals of [onConfigUpdate], threaded through its two loops,
    with the calls made on [cm_] so far. *)
Record Locals (CM : Type) := {
  l_cm : CM;
  exception_msgs : list string;
  cluster_names : gset string;
  any_applied : bool;
  added_or_updated : Z;
  skipped : Z;
  l_calls : list CmCall
}.
Arguments l_cm {CM} _.
Arguments exception_msgs {CM} _.
Arguments cluster_names {CM} _.
Arguments any_applied {CM} _.
Arguments added_or_updated {CM} _.
Arguments skipped {CM} _.
Arguments l_calls {CM} _.

(** What one call of [onConfigUpdate] leaves behind. *)
Record Update (CM : Type) := {
  api : CdsApiImpl CM;
  outcome : Outcome unit;
  calls : list CmCall;
  (** the two counters of the closing log line *)
  logged : Z * Z
}.
Arguments api {CM} _.
Arguments outcome {CM} _.
Arguments calls {CM} _.
Arguments logged {CM} _.

(** *** A cluster manager to run the code on

    In the manner of the mock of the unit tests: the active clusters by
    name; a cluster whose configuration is empty fails validation, an
    unchanged cluster is skipped, and removing an unknown name does
    nothing. *)
Definition TestClusterManager := gmap string Cluster.

#[global] Instance test_cluster_manager : ClusterManager TestClusterManager := {|
  addOrUpdateCluster cm c _ :=
    if decide (cluster_config c = "") then (cm, Thrown "invalid cluster")
    else if decide (cm !! cluster_name c = Some c) then (cm, Returned false)
    else (<[cluster_name c := c]> cm, Returned true);
  removeCluster cm n :=
    match cm !! n with
    | Some _ => (delete n cm, true)
    | None => (cm, false)
    end;
  clusters cm := ((map_to_list cm).*1, [])
|}.

Definition fresh_api : CdsApiImpl TestClusterManager :=
  {| cm_ := ∅; system_version_info_ := ""; initialize_callback_ := true;
     initialize_runs := 0 |}.

Definition cluster_a : DecodedResource :=
  {| resource := {| cluster_name := "a"; cluster_config := "lb: round_robin" |};
     version := "1" |}.
Definition cluster_a' : DecodedResource :=
  {| resource := {| cluster_name := "a"; cluster_config := "lb: random" |};
     version := "2" |}.
Definition cluster_b : DecodedResource :=
  {| resource := {| cluster_name := "b"; cluster_config := "lb: round_robin" |};
     version := "1" |}.
Definition cluster_bad : DecodedResource :=
  {| resource := {| cluster_name := "bad"; cluster_config := "" |}; version := "1" |}.
(** A cluster named "a" that fails validation. *)
Definition cluster_a_bad : DecodedResource :=
  {| resource := {| cluster_name := "a"; cluster_config := "" |}; version := "1" |}.

(** The resources that reach the cluster manager: those whose name does
    not occur earlier in the response. *)
Fixpoint first_occurrences (seen : gset string) (rs : list DecodedResource)
  : list DecodedResource :=
  match rs with
  | [] => []
  | r :: rs =>
      if decide (name r ∈ seen) then first_occurrences seen rs
      else r :: first_occurrences ({[name r]} ∪ seen) rs
  end.

(** The other resources: those whose name occurs earlier in the
    response, on which the duplicate check throws. *)
Fixpoint repeats (seen : gset string) (rs : list DecodedResource)
  : list DecodedResource :=
  match rs with
  | [] => []
  | r :: rs =>
      if decide (name r ∈ seen) then r :: repeats seen rs
      else repeats ({[name r]} ∪ seen) rs
  end.

Definition add_request (r : DecodedResource) : CmRequest :=
  ReqAddOrUpdate (resource r) (version r).

(** *** The code *)

Section WithClusterManager.
Context {CM : Type} `{ClusterManager CM}.
Implicit Types (this : CdsApiImpl CM).

Definition duplicate_what (n : string) : string :=
  "duplicate cluster " +:+ n +:+ " found".

(** [fmt::format("{}: {}", cluster.name(), e.what())] *)
Definition exception_msg (n what : string) : string := n +:+ ": " +:+ what.

(** One iteration of [for (const auto& resource : added_resources)]. *)
Definition add_step (l : Locals CM) (r : DecodedResource) : Locals CM :=
  let cluster := resource r in
  if decide (cluster_name cluster ∈ cluster_names l) then
    (* [insert(...).second] is false: throw, caught right below *)
    {| l_cm := l_cm l;
       exception_msgs :=
         exception_msgs l ++
           [exception_msg (cluster_name cluster) (duplicate_what (cluster_name cluster))];
       cluster_names := cluster_names l;
       any_applied := any_applied l;
       added_or_updated := added_or_updated l;
       skipped := skipped l;
       l_calls := l_calls l |}
  else
    let names := {[cluster_name cluster]} ∪ cluster_names l in
    let '(cm', answer) := addOrUpdateCluster (l_cm l) cluster (version r) in
    let calls := l_calls l ++ [CallAddOrUpdate cluster (version r) answer] in
    match answer with
    | Returned true =>
        {| l_cm := cm'; exception_msgs := exception_msgs l; cluster_names := names;
           any_applied := true;
           added_or_updated := uint32_incr (added_or_updated l);
           skipped := skipped l; l_calls := calls |}
    | Returned false =>
        {| l_cm := cm'; exception_msgs := exception_msgs l; cluster_names := names;
           any_applied := any_applied l;
           added_or_updated := added_or_updated l;
           skipped := uint32_incr (skipped l); l_calls := calls |}
    | Thrown what =>
        {| l_cm := cm';
           exception_msgs :=
             exception_msgs l ++ [exception_msg (cluster_name cluster) what];
           cluster_names := names;
           any_applied := any_applied l;
           added_or_updated := added_or_updated l;
           skipped := skipped l; l_calls := calls |}
    end.

(** One iteration of [for (const auto& resource_name : removed_resources)]. *)
Definition remove_step (l : Locals CM) (resource_name : string) : Locals CM :=
  let '(cm', answer) := removeCluster (l_cm l) resource_name in
  {| l_cm := cm'; exception_msgs := exception_msgs l;
     cluster_names := cluster_names l;
     any_applied := if answer then true else any_applied l;
     added_or_updated := added_or_updated l;
     skipped := skipped l;
     l_calls := l_calls l ++ [CallRemove resource_name answer] |}.

Definition initial_locals (cm : CM) : Locals CM :=
  {| l_cm := cm; exception_msgs := []; cluster_names := ∅; any_applied := false;
     added_or_updated := 0; skipped := 0; l_calls := [] |}.

Definition runInitializeCallbackIfAny this : CdsApiImpl CM :=
  if initialize_callback_ this then
    {| cm_ := cm_ this; system_version_info_ := system_version_info_ this;
       initialize_callback_ := false;
       initialize_runs := S (initialize_runs this) |}
  else this.

(** [CdsApiImpl::onConfigUpdate(added_resources, removed_resources,
    system_version_info)], the delta overload. Pausing and resuming EDS on
    the ADS mux brackets the body and touches neither [cm_] nor the
    stored version. *)
Definition onConfigUpdate this (added_resources : list DecodedResource)
    (removed_resources : list string) (system_version_info : string) : Update CM :=
  let l := foldl add_step (initial_locals (cm_ this)) added_resources in
  let l := foldl remove_step l removed_resources in
  let this' :=
    {| cm_ := l_cm l;
       system_version_info_ :=
         if any_applied l then system_version_info else system_version_info_ this;
       initialize_callback_ := initialize_callback_ this;
       initialize_runs := initialize_runs this |} in
  {| api := runInitializeCallbackIfAny this';
     outcome :=
       match exception_msgs l with
       | [] => Returned ()
       | msgs => Thrown ("Error adding/updating cluster(s) " +:+ StrJoin msgs ", ")
       end;
     calls := l_calls l;
     logged := (added_or_updated l, skipped l) |}.

(** [CdsApiImpl::onConfigUpdate(resources, version_info)], the
    state-of-the-world overload: every existing cluster that the response
    does not name is removed. *)
Definition to_remove_repeated this (resources : list DecodedResource)
  : list string :=
  let '(active_clusters, warming_clusters) := clusters (cm_ this) in
  let named := name <$> resources in
  let active := filter (λ n, n ∉ named) active_clusters in
  let warming := filter (λ n, n ∉ named) warming_clusters in
  active ++ filter (λ n, n ∉ active) warming.

Definition onConfigUpdateSotw this (resources : list DecodedResource)
    (version_info : string) : Update CM :=
  onConfigUpdate this resources (to_remove_repeated this resources) version_info.

(** Replaying requests on a cluster manager, whatever it answers. *)
Definition replay_step (cm : CM) (q : CmRequest) : CM :=
  match q with
  | ReqAddOrUpdate c v => (addOrUpdateCluster cm c v).1
  | ReqRemove n => (removeCluster cm n).1
  end.

Definition replay (cm : CM) (qs : list CmRequest) : CM := foldl replay_step cm qs.

End WithClusterManager.

(** *** Facts about [first_occurrences] *)

Lemma first_occurrences_sublist seen rs : first_occurrences seen rs ⊆ rs.
Proof.
  revert seen. induction rs as [|r rs IH]; intros seen; simpl; [done|].
  destruct (decide (name r ∈ seen)).
  - intros x Hx. right. by eapply IH.
  - intros x [->|Hx]%elem_of_cons; [left|right; by eapply IH].
Qed.

Lemma first_occurrences_fresh seen rs r :
  r ∈ first_occurrences seen rs → name r ∉ seen.
Proof.
  revert seen. induction rs as [|r' rs IH]; intros seen; simpl.
  { by intros ?%elem_of_nil. }
  destruct (decide (name r' ∈ seen)); [by apply IH|].
  intros [->|Hx]%elem_of_cons; [done|].
  intros Hs. by apply (IH _ Hx), elem_of_union_r.
Qed.

Lemma first_occurrences_NoDup seen rs : NoDup (name <$> first_occurrences seen rs).
Proof.
  revert seen. induction rs as [|r rs IH]; intros seen; simpl; [constructor|].
  destruct (decide (name r ∈ seen)); [done|].
  simpl. constructor; [|done].
  intros (r' & Heq & Hr')%list_elem_of_fmap.
  apply (first_occurrences_fresh _ _ _ Hr'), elem_of_union_l, elem_of_singleton.
  done.
Qed.

Lemma first_occurrences_length seen rs :
  length (first_occurrences seen rs) ≤ length rs.
Proof.
  revert seen. induction rs as [|r rs IH]; intros seen; simpl; [done|].
  destruct (decide (name r ∈ seen)); simpl; [|apply le_n_S]; etrans; eauto.
Qed.

Lemma first_occurrences_all seen rs :
  length (first_occurrences seen rs) = length rs ↔
  NoDup (name <$> rs) ∧ ∀ r, r ∈ rs → name r ∉ seen.
Proof.
  revert seen. induction rs as [|r rs IH]; intros seen; simpl.
  { split; [intros _; split; [constructor|by intros ? ?%elem_of_nil]|done]. }
  destruct (decide (name r ∈ seen)) as [Hin|Hin]; simpl.
  - pose proof (first_occurrences_length seen rs). split; [lia|].
    intros [_ Hfresh]. destruct (Hfresh r); [by left|done].
  - split.
    + intros Hlen. injection Hlen as Hlen. destruct (proj1 (IH _) Hlen) as [Hnd Hfresh].
      split.
      * constructor; [|done]. intros (r' & Heq & Hr')%list_elem_of_fmap.
        apply (Hfresh r' Hr'), elem_of_union_l, elem_of_singleton. done.
      * intros r' [->|Hr']%elem_of_cons; [done|].
        intros Hs. by apply (Hfresh r' Hr'), elem_of_union_r.
    + intros [Hnd Hfresh]. f_equal. apply IH. inv Hnd. split; [done|].
      intros r' Hr'. apply not_elem_of_union. split; [|apply Hfresh; by right].
      apply not_elem_of_singleton. intros Heq.
      match goal with Hn : _ ∉ _ |- _ => apply Hn end.
      apply list_elem_of_fmap. eauto.
Qed.

(** A resource whose name is new where it stands is a first occurrence. *)
Lemma first_occurrences_mid seen l1 r rest :
  name r ∉ seen → name r ∉ name <$> l1 →
  r ∈ first_occurrences seen (l1 ++ r :: rest).
Proof.
  revert seen. induction l1 as [|x l1 IH]; intros seen Hseen Hl1; simpl.
  { destruct (decide (name r ∈ seen)); [done|by left]. }
  apply not_elem_of_cons in Hl1 as [Hne Hl1].
  destruct (decide (name x ∈ seen)); [by apply IH|].
  right. apply IH; [|done].
  apply not_elem_of_union. split; [by apply not_elem_of_singleton|done].
Qed.

(** A resource whose name has occurred before it is a repeat. *)
Lemma repeats_mid seen l1 r rest :
  name r ∈ seen ∨ name r ∈ name <$> l1 →
  r ∈ repeats seen (l1 ++ r :: rest).
Proof.
  revert seen. induction l1 as [|x l1 IH]; intros seen Hseen; simpl.
  { destruct Hseen as [Hseen|Hnil]; [|by apply elem_of_nil in Hnil].
    destruct (decide (name r ∈ seen)); [by left|done]. }
  destruct (decide (name x ∈ seen)).
  - right. apply IH. destruct Hseen as [?|[->|?]%elem_of_cons]; auto.
  - apply IH. destruct Hseen as [?|[->|?]%elem_of_cons]; [left|left|by right].
    + by apply elem_of_union_r.
    + by apply elem_of_union_l, elem_of_singleton.
Qed.

(** Every resource is a first occurrence or a repeat. *)
Lemma repeats_length seen rs :
  length (first_occurrences seen rs) + length (repeats seen rs) = length rs.
Proof.
  revert seen. induction rs as [|r rs IH]; intros seen; simpl; [done|].
  destruct (decide (name r ∈ seen)); simpl.
  - specialize (IH seen). lia.
  - specialize (IH ({[name r]} ∪ seen)). lia.
Qed.

Section WithClusterManager.
Context {CM : Type} `{ClusterManager CM}.
Implicit Types (this : CdsApiImpl CM).

(** Whether a request hands the cluster named [n] to the cluster manager. *)
Definition adds (n : string) (q : CmRequest) : bool :=
  match q with
  | ReqAddOrUpdate c _ => bool_decide (cluster_name c = n)
  | ReqRemove _ => false
  end.

(** *** The two loops *)

Definition errors (l : Locals CM) : nat := length (exception_msgs l).
Definition throws (l : Locals CM) : nat := length (filter (λ c, threw c = true) (l_calls l)).

Ltac step_cases l r :=
  unfold add_step; simpl;
  destruct (decide (cluster_name (resource r) ∈ cluster_names l)) as [Hin|Hin];
  [ | destruct (addOrUpdateCluster (l_cm l) (resource r) (version r))
        as [cm' [[|]|what]] eqn:Hcall ]; simpl.

Lemma add_loop_requests (l : Locals CM) (rs : list DecodedResource) :
  request_of <$> l_calls (foldl add_step l rs) =
  (request_of <$> l_calls l) ++ (add_request <$> first_occurrences (cluster_names l) rs).
Proof.
  revert l. induction rs as [|r rs IH]; intros l; simpl.
  { by rewrite app_nil_r. }
  rewrite IH. unfold name. step_cases l r;
    destruct (decide (cluster_name (resource r) ∈ cluster_names l)); try done;
    rewrite fmap_app, <- app_assoc; done.
Qed.

Lemma add_loop_cm (l : Locals CM) (rs : list DecodedResource) :
  l_cm (foldl add_step l rs) =
  replay (l_cm l) (add_request <$> first_occurrences (cluster_names l) rs).
Proof.
  revert l. induction rs as [|r rs IH]; intros l; simpl; [done|].
  rewrite IH. unfold name. step_cases l r;
    destruct (decide (cluster_name (resource r) ∈ cluster_names l)); try done;
    simpl; unfold replay; simpl; by rewrite Hcall.
Qed.

Lemma add_loop_any_applied (l : Locals CM) (rs : list DecodedResource) :
  any_applied l = existsb applied (l_calls l) →
  any_applied (foldl add_step l rs) = existsb applied (l_calls (foldl add_step l rs)).
Proof.
  revert l. induction rs as [|r rs IH]; intros l Hl; simpl; [done|].
  apply IH. step_cases l r; rewrite ?existsb_app; simpl; rewrite <- ?Hl;
    try done; by destruct (any_applied l).
Qed.

Lemma add_loop_errors (l : Locals CM) (rs : list DecodedResource) :
  errors (foldl add_step l rs) + throws l +
    length (first_occurrences (cluster_names l) rs) =
  errors l + throws (foldl add_step l rs) + length rs.
Proof.
  revert l. induction rs as [|r rs IH]; intros l; simpl; [lia|].
  specialize (IH (add_step l r)). revert IH. unfold name.
  unfold errors, throws. step_cases l r;
    destruct (decide (cluster_name (resource r) ∈ cluster_names l)); try done;
    rewrite ?filter_app, ?length_app; simpl; lia.
Qed.

Lemma remove_loop_requests (l : Locals CM) (ns : list string) :
  request_of <$> l_calls (foldl remove_step l ns) =
  (request_of <$> l_calls l) ++ (ReqRemove <$> ns).
Proof.
  revert l. induction ns as [|n ns IH]; intros l; simpl.
  { by rewrite app_nil_r. }
  rewrite IH. unfold remove_step.
  destruct (removeCluster (l_cm l) n) as [cm' b]; simpl.
  by rewrite fmap_app, <- app_assoc.
Qed.

Lemma remove_loop_cm (l : Locals CM) (ns : list string) :
  l_cm (foldl remove_step l ns) = replay (l_cm l) (ReqRemove <$> ns).
Proof.
  revert l. induction ns as [|n ns IH]; intros l; simpl; [done|].
  rewrite IH. unfold remove_step, replay. simpl.
  by destruct (removeCluster (l_cm l) n) as [cm' b] eqn:Hcall.
Qed.

Lemma remove_loop_any_applied (l : Locals CM) (ns : list string) :
  any_applied l = existsb applied (l_calls l) →
  any_applied (foldl remove_step l ns) =
  existsb applied (l_calls (foldl remove_step l ns)).
Proof.
  revert l. induction ns as [|n ns IH]; intros l Hl; simpl; [done|].
  apply IH. unfold remove_step.
  destruct (removeCluster (l_cm l) n) as [cm' [|]]; simpl;
    rewrite existsb_app; simpl; rewrite <- Hl; by destruct (any_applied l).
Qed.

Lemma remove_loop_errors (l : Locals CM) (ns : list string) :
  exception_msgs (foldl remove_step l ns) = exception_msgs l ∧
  throws (foldl remove_step l ns) = throws l.
Proof.
  revert l. induction ns as [|n ns IH]; intros l; simpl; [done|].
  destruct (IH (remove_step l n)) as [-> ->]. unfold remove_step, throws.
  destruct (removeCluster (l_cm l) n) as [cm' b]; simpl.
  rewrite filter_app, length_app. simpl. split; [done|lia].
Qed.

(** *** What one update leaves behind *)

Lemma onConfigUpdate_requests this added removed v :
  request_of <$> calls (onConfigUpdate this added removed v) =
  (add_request <$> first_occurrences ∅ added) ++ (ReqRemove <$> removed).
Proof.
  unfold onConfigUpdate; simpl.
  by rewrite remove_loop_requests, add_loop_requests.
Qed.

Lemma onConfigUpdate_cm this added removed v :
  cm_ (api (onConfigUpdate this added removed v)) =
  replay (cm_ this)
    ((add_request <$> first_occurrences ∅ added) ++ (ReqRemove <$> removed)).
Proof.
  unfold onConfigUpdate, runInitializeCallbackIfAny; simpl.
  unfold replay at 1. rewrite foldl_app. fold (replay (cm_ this)).
  destruct (initialize_callback_ this); simpl;
    by rewrite remove_loop_cm, add_loop_cm.
Qed.

Lemma onConfigUpdate_version this added removed v :
  system_version_info_ (api (onConfigUpdate this added removed v)) =
  if existsb applied (calls (onConfigUpdate this added removed v))
  then v else system_version_info_ this.
Proof.
  unfold onConfigUpdate, runInitializeCallbackIfAny; simpl.
  rewrite <- remove_loop_any_applied by (by apply add_loop_any_applied).
  by destruct (initialize_callback_ this).
Qed.

Lemma onConfigUpdate_errors this added removed v :
  is_thrown (outcome (onConfigUpdate this added removed v)) = true ↔
  length (filter (λ c, threw c = true) (calls (onConfigUpdate this added removed v)))
    + length added ≠ length (first_occurrences ∅ added).
Proof.
  unfold onConfigUpdate; simpl.
  set (l1 := foldl add_step (initial_locals (cm_ this)) added).
  destruct (remove_loop_errors l1 removed) as [Hmsgs Hthrows].
  unfold throws in Hthrows. rewrite Hmsgs, Hthrows.
  pose proof (add_loop_errors (initial_locals (cm_ this)) added) as Hcount.
  fold l1 in Hcount. unfold errors, throws in Hcount. simpl in Hcount.
  pose proof (first_occurrences_length ∅ added).
  destruct (exception_msgs l1); simpl in *; split; try done; lia.
Qed.

Lemma adds_unique (rs : list DecodedResource) (r : DecodedResource) :
  NoDup (name <$> rs) → r ∈ rs →
  filter (λ q, adds (name r) q = true) (add_request <$> rs) = [add_request r].
Proof.
  induction rs as [|x rs IH]; intros Hnd Hr; [by apply elem_of_nil in Hr|].
  inv Hnd. simpl. apply elem_of_cons in Hr as [->|Hr].
  - rewrite filter_cons_True by (by apply bool_decide_eq_true). f_equal.
    apply filter_none. intros q (y & -> & Hy)%list_elem_of_fmap.
    simpl. intros Heq%bool_decide_eq_true.
    match goal with Hn : _ ∉ _ |- _ => apply Hn end.
    apply list_elem_of_fmap. exists y. by split; [symmetry|].
  - rewrite filter_cons_False; [by apply IH|].
    simpl. intros Heq%bool_decide_eq_true.
    match goal with Hn : _ ∉ _ |- _ => apply Hn end.
    apply list_elem_of_fmap. exists r. by split; [symmetry|].
Qed.

Lemma adds_no_remove (n : string) (ns : list string) :
  filter (λ q, adds n q = true) (ReqRemove <$> ns) = [].
Proof.
  apply filter_none. by intros q (y & -> & Hy)%list_elem_of_fmap.
Qed.

(** A cluster manager that leaves its state as it is unless it answers
    "applied". *)
Definition quiet_unless_applied : Prop :=
  (∀ (cm : CM) c v, (addOrUpdateCluster cm c v).2 ≠ Returned true →
                    (addOrUpdateCluster cm c v).1 = cm)
  ∧ (∀ (cm : CM) n, (removeCluster cm n).2 = false → (removeCluster cm n).1 = cm).

Lemma add_loop_applied_stays (l : Locals CM) (rs : list DecodedResource) :
  any_applied l = true → any_applied (foldl add_step l rs) = true.
Proof.
  revert l. induction rs as [|r rs IH]; intros l Hl; simpl; [done|].
  apply IH. by step_cases l r.
Qed.

Lemma remove_loop_applied_stays (l : Locals CM) (ns : list string) :
  any_applied l = true → any_applied (foldl remove_step l ns) = true.
Proof.
  revert l. induction ns as [|n ns IH]; intros l Hl; simpl; [done|].
  apply IH. unfold remove_step.
  by destruct (removeCluster (l_cm l) n) as [cm' [|]].
Qed.

Lemma add_loop_retained (l : Locals CM) (rs : list DecodedResource) :
  quiet_unless_applied →
  any_applied (foldl add_step l rs) = false → l_cm (foldl add_step l rs) = l_cm l.
Proof.
  intros [Hadd _]. revert l. induction rs as [|r rs IH]; intros l Hnone; simpl; [done|].
  simpl in Hnone. rewrite IH by done.
  assert (any_applied (add_step l r) = false) as Hstep.
  { destruct (any_applied (add_step l r)) eqn:Hap; [|done].
    by rewrite add_loop_applied_stays in Hnone. }
  revert Hstep. unfold add_step.
  destruct (decide (cluster_name (resource r) ∈ cluster_names l)); [done|].
  pose proof (Hadd (l_cm l) (resource r) (version r)) as Hquiet.
  destruct (addOrUpdateCluster (l_cm l) (resource r) (version r))
    as [cm' [[|]|what]]; simpl in *; try done; intros _; by apply Hquiet.
Qed.

Lemma remove_loop_retained (l : Locals CM) (ns : list string) :
  quiet_unless_applied →
  any_applied (foldl remove_step l ns) = false →
  l_cm (foldl remove_step l ns) = l_cm l ∧ any_applied l = false.
Proof.
  intros [_ Hremove]. revert l. induction ns as [|n ns IH]; intros l Hnone; simpl; [done|].
  simpl in Hnone. destruct (IH _ Hnone) as [-> Hstep].
  revert Hstep. unfold remove_step.
  pose proof (Hremove (l_cm l) n) as Hquiet.
  destruct (removeCluster (l_cm l) n) as [cm' [|]]; simpl in *; [done|].
  intros ->. split; [by apply Hquiet|done].
Qed.

(** When no request was applied, such a cluster manager is as it was. *)
Lemma onConfigUpdate_retained this added removed v :
  quiet_unless_applied →
  existsb applied (calls (onConfigUpdate this added removed v)) = false →
  cm_ (api (onConfigUpdate this added removed v)) = cm_ this.
Proof.
  intros Hquiet. unfold onConfigUpdate, runInitializeCallbackIfAny; simpl.
  rewrite <- remove_loop_any_applied by (by apply add_loop_any_applied).
  intros Hnone. destruct (remove_loop_retained _ _ Hquiet Hnone) as [Hcm Hadd].
  destruct (initialize_callback_ this); simpl; rewrite Hcm;
    by rewrite (add_loop_retained _ _ Hquiet Hadd).
Qed.

(** The update throws exactly when a request threw or a name was
    repeated. *)
Lemma onConfigUpdate_thrown_iff this added removed v :
  let u := onConfigUpdate this added removed v in
  is_thrown (outcome u) = true ↔
  (∃ c, c ∈ calls u ∧ threw c = true) ∨ ¬ NoDup (name <$> added).
Proof.
  intros u. unfold u. rewrite onConfigUpdate_errors. fold u.
  pose proof (first_occurrences_length ∅ added) as Hle.
  pose proof (first_occurrences_all ∅ added) as Hall.
  split.
  - intros Hne.
    destruct (filter (λ c, threw c = true) (calls u)) as [|c cs] eqn:Hf.
    + right. intros Hnd. simpl in Hne. apply Hne. symmetry. apply Hall.
      split; [done|]. intros ? _. apply not_elem_of_empty.
    + left. exists c.
      assert (c ∈ filter (λ c, threw c = true) (calls u)) as Hin
        by (rewrite Hf; by left).
      apply list_elem_of_filter in Hin as [? ?]. done.
  - intros [(c & Hc & Hthrew)|Hdup].
    + assert (c ∈ filter (λ c, threw c = true) (calls u)) as Hin
        by (by apply list_elem_of_filter).
      destruct (filter (λ c, threw c = true) (calls u));
        [by apply elem_of_nil in Hin|simpl; lia].
    + intros Heq. apply Hdup. apply Hall. lia.
Qed.

(** *** The errors of an update *)

(** What the catch block records for a resource that repeats a name. *)
Definition duplicate_msg (r : DecodedResource) : string :=
  exception_msg (name r) (duplicate_what (name r)).

(** What the catch block records for a request on which the cluster
    manager threw. *)
Definition thrown_msg (c : CmCall) : option string :=
  match c with
  | CallAddOrUpdate cl _ (Thrown what) => Some (exception_msg (cluster_name cl) what)
  | _ => None
  end.

(** [exception_msgs] holds one message for every repeat and one for
    every request that threw. *)
Lemma add_step_messages (l : Locals CM) (r : DecodedResource) (dups : list string) :
  exception_msgs l ≡ₚ dups ++ omap thrown_msg (l_calls l) →
  if decide (name r ∈ cluster_names l) then
    cluster_names (add_step l r) = cluster_names l
    ∧ exception_msgs (add_step l r) ≡ₚ
        (dups ++ [duplicate_msg r]) ++ omap thrown_msg (l_calls (add_step l r))
  else
    cluster_names (add_step l r) = {[name r]} ∪ cluster_names l
    ∧ exception_msgs (add_step l r) ≡ₚ dups ++ omap thrown_msg (l_calls (add_step l r)).
Proof.
  intros Hl. unfold name, duplicate_msg, name. step_cases l r;
    destruct (decide (cluster_name (resource r) ∈ cluster_names l)); try done;
    (split; [done|]); rewrite ?omap_app, ?app_nil_r; simpl; try done.
  - rewrite Hl, <- !app_assoc. apply Permutation_app_head, Permutation_app_comm.
  - by rewrite Hl, app_assoc.
Qed.

Lemma add_loop_messages (l : Locals CM) (rs : list DecodedResource) (dups : list string) :
  exception_msgs l ≡ₚ dups ++ omap thrown_msg (l_calls l) →
  exception_msgs (foldl add_step l rs) ≡ₚ
    (dups ++ (duplicate_msg <$> repeats (cluster_names l) rs))
    ++ omap thrown_msg (l_calls (foldl add_step l rs)).
Proof.
  revert l dups. induction rs as [|r rs IH]; intros l dups Hl; cbn [foldl repeats fmap list_fmap].
  { by rewrite app_nil_r. }
  pose proof (add_step_messages l r dups Hl) as Hstep.
  destruct (decide (name r ∈ cluster_names l)); destruct Hstep as [Hnames Hmsgs].
  - rewrite (IH _ _ Hmsgs), Hnames, fmap_cons.
    by rewrite <- (app_assoc dups [duplicate_msg r]).
  - by rewrite (IH _ _ Hmsgs), Hnames.
Qed.

Lemma remove_loop_messages (l : Locals CM) (ns : list string) :
  omap thrown_msg (l_calls (foldl remove_step l ns)) = omap thrown_msg (l_calls l).
Proof.
  revert l. induction ns as [|n ns IH]; intros l; simpl; [done|].
  rewrite IH. unfold remove_step.
  destruct (removeCluster (l_cm l) n) as [cm' b]; simpl.
  by rewrite omap_app, app_nil_r.
Qed.

(** The exception is made of those messages. *)
Lemma onConfigUpdate_outcome this added removed v :
  let u := onConfigUpdate this added removed v in
  ∃ msgs,
    msgs ≡ₚ (duplicate_msg <$> repeats ∅ added) ++ omap thrown_msg (calls u)
    ∧ outcome u =
        match msgs with
        | [] => Returned ()
        | _ => Thrown ("Error adding/updating cluster(s) " +:+ StrJoin msgs ", ")
        end.
Proof.
  intros u. unfold u, onConfigUpdate; simpl.
  set (l1 := foldl add_step (initial_locals (cm_ this)) added).
  destruct (remove_loop_errors l1 removed) as [Hmsgs _].
  exists (exception_msgs l1). rewrite Hmsgs, remove_loop_messages. split.
  - apply (add_loop_messages (initial_locals (cm_ this)) added []). done.
  - by destruct (exception_msgs l1).
Qed.

Lemma onConfigUpdate_first_is_asked this added removed v l1 r l2 :
  added = l1 ++ r :: l2 → name r ∉ name <$> l1 →
  ∃ answer, CallAddOrUpdate (resource r) (version r) answer
              ∈ calls (onConfigUpdate this added removed v).
Proof.
  intros -> Hfresh.
  assert (add_request r ∈
            request_of <$> calls (onConfigUpdate this (l1 ++ r :: l2) removed v)) as Hin.
  { rewrite onConfigUpdate_requests. apply elem_of_app. left. apply list_elem_of_fmap.
    exists r. split; [done|]. by apply first_occurrences_mid. }
  apply list_elem_of_fmap in Hin as ([c w answer|n b] & Heq & Hc);
    simpl in Heq; [|done].
  unfold add_request in Heq. injection Heq as <- <-. eauto.
Qed.

(** *** Properties of an update *)

(** C4, as the code has it. A resource that fails never stops the
    siblings whose name is new where they stand: the cluster manager is
    asked, in response order, to add or update exactly the resources
    whose name has not occurred earlier in the response, and then to
    remove every removed name, whatever it answered (applied, skipped or
    an exception) to the others; the state left behind is the one all
    those requests produce. A resource that repeats an earlier name, be
    it the name of a resource that failed, is not handed over: it is
    recorded as a duplicate. The errors are reported at the end only, in
    one exception that holds a message for every repeat and for every
    request that threw: the update throws exactly when some request threw
    or some name was repeated. *)
Theorem failing_resource_does_not_stop_siblings
    this (added : list DecodedResource) (removed : list string) (v : string) :
  let u := onConfigUpdate this added removed v in
  request_of <$> calls u =
    (add_request <$> first_occurrences ∅ added) ++ (ReqRemove <$> removed)
  ∧ cm_ (api u) = replay (cm_ this) (request_of <$> calls u)
  ∧ (∀ l1 r l2, added = l1 ++ r :: l2 → name r ∉ name <$> l1 →
       ∃ answer, CallAddOrUpdate (resource r) (version r) answer ∈ calls u)
  ∧ (is_thrown (outcome u) = true ↔
       (∃ c, c ∈ calls u ∧ threw c = true) ∨ ¬ NoDup (name <$> added))
  ∧ (∃ msgs,
       msgs ≡ₚ (duplicate_msg <$> repeats ∅ added) ++ omap thrown_msg (calls u)
       ∧ (∀ l1 r l2, added = l1 ++ r :: l2 → name r ∈ name <$> l1 →
            duplicate_msg r ∈ msgs)
       ∧ outcome u =
           match msgs with
           | [] => Returned ()
           | _ => Thrown ("Error adding/updating cluster(s) " +:+ StrJoin msgs ", ")
           end).
Proof.
  intros u. pose proof (onConfigUpdate_requests this added removed v) as Hreq.
  fold u in Hreq. split; [done|]. split.
  { rewrite Hreq. apply onConfigUpdate_cm. }
  split; [|split].
  - intros l1 r l2. apply onConfigUpdate_first_is_asked.
  - apply onConfigUpdate_thrown_iff.
  - destruct (onConfigUpdate_outcome this added removed v) as (msgs & Hmsgs & Hout).
    exists msgs. split; [done|]. split; [|done].
    intros l1 r l2 -> Hrep. rewrite Hmsgs. apply elem_of_app. left.
    apply list_elem_of_fmap. exists r. split; [done|]. apply repeats_mid. by right.
Qed.

(** C3, as the code has it. The resources are applied one by one: the
    cluster manager is asked to add or update every resource that does
    not repeat an earlier name, and keeps the effect of every request
    made, also when other resources fail and the update ends with an
    exception. The stored version advances to the response's version
    exactly when at least one request of the update was applied, and is
    retained otherwise; in that case a cluster manager that changes
    nothing unless it applies is as it was before, so that the prior
    state is fully retained. *)
Theorem version_advances_iff_some_request_applied
    this (added : list DecodedResource) (removed : list string) (v : string) :
  let u := onConfigUpdate this added removed v in
  ((∃ c, c ∈ calls u ∧ applied c = true) ∧ system_version_info_ (api u) = v
   ∨ (∀ c, c ∈ calls u → applied c = false) ∧
     system_version_info_ (api u) = system_version_info_ this ∧
     (quiet_unless_applied → cm_ (api u) = cm_ this))
  ∧ request_of <$> calls u =
      (add_request <$> first_occurrences ∅ added) ++ (ReqRemove <$> removed)
  ∧ cm_ (api u) = replay (cm_ this) (request_of <$> calls u).
Proof.
  intros u. split; [|split].
  - unfold u. rewrite onConfigUpdate_version. fold u.
    destruct (existsb applied (calls u)) eqn:Hex.
    + left. split; [|done]. apply existsb_exists in Hex as (c & Hc & Hap).
      exists c. by rewrite list_elem_of_In.
    + right. split; [|split; [done|]].
      * intros c Hc. destruct (applied c) eqn:Hap; [|done].
        assert (existsb applied (calls u) = true) as Hex'; [|congruence].
        apply existsb_exists. exists c. by rewrite <- list_elem_of_In.
      * intros Hquiet. by apply onConfigUpdate_retained.
  - apply onConfigUpdate_requests.
  - unfold u. rewrite onConfigUpdate_requests. apply onConfigUpdate_cm.
Qed.

(** C2, as the code has it. When a name occurs twice in a response,
    only the first occurrence of that name is handed to the cluster
    manager; the other resources are still processed (every resource whose
    name is new where it stands, in order, then the removals); the
    update ends with an exception whose message lists the errors: one
    duplicate error for every repeat, that of the second occurrence among
    them, and one for every request that threw. The first occurrence is
    not withdrawn: the cluster manager is left in the state the requests
    produce, and it is asked to remove the name only when the response
    itself lists the name as removed. *)
Theorem duplicate_name_throws_after_first_is_handed_over
    this (l1 l2 l3 : list DecodedResource) (r1 r2 : DecodedResource)
    (removed : list string) (v : string) :
  name r1 = name r2 → name r1 ∉ name <$> l1 →
  let added := l1 ++ r1 :: l2 ++ r2 :: l3 in
  let u := onConfigUpdate this added removed v in
  is_thrown (outcome u) = true
  ∧ filter (λ q, adds (name r1) q = true) (request_of <$> calls u) = [add_request r1]
  ∧ request_of <$> calls u =
      (add_request <$> first_occurrences ∅ added) ++ (ReqRemove <$> removed)
  ∧ (∀ k1 r k2, added = k1 ++ r :: k2 → name r ∉ name <$> k1 →
       ∃ answer, CallAddOrUpdate (resource r) (version r) answer ∈ calls u)
  ∧ (∃ msgs,
       outcome u = Thrown ("Error adding/updating cluster(s) " +:+ StrJoin msgs ", ")
       ∧ msgs ≡ₚ (duplicate_msg <$> repeats ∅ added) ++ omap thrown_msg (calls u)
       ∧ duplicate_msg r2 ∈ msgs
       ∧ (∀ k1 r k2, added = k1 ++ r :: k2 → name r ∈ name <$> k1 →
            duplicate_msg r ∈ msgs))
  ∧ cm_ (api u) = replay (cm_ this) (request_of <$> calls u)
  ∧ (ReqRemove (name r1) ∈ request_of <$> calls u ↔ name r1 ∈ removed).
Proof.
  intros Hname Hfresh added u.
  pose proof (onConfigUpdate_requests this added removed v) as Hreq.
  pose proof (onConfigUpdate_thrown_iff this added removed v) as Hthrown.
  simpl in Hthrown. fold u in Hreq, Hthrown.
  assert (∀ k1 r k2, added = k1 ++ r :: k2 → name r ∈ name <$> k1 →
            r ∈ repeats ∅ added) as Hrepeat.
  { intros k1 r k2 -> Hrep. apply repeats_mid. by right. }
  assert (r2 ∈ repeats ∅ added) as Hr2.
  { apply (Hrepeat (l1 ++ r1 :: l2) r2 l3).
    - unfold added. by rewrite <- app_assoc.
    - rewrite fmap_app, fmap_cons, <- Hname. apply elem_of_app. right. by left. }
  split; [|split; [|split; [|split; [|split; [|split]]]]].
  - apply Hthrown. right. unfold added.
    rewrite fmap_app, fmap_cons, fmap_app, fmap_cons.
    intros Hnd. apply NoDup_app in Hnd as (_ & _ & Hnd). inv Hnd.
    match goal with Hn : _ ∉ _ |- _ => apply Hn end.
    apply elem_of_app. right. rewrite Hname. by left.
  - rewrite Hreq, filter_app, adds_no_remove, app_nil_r.
    apply adds_unique; [apply first_occurrences_NoDup|].
    apply first_occurrences_mid; [apply not_elem_of_empty|done].
  - done.
  - intros k1 r k2. apply onConfigUpdate_first_is_asked.
  - destruct (onConfigUpdate_outcome this added removed v) as (msgs & Hmsgs & Hout).
    fold u in Hmsgs, Hout.
    assert (∀ r, r ∈ repeats ∅ added → duplicate_msg r ∈ msgs) as Hin.
    { intros r Hr. rewrite Hmsgs. apply elem_of_app. left.
      apply list_elem_of_fmap. by exists r. }
    exists msgs. split; [|split; [done|split; [by apply Hin|]]].
    + destruct msgs as [|msg msgs]; [|done].
      by destruct (proj1 (elem_of_nil _) (Hin r2 Hr2)).
    + intros k1 r k2 Hadded Hrep. by apply Hin, (Hrepeat k1 r k2).
  - rewrite Hreq. apply onConfigUpdate_cm.
  - rewrite Hreq, elem_of_app, !list_elem_of_fmap. split.
    + intros [(r & Heq & _)|(n & Heq & Hn)]; [done|]. by injection Heq as ->.
    + intros Hn. right. by exists (name r1).
Qed.

End WithClusterManager.

(** *** The code run on the test cluster manager *)

(** C2 as stated fails. It says that a response naming a cluster twice
    is rejected as a whole, nothing of it being applied. On the response
    [a; a'], where both are named "a", the update throws, yet the first
    "a" is in the cluster manager afterwards and the stored version has
    advanced. *)
Lemma duplicate_first_occurrence_applied :
  ¬ (∀ (this : CdsApiImpl TestClusterManager) added removed v,
       ¬ NoDup (name <$> added) →
       let u := onConfigUpdate this added removed v in
       is_thrown (outcome u) = true ∧ cm_ (api u) = cm_ this).
Proof.
  intros Hclaim.
  destruct (Hclaim fresh_api [cluster_a; cluster_a'] [] "v1") as [_ Hcm].
  { intros [Hfresh _]%NoDup_cons. apply Hfresh. by left. }
  apply (f_equal (λ cm : TestClusterManager, cm !! "a")) in Hcm.
  by vm_compute in Hcm.
Qed.

Example duplicate_response_run :
  let u := onConfigUpdate fresh_api [cluster_a; cluster_a'] [] "v1" in
  outcome u = Thrown "Error adding/updating cluster(s) a: duplicate cluster a found"
  ∧ calls u = [CallAddOrUpdate (resource cluster_a) "1" (Returned true)]
  ∧ cm_ (api u) !! "a" = Some (resource cluster_a)
  ∧ system_version_info_ (api u) = "v1".
Proof. repeat split; by vm_compute. Qed.

(** C3 as stated fails. It says that either every valid resource of a
    response is applied and the version advances, or the prior state is
    retained, never something in between. On the response [b; bad; a; a'],
    where "bad" fails validation and a' repeats the name of a, the
    clusters b and a are applied and the version advances, while a', which
    the cluster manager would accept, is not applied. *)
Lemma partial_apply_happens :
  ¬ (∀ (this : CdsApiImpl TestClusterManager) added removed v,
       let u := onConfigUpdate this added removed v in
       (Forall (λ r, is_thrown (addOrUpdateCluster (cm_ this) (resource r) (version r)).2
                     = false →
                     cm_ (api u) !! name r = Some (resource r)) added
        ∧ system_version_info_ (api u) = v)
       ∨ (cm_ (api u) = cm_ this
          ∧ system_version_info_ (api u) = system_version_info_ this)).
Proof.
  intros Hclaim.
  destruct (Hclaim fresh_api [cluster_b; cluster_bad; cluster_a; cluster_a'] [] "v1")
    as [[Hall _]|[_ Hver]].
  - do 3 (apply Forall_cons in Hall as [_ Hall]).
    apply Forall_cons in Hall as [Ha' _].
    specialize (Ha' eq_refl). by vm_compute in Ha'.
  - by vm_compute in Hver.
Qed.

Example partial_response_run :
  let u := onConfigUpdate fresh_api [cluster_b; cluster_bad; cluster_a; cluster_a'] [] "v1" in
  outcome u = Thrown ("Error adding/updating cluster(s) " +:+
                      "bad: invalid cluster, a: duplicate cluster a found")
  ∧ cm_ (api u) !! "b" = Some (resource cluster_b)
  ∧ cm_ (api u) !! "bad" = None
  ∧ cm_ (api u) !! "a" = Some (resource cluster_a)
  ∧ system_version_info_ (api u) = "v1"
  ∧ initialize_runs (api u) = 1
  ∧ logged u = (2, 0)%Z.
Proof. repeat split; by vm_compute. Qed.

(** The state-of-the-world overload removes what the response does not
    name. *)
Example sotw_removes_the_unnamed :
  let u1 := onConfigUpdateSotw fresh_api [cluster_a; cluster_b] "v1" in
  let u2 := onConfigUpdateSotw (api u1) [cluster_b] "v2" in
  calls u2 = [CallAddOrUpdate (resource cluster_b) "1" (Returned false);
              CallRemove "a" true]
  ∧ outcome u2 = Returned ()
  ∧ system_version_info_ (api u2) = "v2".
Proof. repeat split; by vm_compute. Qed.

Lemma test_cluster_manager_quiet : quiet_unless_applied (CM := TestClusterManager).
Proof.
  split.
  - intros cm c v. simpl. destruct (decide (cluster_config c = "")); [done|].
    by destruct (decide (cm !! cluster_name c = Some c)).
  - intros cm n. simpl. by destruct (cm !! n).
Defined.

(** The theorem on versions, at the response [b; bad] and at the
    response [bad]: with "b" applied the version advances, with nothing
    applied the version and the cluster manager are as before. *)
Lemma version_advances_witness :
  system_version_info_ (api (onConfigUpdate fresh_api [cluster_b; cluster_bad] [] "v1")) = "v1"
  ∧ system_version_info_ (api (onConfigUpdate fresh_api [cluster_bad] ["zz"] "v1")) = ""
  ∧ cm_ (api (onConfigUpdate fresh_api [cluster_bad] ["zz"] "v1")) = cm_ fresh_api.
Proof.
  split.
  - destruct (version_advances_iff_some_request_applied
                fresh_api [cluster_b; cluster_bad] [] "v1") as [[[_ Hv]|[Hnone _]] _].
    + exact Hv.
    + specialize (Hnone (CallAddOrUpdate (resource cluster_b) "1" (Returned true))).
      discriminate Hnone. by left.
  - destruct (version_advances_iff_some_request_applied
                fresh_api [cluster_bad] ["zz"] "v1") as [[[(c & Hc & Hap) _]|(_ & Hv & Hcm)] _].
    + vm_compute in Hc.
      repeat (apply elem_of_cons in Hc as [->|Hc]; [discriminate Hap|]).
      by apply elem_of_nil in Hc.
    + split; [exact Hv|]. apply Hcm, test_cluster_manager_quiet.
Defined.

(** The theorem on duplicates, at the response [a; b; a'] with the
    removal of "zz": "a" and "b" are handed over, "zz" is removed, nobody
    asks to remove "a", and the exception lists the one duplicate. *)
Lemma duplicate_name_throws_witness :
  let u := onConfigUpdate fresh_api ([] ++ cluster_a :: [cluster_b] ++ cluster_a' :: [])
             ["zz"] "v1" in
  outcome u = Thrown "Error adding/updating cluster(s) a: duplicate cluster a found"
  ∧ request_of <$> calls u = [add_request cluster_a; add_request cluster_b; ReqRemove "zz"]
  ∧ ReqRemove "a" ∉ request_of <$> calls u.
Proof.
  intros u.
  destruct (duplicate_name_throws_after_first_is_handed_over
              fresh_api [] [cluster_b] [] cluster_a cluster_a' ["zz"] "v1")
    as (_ & _ & Hreq & _ & (msgs & Hout & Hmsgs & _) & _ & Hremove).
  - reflexivity.
  - simpl. apply not_elem_of_nil.
  - fold u in Hreq, Hout, Hmsgs, Hremove. split; [|split].
    + rewrite Hout. vm_compute in Hmsgs.
      apply Permutation_singleton_r in Hmsgs. by rewrite Hmsgs.
    + exact Hreq.
    + intros Hin. apply Hremove in Hin.
      apply list_elem_of_singleton in Hin. discriminate Hin.
Defined.

(** C4 as stated fails. It says that when a resource of a response
    fails, every other resource is still processed and applied. On the
    response [a_bad; a], both named "a", the first fails validation; its
    name has been recorded before the cluster manager threw, so the valid
    "a" that follows is rejected as a duplicate and never reaches the
    cluster manager. *)
Lemma sibling_repeating_a_failed_name_is_dropped :
  ¬ (∀ (this : CdsApiImpl TestClusterManager) added removed v bad r,
       bad ∈ added →
       is_thrown (addOrUpdateCluster (cm_ this) (resource bad) (version bad)).2 = true →
       r ∈ added →
       is_thrown (addOrUpdateCluster (cm_ this) (resource r) (version r)).2 = false →
       let u := onConfigUpdate this added removed v in
       ∃ answer, CallAddOrUpdate (resource r) (version r) answer ∈ calls u).
Proof.
  intros Hclaim.
  destruct (Hclaim fresh_api [cluster_a_bad; cluster_a] [] "v1" cluster_a_bad cluster_a)
    as [answer Hcall].
  - by left.
  - reflexivity.
  - right. by left.
  - reflexivity.
  - vm_compute in Hcall. apply list_elem_of_singleton in Hcall. discriminate Hcall.
Qed.

Example failed_name_response_run :
  let u := onConfigUpdate fresh_api [cluster_a_bad; cluster_a] [] "v1" in
  outcome u = Thrown ("Error adding/updating cluster(s) " +:+
                      "a: invalid cluster, a: duplicate cluster a found")
  ∧ calls u = [CallAddOrUpdate (resource cluster_a_bad) "1" (Thrown "invalid cluster")]
  ∧ cm_ (api u) !! "a" = None
  ∧ system_version_info_ (api u) = "".
Proof. repeat split; by vm_compute. Qed.

(** *** The other entry points *)

(** What the subscription can deliver to its callbacks. *)
Inductive SubscriptionEvent :=
| SotwUpdate (resources : list DecodedResource) (version_info : string)
| DeltaUpdate (added_resources : list DecodedResource)
    (removed_resources : list string) (system_version_info : string)
| UpdateFailed (reason : ConfigUpdateFailureReason).

(** The names the cluster manager was asked to remove. *)
Definition removals (cs : list CmCall) : list string :=
  omap (λ c, match c with CallRemove n _ => Some n | _ => None end) cs.

(** An add/update request that the cluster manager answered with [b]:
    applied ([true]) or unmodified ([false]). *)
Definition answered (b : bool) (c : CmCall) : bool :=
  match c with
  | CallAddOrUpdate _ _ (Returned b') => bool_decide (b' = b)
  | _ => false
  end.

Definition count_calls (f : CmCall → bool) (cs : list CmCall) : Z :=
  Z.of_nat (length (filter (λ c, f c = true) cs)).

Section Entrypoints.
Context {CM : Type} `{ClusterManager CM}.
Implicit Types (this : CdsApiImpl CM).

(** [CdsApiImpl::onConfigUpdateFailed]. The [ASSERT] on the reason is
    compiled out of release builds. *)
Definition onConfigUpdateFailed this (reason : ConfigUpdateFailureReason)
  : CdsApiImpl CM :=
  (* We need to allow server startup to continue, even if we have a bad
     config. *)
  runInitializeCallbackIfAny this.

(** The object after an event; an exception of [onConfigUpdate] goes to
    the caller and leaves the object as the update left it. *)
Definition deliver this (ev : SubscriptionEvent) : CdsApiImpl CM :=
  match ev with
  | SotwUpdate resources version_info =>
      api (onConfigUpdateSotw this resources version_info)
  | DeltaUpdate added removed system_version_info =>
      api (onConfigUpdate this added removed system_version_info)
  | UpdateFailed reason => onConfigUpdateFailed this reason
  end.

Lemma removals_app (cs1 cs2 : list CmCall) :
  removals (cs1 ++ cs2) = removals cs1 ++ removals cs2.
Proof. apply omap_app. Qed.

Lemma add_loop_removals (l : Locals CM) (rs : list DecodedResource) :
  removals (l_calls (foldl add_step l rs)) = removals (l_calls l).
Proof.
  revert l. induction rs as [|r rs IH]; intros l; simpl; [done|].
  rewrite IH. unfold add_step.
  destruct (decide (cluster_name (resource r) ∈ cluster_names l)); [done|].
  destruct (addOrUpdateCluster (l_cm l) (resource r) (version r))
    as [cm' [[|]|what]]; simpl; rewrite removals_app; simpl; by rewrite app_nil_r.
Qed.

Lemma remove_loop_removals (l : Locals CM) (ns : list string) :
  removals (l_calls (foldl remove_step l ns)) = removals (l_calls l) ++ ns.
Proof.
  revert l. induction ns as [|n ns IH]; intros l; simpl.
  { by rewrite app_nil_r. }
  rewrite IH. unfold remove_step.
  destruct (removeCluster (l_cm l) n) as [cm' b]; simpl.
  by rewrite removals_app, <- app_assoc.
Qed.

Lemma onConfigUpdate_removals this added removed v :
  removals (calls (onConfigUpdate this added removed v)) = removed.
Proof.
  unfold onConfigUpdate; simpl.
  by rewrite remove_loop_removals, add_loop_removals.
Qed.

(** X1. The state-of-the-world overload asks the cluster manager to
    remove exactly the clusters it has, active or warming, that the
    response does not name, and each of them once, also a cluster that is
    active and warming at once. The two listings of the cluster manager
    are maps, so neither holds a name twice. *)
Theorem sotw_removes_exactly_the_unnamed this
    (resources : list DecodedResource) (version_info : string) :
  NoDup (clusters (cm_ this)).1 → NoDup (clusters (cm_ this)).2 →
  let u := onConfigUpdateSotw this resources version_info in
  NoDup (removals (calls u))
  ∧ ∀ n, n ∈ removals (calls u) ↔
         (n ∈ (clusters (cm_ this)).1 ∨ n ∈ (clusters (cm_ this)).2)
         ∧ n ∉ name <$> resources.
Proof.
  intros Hactive Hwarming u. unfold u, onConfigUpdateSotw.
  rewrite onConfigUpdate_removals. unfold to_remove_repeated.
  destruct (clusters (cm_ this)) as [active warming]; simpl in *.
  split.
  - apply NoDup_app. split; [by apply NoDup_filter|]. split.
    + intros n Hn Hw. by apply list_elem_of_filter in Hw as [Hnot _].
    + by do 2 apply NoDup_filter.
  - intros n. rewrite elem_of_app, !list_elem_of_filter.
    split.
    + intros [[Hn Hin]|[_ [Hn Hin]]]; split; auto.
    + intros [[Hin|Hin] Hn]; [by left|].
      destruct (decide (n ∈ active)) as [Hact|Hact]; [by left|].
      right. split; [|done]. by intros [_ ?].
Qed.

(** *** The initialize callback *)

Lemma runInitializeCallbackIfAny_runs this :
  initialize_callback_ (runInitializeCallbackIfAny this) = false
  ∧ initialize_runs (runInitializeCallbackIfAny this) =
    initialize_runs this + (if initialize_callback_ this then 1 else 0).
Proof.
  unfold runInitializeCallbackIfAny.
  destruct (initialize_callback_ this) eqn:Hcb; simpl; [split; [done|lia]|].
  split; [done|lia].
Qed.

Lemma deliver_runs this ev :
  initialize_callback_ (deliver this ev) = false
  ∧ initialize_runs (deliver this ev) =
    initialize_runs this + (if initialize_callback_ this then 1 else 0).
Proof.
  destruct ev as [rs v|added removed v|reason]; simpl;
    try apply runInitializeCallbackIfAny_runs;
    unfold onConfigUpdateSotw, onConfigUpdate; cbn [api];
    match goal with |- context [runInitializeCallbackIfAny ?t] =>
      apply (runInitializeCallbackIfAny_runs t) end.
Qed.

(** X2. The initialize callback runs at the first event the subscription
    delivers, be it an update that is accepted, an update that throws or a
    failure, and never again: after any sequence of events that is not
    empty it has run exactly once if it was set and not at all if it was
    not. *)
Theorem initialize_callback_runs_once this
    (ev : SubscriptionEvent) (evs : list SubscriptionEvent) :
  let after := foldl deliver this (ev :: evs) in
  initialize_callback_ after = false
  ∧ initialize_runs after =
    initialize_runs this + (if initialize_callback_ this then 1 else 0).
Proof.
  simpl. destruct (deliver_runs this ev) as [Hcb Hruns].
  revert Hcb Hruns. generalize (deliver this ev) as this'.
  induction evs as [|e evs IH]; intros this' Hcb Hruns; simpl; [done|].
  destruct (deliver_runs this' e) as [Hcb' Hruns'].
  apply IH; [done|]. rewrite Hruns', Hcb. lia.
Qed.

(** *** The counters of the closing log line *)

Definition counted (l : Locals CM) : Prop :=
  added_or_updated l = (count_calls (answered true) (l_calls l) mod 2 ^ 32)%Z
  ∧ skipped l = (count_calls (answered false) (l_calls l) mod 2 ^ 32)%Z.

Lemma count_snoc f cs c :
  count_calls f (cs ++ [c]) = (count_calls f cs + if f c then 1 else 0)%Z.
Proof.
  unfold count_calls. rewrite filter_app, length_app. destruct (f c) eqn:Hf.
  - rewrite filter_cons_True by done. simpl. lia.
  - rewrite filter_cons_False by (by rewrite Hf). simpl. lia.
Qed.

Lemma uint32_incr_mod (n : Z) :
  uint32_incr (n mod 2 ^ 32) = ((n + 1) mod 2 ^ 32)%Z.
Proof. unfold uint32_incr. by rewrite Zplus_mod_idemp_l. Qed.

Lemma add_loop_counted (l : Locals CM) (rs : list DecodedResource) :
  counted l → counted (foldl add_step l rs).
Proof.
  revert l. induction rs as [|r rs IH]; intros l [Hadd Hskip]; simpl; [done|].
  apply IH. unfold counted, add_step.
  destruct (decide (cluster_name (resource r) ∈ cluster_names l)); [done|].
  destruct (addOrUpdateCluster (l_cm l) (resource r) (version r))
    as [cm' [[|]|what]]; simpl; rewrite !count_snoc;
    rewrite Hadd, Hskip, ?uint32_incr_mod; simpl; by rewrite ?Z.add_0_r.
Qed.

Lemma remove_loop_counted (l : Locals CM) (ns : list string) :
  counted l → counted (foldl remove_step l ns).
Proof.
  revert l. induction ns as [|n ns IH]; intros l [Hadd Hskip]; simpl; [done|].
  apply IH. unfold counted, remove_step.
  destruct (removeCluster (l_cm l) n) as [cm' b]; simpl.
  rewrite !count_snoc. simpl. by rewrite !Z.add_0_r.
Qed.

(** Every add/update request was answered "applied", "unmodified" or
    with an exception. *)
Lemma add_requests_answered (cs : list CmCall) :
  (count_calls (answered true) cs + count_calls (answered false) cs + count_calls threw cs
   + Z.of_nat (length (removals cs)) = Z.of_nat (length cs))%Z.
Proof.
  induction cs as [|c cs IH]; [done|].
  change (c :: cs) with ([c] ++ cs).
  unfold count_calls, removals in *. rewrite !filter_app, omap_app, !length_app.
  destruct c as [c v [[|]|what]|n b]; simpl;
    repeat (first [rewrite filter_cons_True by done
                  |rewrite filter_cons_False by done]); simpl; lia.
Qed.

(** X3. The closing log line is exact: [added_or_updated] is the number
    of resources the cluster manager answered "applied" to and [skipped]
    the number it answered "unmodified" to; removals count_calls for neither,
    nor do the resources that failed. With the resources the cluster
    manager threw on and those that repeat a name, every resource of the
    response is accounted for. The counters are 32 bits wide. *)
Theorem log_counters_account_for_the_response this
    (added : list DecodedResource) (removed : list string) (v : string) :
  (Z.of_nat (length added) < 2 ^ 32)%Z →
  let u := onConfigUpdate this added removed v in
  (logged u).1 = count_calls (answered true) (calls u)
  ∧ (logged u).2 = count_calls (answered false) (calls u)
  ∧ ((logged u).1 + (logged u).2 + count_calls threw (calls u)
     + Z.of_nat (length added - length (first_occurrences ∅ added))
     = Z.of_nat (length added))%Z.
Proof.
  intros Hsmall u.
  assert (counted (foldl remove_step
            (foldl add_step (initial_locals (cm_ this)) added) removed))
    as [Hadd Hskip].
  { apply remove_loop_counted, add_loop_counted. by split. }
  pose proof (add_requests_answered (calls u)) as Hsum.
  assert (length (calls u) =
          length (first_occurrences ∅ added) + length removed) as Hlen.
  { rewrite <- (length_fmap request_of). unfold u.
    by rewrite onConfigUpdate_requests, length_app, !length_fmap. }
  assert (removals (calls u) = removed) as Hrem
    by apply onConfigUpdate_removals.
  rewrite Hrem in Hsum.
  pose proof (first_occurrences_length ∅ added) as Hle.
  assert (0 ≤ count_calls (answered true) (calls u))%Z by (unfold count_calls; lia).
  assert (0 ≤ count_calls (answered false) (calls u))%Z by (unfold count_calls; lia).
  assert (0 ≤ count_calls threw (calls u))%Z by (unfold count_calls; lia).
  assert ((logged u).1 = count_calls (answered true) (calls u)
          ∧ (logged u).2 = count_calls (answered false) (calls u)) as [Hfst Hsnd].
  { change ((logged u).1) with (added_or_updated (foldl remove_step
            (foldl add_step (initial_locals (cm_ this)) added) removed)).
    change ((logged u).2) with (skipped (foldl remove_step
            (foldl add_step (initial_locals (cm_ this)) added) removed)).
    rewrite Hadd, Hskip.
    change (l_calls (foldl remove_step
            (foldl add_step (initial_locals (cm_ this)) added) removed))
      with (calls u).
    split; apply Z.mod_small; lia. }
  split; [done|]. split; [done|]. rewrite Hfst, Hsnd. lia.
Qed.

End Entrypoints.

(** *** The other entry points, run on the test cluster manager *)

(** With "a" and "b" in the cluster manager, a state-of-the-world
    response that names "b" only has "a" removed. *)
Lemma sotw_removes_witness :
  let this := api (onConfigUpdateSotw fresh_api [cluster_a; cluster_b] "v1") in
  let u := onConfigUpdateSotw this [cluster_b] "v2" in
  NoDup (clusters (cm_ this)).1
  ∧ NoDup (removals (calls u))
  ∧ "a" ∈ removals (calls u)
  ∧ "b" ∉ removals (calls u).
Proof.
  intros this u.
  assert (NoDup (clusters (cm_ this)).1) as Hactive by apply NoDup_fst_map_to_list.
  split; [exact Hactive|].
  destruct (sotw_removes_exactly_the_unnamed this [cluster_b] "v2" Hactive NoDup_nil_2)
    as [Hnodup Hiff].
  split; [exact Hnodup|]. split.
  - apply Hiff. split.
    + left. apply (bool_decide_unpack _). by vm_compute.
    + simpl. intros [Heq|Hin]%elem_of_cons; [discriminate Heq|by apply elem_of_nil in Hin].
  - intros [_ Hno]%Hiff. apply Hno. by left.
Defined.

(** The counters on the response [b; bad; a; a'] with the removal of an
    unknown name: two applied, none skipped, one exception, one repeat. *)
Lemma log_counters_witness :
  let added := [cluster_b; cluster_bad; cluster_a; cluster_a'] in
  let u := onConfigUpdate fresh_api added ["zz"] "v1" in
  (Z.of_nat (length added) < 2 ^ 32)%Z
  ∧ (logged u).1 = count_calls (answered true) (calls u)
  ∧ (logged u).2 = count_calls (answered false) (calls u)
  ∧ ((logged u).1 + (logged u).2 + count_calls threw (calls u)
     + Z.of_nat (length added - length (first_occurrences ∅ added))
     = Z.of_nat (length added))%Z.
Proof.
  intros added u.
  assert (Z.of_nat (length added) < 2 ^ 32)%Z as Hsmall by (by vm_compute).
  split; [exact Hsmall|].
  apply (log_counters_account_for_the_response fresh_api added ["zz"] "v1" Hsmall).
Defined.

Example log_counters_run :
  let u := onConfigUpdate fresh_api [cluster_b; cluster_bad; cluster_a; cluster_a'] ["zz"] "v1" in
  logged u = (2, 0)%Z ∧ count_calls threw (calls u) = 1%Z.
Proof. by vm_compute. Qed.

(** *** A state-of-the-world response on a cluster manager that does as
    it is asked *)

Lemma union_later (n : string) (A K : gset string) :
  A ∪ ({[n]} ∪ K) = ({[n]} ∪ A) ∪ K.
Proof. by rewrite (assoc_L (∪)), (comm_L (∪) A). Qed.

Lemma difference_later (n : string) (K B : gset string) :
  (K ∖ {[n]}) ∖ B = K ∖ ({[n]} ∪ B).
Proof. apply difference_difference_l_L. Qed.

Section Replacement.
Context {CM : Type} `{ClusterManager CM}.
Implicit Types (this : CdsApiImpl CM).

(** The names of the clusters a cluster manager has, active or
    warming. *)
Definition known (cm : CM) : gset string :=
  list_to_set (clusters cm).1 ∪ list_to_set (clusters cm).2.

(** A cluster manager has the cluster it did not throw on, and has not
    the cluster it was asked to remove; its other clusters stay. *)
Definition keeps_what_it_accepts : Prop :=
  ∀ (cm : CM) c v,
    is_thrown (addOrUpdateCluster cm c v).2 = false →
    known (addOrUpdateCluster cm c v).1 = {[cluster_name c]} ∪ known cm.

Definition removes_what_it_is_asked : Prop :=
  ∀ (cm : CM) n, known (removeCluster cm n).1 = known cm ∖ {[n]}.

Lemma to_remove_repeated_elem this (resources : list DecodedResource) (n : string) :
  n ∈ to_remove_repeated this resources ↔
  n ∈ known (cm_ this) ∧ n ∉ name <$> resources.
Proof.
  unfold to_remove_repeated, known.
  destruct (clusters (cm_ this)) as [active warming]; simpl.
  rewrite elem_of_app, !list_elem_of_filter, elem_of_union, !elem_of_list_to_set.
  split.
  - intros [[Hn Hin]|[_ [Hn Hin]]]; split; auto.
  - intros [[Hin|Hin] Hn]; [by left|].
    destruct (decide (n ∈ active)) as [Hact|Hact]; [by left|].
    right. split; [|done]. by intros [_ ?].
Qed.

Lemma add_loop_msgs (l : Locals CM) (rs : list DecodedResource) :
  exception_msgs (foldl add_step l rs) = [] → exception_msgs l = [].
Proof.
  revert l. induction rs as [|r rs IH]; intros l Hnone; simpl in *; [done|].
  apply IH in Hnone. revert Hnone. unfold add_step.
  destruct (decide (cluster_name (resource r) ∈ cluster_names l)).
  { simpl. by destruct (exception_msgs l). }
  destruct (addOrUpdateCluster (l_cm l) (resource r) (version r))
    as [cm' [[|]|what]]; simpl; try done. by destruct (exception_msgs l).
Qed.

Lemma add_loop_known (l : Locals CM) (rs : list DecodedResource) :
  keeps_what_it_accepts →
  exception_msgs (foldl add_step l rs) = [] →
  known (l_cm (foldl add_step l rs)) = list_to_set (name <$> rs) ∪ known (l_cm l).
Proof.
  intros Hadd. revert l. induction rs as [|r rs IH]; intros l Hnone; simpl in *.
  { by rewrite union_empty_l_L. }
  rewrite (IH _ Hnone). apply add_loop_msgs in Hnone. revert Hnone.
  unfold add_step, name.
  destruct (decide (cluster_name (resource r) ∈ cluster_names l)).
  { simpl. by destruct (exception_msgs l). }
  pose proof (Hadd (l_cm l) (resource r) (version r)) as Hknown.
  destruct (addOrUpdateCluster (l_cm l) (resource r) (version r))
    as [cm' [[|]|what]]; simpl in *; intros Hnone;
    try (rewrite Hknown by done; apply union_later).
  by destruct (exception_msgs l).
Qed.

Lemma remove_loop_known (l : Locals CM) (ns : list string) :
  removes_what_it_is_asked →
  known (l_cm (foldl remove_step l ns)) = known (l_cm l) ∖ list_to_set ns.
Proof.
  intros Hremove. revert l. induction ns as [|n ns IH]; intros l; simpl.
  { by rewrite difference_empty_L. }
  rewrite IH. unfold remove_step.
  pose proof (Hremove (l_cm l) n) as Hknown.
  destruct (removeCluster (l_cm l) n) as [cm' b]; simpl in *.
  rewrite Hknown. apply difference_later.
Qed.

(** X4. On a cluster manager that has what it accepts and has not
    what it was asked to remove, a state-of-the-world response that is
    accepted replaces the clusters: afterwards the cluster manager has
    exactly the clusters the response names. *)
Theorem accepted_sotw_response_replaces_the_clusters this
    (resources : list DecodedResource) (version_info : string) :
  keeps_what_it_accepts → removes_what_it_is_asked →
  let u := onConfigUpdateSotw this resources version_info in
  outcome u = Returned () →
  known (cm_ (api u)) = list_to_set (name <$> resources).
Proof.
  intros Hadd Hremove u. unfold u, onConfigUpdateSotw, onConfigUpdate.
  cbn [outcome api].
  set (l1 := foldl add_step (initial_locals (cm_ this)) resources).
  set (ns := to_remove_repeated this resources).
  destruct (remove_loop_errors l1 ns) as [Hmsgs _].
  rewrite Hmsgs. intros Hnone.
  assert (exception_msgs l1 = []) as Hl1 by (by destruct (exception_msgs l1)).
  assert (cm_ (runInitializeCallbackIfAny
            {| cm_ := l_cm (foldl remove_step l1 ns);
               system_version_info_ :=
                 if any_applied (foldl remove_step l1 ns) then version_info
                 else system_version_info_ this;
               initialize_callback_ := initialize_callback_ this;
               initialize_runs := initialize_runs this |})
          = l_cm (foldl remove_step l1 ns)) as ->.
  { unfold runInitializeCallbackIfAny. simpl. by destruct (initialize_callback_ this). }
  rewrite (remove_loop_known _ _ Hremove).
  unfold l1. rewrite (add_loop_known _ _ Hadd Hl1). simpl.
  apply set_eq. intros n.
  rewrite elem_of_difference, elem_of_union, !elem_of_list_to_set.
  unfold ns. rewrite to_remove_repeated_elem. 
  destruct (decide (n ∈ name <$> resources)); tauto.
Qed.

End Replacement.

Lemma test_cluster_manager_known (cm : TestClusterManager) :
  known cm = dom (cm : gmap string Cluster).
Proof.
  unfold known. simpl. apply set_eq. intros n.
  rewrite elem_of_union, elem_of_list_to_set, elem_of_dom.
  rewrite list_elem_of_fmap. split.
  - intros [([k c] & -> & Hin%elem_of_map_to_list)|Hin%elem_of_empty]; [|done].
    by exists c.
  - intros [c Hc]. left. exists (n, c). split; [done|]. by apply elem_of_map_to_list.
Qed.

Lemma test_cluster_manager_keeps : keeps_what_it_accepts (CM := TestClusterManager).
Proof.
  intros cm c v. rewrite !test_cluster_manager_known. simpl.
  destruct (decide (cluster_config c = "")); [done|].
  destruct (decide (cm !! cluster_name c = Some c)) as [Hc|]; simpl; intros _.
  - apply elem_of_dom_2 in Hc. symmetry. apply subseteq_union_1_L.
    by apply singleton_subseteq_l.
  - exact (dom_insert_L (cm : gmap string Cluster) (cluster_name c) c).
Defined.

Lemma test_cluster_manager_removes : removes_what_it_is_asked (CM := TestClusterManager).
Proof.
  intros cm n. rewrite !test_cluster_manager_known. simpl.
  destruct (cm !! n) eqn:Hn; simpl.
  - exact (dom_delete_L (cm : gmap string Cluster) n).
  - apply not_elem_of_dom in Hn. symmetry. apply difference_disjoint_L.
    by apply disjoint_singleton_r.
Defined.

(** With "a" and "b" in the cluster manager, the response [b] leaves
    "b" alone. *)
Lemma accepted_sotw_response_witness :
  let this := api (onConfigUpdateSotw fresh_api [cluster_a; cluster_b] "v1") in
  let u := onConfigUpdateSotw this [cluster_b] "v2" in
  outcome u = Returned ()
  ∧ known (cm_ (api u)) = list_to_set (name <$> [cluster_b]).
Proof.
  intros this u.
  assert (outcome u = Returned ()) as Hreturned by (by vm_compute).
  split; [exact Hreturned|].
  apply (accepted_sotw_response_replaces_the_clusters this [cluster_b] "v2"
           test_cluster_manager_keeps test_cluster_manager_removes Hreturned).
Defined.

End Cds.


(** ** FilterConfigSubscription *)

Module Ecds.

(** [google.protobuf.Any] *)
Record Any := { type_url : string; value : string }.

(** [envoy::config::core::v3::TypedExtensionConfig] *)
Record TypedExtensionConfig := { name : string; typed_config : Any }.

Record DecodedResource := { resource : TypedExtensionConfig; version : string }.

(** A [DynamicFilterConfigProviderImpl] registered in
    [filter_config_providers_]. *)
Record Provider := { provider_id : nat; require_type_urls_ : list string }.

(** [DynamicFilterConfigProviderImpl::validateTypeUrl] *)
Definition validateTypeUrl (p : Provider) (type_url : string) : Outcome unit :=
  if decide (type_url ∈ require_type_urls_ p) then Returned ()
  else Thrown ("Error: filter config has type URL " +:+ type_url +:+ " but expect "
               +:+ StrJoin (require_type_urls_ p) ", " +:+ ".").

(** [for (auto* provider : filter_config_providers_) provider->validateTypeUrl(type_url)] *)
Fixpoint validate_all (ps : list Provider) (type_url : string) : Outcome unit :=
  match ps with
  | [] => Returned ()
  | p :: ps => _ ← validateTypeUrl p type_url; validate_all ps type_url
  end.

(** What the subscription uses of the protobuf utilities and of the
    filter factory registry. [Factory] is a
    [NamedHttpFilterConfigFactory], [Message] a translated factory
    configuration, [Cb] an [Http::FilterFactoryCb]. *)
Class FactoryContext (Factory Message Cb : Type) := {
  (** [MessageUtil::hash], a [uint64_t] *)
  hash : Any → Z;
  (** [Config::Utility::getAndCheckFactory] *)
  getAndCheckFactory : TypedExtensionConfig → Outcome Factory;
  (** [Config::Utility::getFactoryType] *)
  getFactoryType : Any → string;
  (** [Config::Utility::translateAnyToFactoryConfig] *)
  translateAnyToFactoryConfig : Any → Factory → Outcome Message;
  (** [factory.createFilterFactoryFromProto] *)
  createFilterFactoryFromProto : Factory → Message → string → Outcome Cb
}.

Record FilterConfigSubscription (Cb : Type) := {
  filter_config_name_ : string;
  stat_prefix_ : string;
  (** whether [init_target_.ready()] has been called *)
  init_target_ready : bool;
  filter_config_providers_ : list Provider;
  last_config_hash_ : Z;
  last_config_ : option Cb;
  last_type_url_ : string;
  last_version_info_ : string
}.
Arguments filter_config_name_ {Cb} _.
Arguments stat_prefix_ {Cb} _.
Arguments init_target_ready {Cb} _.
Arguments filter_config_providers_ {Cb} _.
Arguments last_config_hash_ {Cb} _.
Arguments last_config_ {Cb} _.
Arguments last_type_url_ {Cb} _.
Arguments last_version_info_ {Cb} _.

(** A call [provider->onConfigUpdate(factory_callback, version_info, cb)]. *)
Record ProviderUpdate (Cb : Type) := {
  to_provider : nat;
  config : Cb;
  version_info : string
}.
Arguments to_provider {Cb} _.
Arguments config {Cb} _.
Arguments version_info {Cb} _.

(** What one call of [onConfigUpdate] leaves behind. *)
Record Update (Cb : Type) := {
  sub : FilterConfigSubscription Cb;
  outcome : Outcome unit;
  provider_updates : list (ProviderUpdate Cb)
}.
Arguments sub {Cb} _.
Arguments outcome {Cb} _.
Arguments provider_updates {Cb} _.

(** *** A factory context to run the code on: the factory is known by the
    type URL of the configuration, an empty type URL has no factory, an
    empty value does not translate, and the hash is a checksum of the two
    strings. *)
Fixpoint checksum_from (h : Z) (s : string) : Z :=
  match s with
  | EmptyString => h
  | String c s => checksum_from ((h * 31 + Z.of_N (Ascii.N_of_ascii c)) mod 2 ^ 64)%Z s
  end.
Definition checksum (s : string) : Z := checksum_from 0 s.

#[global] Instance test_factory_context : FactoryContext string string string := {|
  hash a := ((checksum (type_url a) * 1000003 + checksum (value a)) mod 2 ^ 64)%Z;
  getAndCheckFactory c :=
    if decide (type_url (typed_config c) = "") then
      Thrown ("Didn't find a registered implementation for name: '" +:+ name c +:+ "'")
    else Returned (type_url (typed_config c));
  getFactoryType a := type_url a;
  translateAnyToFactoryConfig a factory :=
    if decide (value a = "") then Thrown "Unable to unpack" else Returned (value a);
  createFilterFactoryFromProto factory message stat_prefix :=
    Returned (factory +:+ "(" +:+ message +:+ ")")
|}.

Definition router_provider : Provider :=
  {| provider_id := 1; require_type_urls_ := ["envoy.extensions.filters.http.router.v3.Router"] |}.

Definition fresh_subscription : FilterConfigSubscription string :=
  {| filter_config_name_ := "foo"; stat_prefix_ := "xds.";
     init_target_ready := false;
     filter_config_providers_ := [router_provider];
     last_config_hash_ := 0; last_config_ := None;
     last_type_url_ := ""; last_version_info_ := "" |}.

Definition router_config (v : string) : DecodedResource :=
  {| resource :=
       {| name := "foo";
          typed_config :=
            {| type_url := "envoy.extensions.filters.http.router.v3.Router";
               value := "dynamic_stats: true" |} |};
     version := v |}.

(** *** The code *)

Section WithFactoryContext.
Context {Factory Message Cb : Type} `{FactoryContext Factory Message Cb}.
Implicit Types (this : FilterConfigSubscription Cb).

Definition ready this : FilterConfigSubscription Cb :=
  {| filter_config_name_ := filter_config_name_ this;
     stat_prefix_ := stat_prefix_ this;
     init_target_ready := true;
     filter_config_providers_ := filter_config_providers_ this;
     last_config_hash_ := last_config_hash_ this;
     last_config_ := last_config_ this;
     last_type_url_ := last_type_url_ this;
     last_version_info_ := last_version_info_ this |}.

(** What the body of [onConfigUpdate] decides before it stores anything:
    an exception, nothing to do (the hash matches), or the configuration
    to install. *)
Record Accepted := {
  new_hash : Z;
  factory_callback : Cb;
  accepted_type_url : string
}.

Definition check_and_build this (resources : list DecodedResource)
  : Outcome (option Accepted) :=
  match resources with
  | [r] =>
      let filter_config := resource r in
      if decide (name filter_config ≠ filter_config_name_ this) then
        Thrown ("Unexpected resource name in ExtensionConfigDS response: "
                +:+ name filter_config)
      else
        (* Skip update if hash matches *)
        let new_hash := hash (typed_config filter_config) in
        if decide (new_hash = last_config_hash_ this) then Returned None
        else
          factory ← getAndCheckFactory filter_config;
          let type_url := getFactoryType (typed_config filter_config) in
          _ ← validate_all (filter_config_providers_ this) type_url;
          message ← translateAnyToFactoryConfig (typed_config filter_config) factory;
          factory_callback ←
            createFilterFactoryFromProto factory message (stat_prefix_ this);
          Returned (Some {| new_hash := new_hash;
                            factory_callback := factory_callback;
                            accepted_type_url := type_url |})
  | _ =>
      Thrown ("Unexpected number of resources in ExtensionConfigDS response: "
              +:+ pretty (length resources))
  end.

(** [FilterConfigSubscription::onConfigUpdate(resources, version_info)].
    The completion callbacks handed to the providers only count towards
    the [config_reload] statistic and are left out. *)
Definition onConfigUpdate this (resources : list DecodedResource)
    (version_info : string) : Update Cb :=
  (* Make sure to make progress in case the control plane is temporarily
     inconsistent. *)
  let this := ready this in
  match check_and_build this resources with
  | Thrown what => {| sub := this; outcome := Thrown what; provider_updates := [] |}
  | Returned None => {| sub := this; outcome := Returned (); provider_updates := [] |}
  | Returned (Some a) =>
      {| sub :=
           {| filter_config_name_ := filter_config_name_ this;
              stat_prefix_ := stat_prefix_ this;
              init_target_ready := init_target_ready this;
              filter_config_providers_ := filter_config_providers_ this;
              last_config_hash_ := new_hash a;
              last_config_ := Some (factory_callback a);
              last_type_url_ := accepted_type_url a;
              last_version_info_ := version_info |};
         outcome := Returned ();
         provider_updates :=
           (λ p, {| to_provider := provider_id p; config := factory_callback a;
                    version_info := version_info |})
             <$> filter_config_providers_ this |}
  end.

(** [FilterConfigSubscription::onConfigUpdate(added_resources,
    removed_resources, _)], the delta overload: removals are logged and
    ignored. *)
Definition onConfigUpdateDelta this (added_resources : list DecodedResource)
    (removed_resources : list string) : Update Cb :=
  match added_resources with
  | [] => {| sub := this; outcome := Returned (); provider_updates := [] |}
  | first :: _ => onConfigUpdate this added_resources (version first)
  end.

(** *** Properties *)

Lemma check_and_build_ready this rs :
  check_and_build (ready this) rs = check_and_build this rs.
Proof. done. Qed.

Lemma ready_ready this : ready (ready this) = ready this.
Proof. done. Qed.

Lemma check_and_build_hash this rs a :
  check_and_build this rs = Returned (Some a) →
  ∃ r, rs = [r] ∧ name (resource r) = filter_config_name_ this
       ∧ new_hash a = hash (typed_config (resource r)).
Proof.
  unfold check_and_build. destruct rs as [|r [|? ?]]; try done.
  destruct (decide _) as [|Hname]; [done|].
  destruct (decide _); [done|].
  destruct (getAndCheckFactory _) as [f|]; simpl; [|done].
  destruct (validate_all _ _); simpl; [|done].
  destruct (translateAnyToFactoryConfig _ _) as [m|]; simpl; [|done].
  destruct (createFilterFactoryFromProto _ _ _) as [cb|]; simpl; [|done].
  intros [= <-]. exists r. split; [done|]. split; [|done].
  by destruct (decide (name (resource r) = filter_config_name_ this)).
Qed.

(** An update with the hash of the last applied configuration decides
    "nothing to do" or throws on the name; it never builds a
    configuration. *)
Lemma check_and_build_same_hash this r :
  hash (typed_config (resource r)) = last_config_hash_ this →
  check_and_build this [r] =
    if decide (name (resource r) ≠ filter_config_name_ this) then
      Thrown ("Unexpected resource name in ExtensionConfigDS response: "
              +:+ name (resource r))
    else Returned None.
Proof.
  intros Hhash. unfold check_and_build.
  destruct (decide _); [done|]. by destruct (decide _).
Qed.

(** Applying the same resources a second time, under any version,
    changes nothing and calls no provider. *)
Lemma onConfigUpdate_twice this rs v v' :
  let u1 := onConfigUpdate this rs v in
  let u2 := onConfigUpdate (sub u1) rs v' in
  sub u2 = sub u1 ∧ provider_updates u2 = [] ∧ outcome u2 = outcome u1.
Proof.
  intros u1 u2. subst u2. unfold onConfigUpdate.
  rewrite check_and_build_ready.
  assert (check_and_build (sub u1) rs =
          match check_and_build this rs with
          | Returned (Some _) => Returned None
          | other => other
          end ∧ ready (sub u1) = sub u1 ∧
          (is_thrown (check_and_build this rs) = false → outcome u1 = Returned ()) ∧
          (∀ what, check_and_build this rs = Thrown what → outcome u1 = Thrown what))
    as (-> & -> & Hret & Hthrown).
  { unfold u1, onConfigUpdate. rewrite check_and_build_ready.
    destruct (check_and_build this rs) as [[a|]|what] eqn:Hfirst; cbn [sub outcome].
    - split; [|by repeat split].
      apply check_and_build_hash in Hfirst as (r & -> & Hname & Hhash).
      rewrite check_and_build_same_hash by done.
      destruct (decide _) as [Hne|]; [|done]. by destruct Hne.
    - rewrite ready_ready. by repeat split.
    - rewrite ready_ready. repeat split; try done. by intros ? [= ->]. }
  destruct (check_and_build this rs) as [[a|]|what]; cbn [sub provider_updates outcome].
  - by rewrite Hret.
  - by rewrite Hret.
  - by rewrite (Hthrown what).
Qed.

(** C10. An update whose typed configuration has the hash of the last
    applied configuration calls no provider and leaves the stored hash,
    configuration, type URL and version as they were (it returns when the
    resource carries the subscription's name). Hence applying a
    configuration a second time, under the same or another version, is
    applying it once: the subscription after the second update is the one
    after the first, and no provider is called again. *)
Theorem same_hash_update_is_skipped this (r : DecodedResource) (v v' : string) :
  let u1 := onConfigUpdate this [r] v in
  let u2 := onConfigUpdate (sub u1) [r] v' in
  (hash (typed_config (resource r)) = last_config_hash_ this →
     provider_updates u1 = []
     ∧ last_config_hash_ (sub u1) = last_config_hash_ this
     ∧ last_config_ (sub u1) = last_config_ this
     ∧ last_type_url_ (sub u1) = last_type_url_ this
     ∧ last_version_info_ (sub u1) = last_version_info_ this
     ∧ (name (resource r) = filter_config_name_ this → outcome u1 = Returned ()))
  ∧ sub u2 = sub u1 ∧ provider_updates u2 = [] ∧ outcome u2 = outcome u1.
Proof.
  intros u1 u2. split; [|apply onConfigUpdate_twice].
  intros Hhash. unfold u1, onConfigUpdate. rewrite check_and_build_ready.
  rewrite check_and_build_same_hash by done.
  destruct (decide _) as [Hne|]; simpl; done.
Qed.

End WithFactoryContext.

(** *** The code run on the test factory context *)

Example first_update_is_applied :
  let u := onConfigUpdate fresh_subscription [router_config "1"] "1" in
  outcome u = Returned ()
  ∧ provider_updates u =
      [{| to_provider := 1;
          config := "envoy.extensions.filters.http.router.v3.Router(dynamic_stats: true)";
          version_info := "1" |}]
  ∧ last_version_info_ (sub u) = "1".
Proof. repeat split; by vm_compute. Qed.

(** The same configuration again, under version "2": the providers are
    not called and the stored version stays "1". *)
Lemma same_hash_update_is_skipped_witness :
  let u1 := onConfigUpdate fresh_subscription [router_config "1"] "1" in
  let u2 := onConfigUpdate (sub u1) [router_config "2"] "2" in
  hash (typed_config (resource (router_config "2"))) = last_config_hash_ (sub u1)
  ∧ provider_updates u2 = []
  ∧ last_version_info_ (sub u2) = "1"
  ∧ outcome u2 = Returned ().
Proof.
  intros u1 u2.
  assert (hash (typed_config (resource (router_config "2")))
          = last_config_hash_ (sub u1)) as Hhash by (by vm_compute).
  split; [exact Hhash|].
  destruct (same_hash_update_is_skipped (sub u1) (router_config "2") "2" "2")
    as [Hskip _].
  destruct (Hskip Hhash) as (Hcalls & _ & _ & _ & Hver & Hout).
  split; [exact Hcalls|]. split; [|by apply Hout].
  etrans; [exact Hver|]. by vm_compute.
Defined.

(** *** The type URLs the providers accept *)

Lemma validate_all_returned (ps : list Provider) (type_url : string) :
  validate_all ps type_url = Returned () ↔
  Forall (λ p, type_url ∈ require_type_urls_ p) ps.
Proof.
  induction ps as [|p ps IH]; simpl; [done|].
  rewrite Forall_cons, <- IH. unfold validateTypeUrl.
  destruct (decide (type_url ∈ require_type_urls_ p)); simpl; [tauto|].
  split; [done|tauto].
Qed.

Lemma validate_all_thrown (ps : list Provider) (type_url : string) (p : Provider) :
  p ∈ ps → type_url ∉ require_type_urls_ p →
  is_thrown (validate_all ps type_url) = true.
Proof.
  intros Hp Hno.
  destruct (validate_all ps type_url) as [[]|what] eqn:Hall; [|done].
  apply validate_all_returned in Hall.
  rewrite Forall_forall in Hall. by destruct (Hno (Hall p Hp)).
Qed.

Section Providers.
Context {Factory Message Cb : Type} `{FactoryContext Factory Message Cb}.
Implicit Types (this : FilterConfigSubscription Cb).

Lemma check_and_build_accepted this rs a :
  check_and_build this rs = Returned (Some a) →
  ∃ r, rs = [r]
       ∧ accepted_type_url a = getFactoryType (typed_config (resource r))
       ∧ Forall (λ p, accepted_type_url a ∈ require_type_urls_ p)
           (filter_config_providers_ this).
Proof.
  unfold check_and_build. destruct rs as [|r [|? ?]]; try done.
  destruct (decide _) as [|Hname]; [done|].
  destruct (decide _); [done|].
  destruct (getAndCheckFactory _) as [f|]; simpl; [|done].
  destruct (validate_all _ _) as [[]|] eqn:Hall; simpl; [|done].
  destruct (translateAnyToFactoryConfig _ _) as [m|]; simpl; [|done].
  destruct (createFilterFactoryFromProto _ _ _) as [cb|]; simpl; [|done].
  intros [= <-]. exists r. simpl. split; [done|]. split; [done|].
  by apply validate_all_returned.
Qed.

(** When [onConfigUpdate] calls a provider, what it hands over is what
    it stores. *)
Lemma onConfigUpdate_stored this
    (rs : list DecodedResource) (v : string) (c : ProviderUpdate Cb) :
  let u := onConfigUpdate this rs v in
  c ∈ provider_updates u →
  ∃ r, rs = [r]
    ∧ last_config_ (sub u) = Some (config c)
    ∧ last_type_url_ (sub u) = getFactoryType (typed_config (resource r))
    ∧ last_version_info_ (sub u) = v.
Proof.
  intros u. unfold u, onConfigUpdate. rewrite check_and_build_ready.
  destruct (check_and_build this rs) as [[a|]|what] eqn:Hbuild;
    cbn [provider_updates sub outcome]; try (by intros ?%elem_of_nil).
  intros (p & -> & Hp)%list_elem_of_fmap. simpl.
  apply check_and_build_accepted in Hbuild as (r & -> & Htype & Hall).
  exists r. by rewrite <- Htype.
Qed.

(** X5. No provider is ever handed a configuration whose type URL it
    does not accept, and an update reaches all providers or none:
    whenever [onConfigUpdate] calls a provider, the response holds one
    resource, the type URL of its configuration is among the type URLs
    every registered provider requires, every registered provider is
    called once, in order, with one and the same configuration and the
    version of the response, and that configuration, type URL and version
    are the ones stored. *)
Theorem providers_receive_only_accepted_type_urls this
    (rs : list DecodedResource) (v : string) (c : ProviderUpdate Cb) :
  let u := onConfigUpdate this rs v in
  c ∈ provider_updates u →
  ∃ r, rs = [r]
    ∧ outcome u = Returned ()
    ∧ Forall (λ p, getFactoryType (typed_config (resource r)) ∈ require_type_urls_ p)
        (filter_config_providers_ this)
    ∧ provider_updates u =
        (λ p, {| to_provider := provider_id p; config := config c;
                 version_info := v |}) <$> filter_config_providers_ this
    ∧ last_config_ (sub u) = Some (config c)
    ∧ last_type_url_ (sub u) = getFactoryType (typed_config (resource r))
    ∧ last_version_info_ (sub u) = v.
Proof.
  intros u. unfold u, onConfigUpdate. rewrite check_and_build_ready.
  destruct (check_and_build this rs) as [[a|]|what] eqn:Hbuild;
    cbn [provider_updates sub outcome]; try (by intros ?%elem_of_nil).
  intros (p & -> & Hp)%list_elem_of_fmap. simpl.
  apply check_and_build_accepted in Hbuild as (r & -> & Htype & Hall).
  exists r. rewrite <- Htype. by repeat split.
Qed.

(** X6. One provider that does not accept the type URL of a new
    configuration blocks the update for all: [onConfigUpdate] throws, no
    provider is called, not even those that accept the type URL, and
    nothing is stored; only the init target has been marked ready. (A
    configuration with the hash of the last one is skipped before any
    provider is asked.) *)
Theorem one_rejecting_provider_blocks_the_update this
    (r : DecodedResource) (v : string) (p : Provider) :
  hash (typed_config (resource r)) ≠ last_config_hash_ this →
  p ∈ filter_config_providers_ this →
  getFactoryType (typed_config (resource r)) ∉ require_type_urls_ p →
  let u := onConfigUpdate this [r] v in
  is_thrown (outcome u) = true ∧ provider_updates u = [] ∧ sub u = ready this.
Proof.
  intros Hhash Hp Hno u.
  assert (is_thrown (check_and_build this [r]) = true) as Hthrown.
  { unfold check_and_build.
    destruct (decide _) as [|Hname]; [done|].
    destruct (decide (hash _ = _)); [done|].
    destruct (getAndCheckFactory _) as [f|]; simpl; [|done].
    pose proof (validate_all_thrown _ _ _ Hp Hno) as Hall.
    by destruct (validate_all _ _). }
  unfold u, onConfigUpdate. rewrite check_and_build_ready.
  by destruct (check_and_build this [r]) as [[a|]|what].
Qed.

End Providers.

(** *** The providers, run on the test factory context *)

Definition health_check_provider : Provider :=
  {| provider_id := 2;
     require_type_urls_ := ["envoy.extensions.filters.http.health_check.v3.HealthCheck"] |}.

(** The subscription "foo" with a second provider, one that takes health
    check filters only. *)
Definition contested_subscription : FilterConfigSubscription string :=
  {| filter_config_name_ := "foo"; stat_prefix_ := "xds.";
     init_target_ready := false;
     filter_config_providers_ := [router_provider; health_check_provider];
     last_config_hash_ := 0; last_config_ := None;
     last_type_url_ := ""; last_version_info_ := "" |}.

Lemma providers_receive_only_accepted_type_urls_witness :
  let u := onConfigUpdate fresh_subscription [router_config "1"] "1" in
  let c := {| to_provider := 1;
              config := "envoy.extensions.filters.http.router.v3.Router(dynamic_stats: true)";
              version_info := "1" |} in
  c ∈ provider_updates u
  ∧ Forall (λ p, "envoy.extensions.filters.http.router.v3.Router" ∈ require_type_urls_ p)
      (filter_config_providers_ fresh_subscription)
  ∧ last_config_ (sub u) = Some (config c).
Proof.
  intros u c.
  assert (c ∈ provider_updates u) as Hc by (vm_compute; by left).
  split; [exact Hc|].
  destruct (providers_receive_only_accepted_type_urls
              fresh_subscription [router_config "1"] "1" c Hc)
    as (r & Hr & _ & Hall & _ & Hlast & _).
  injection Hr as <-. by split.
Defined.

(** The router configuration on the contested subscription: the health
    check provider does not take it, and the router provider is not
    called either. *)
Lemma one_rejecting_provider_witness :
  let u := onConfigUpdate contested_subscription [router_config "1"] "1" in
  health_check_provider ∈ filter_config_providers_ contested_subscription
  ∧ is_thrown (outcome u) = true
  ∧ provider_updates u = []
  ∧ sub u = ready contested_subscription.
Proof.
  intros u.
  assert (health_check_provider ∈ filter_config_providers_ contested_subscription)
    as Hp by (right; by left).
  split; [exact Hp|].
  apply (one_rejecting_provider_blocks_the_update contested_subscription
           (router_config "1") "1" health_check_provider); [by vm_compute|exact Hp|].
  simpl. intros [Heq|Hin]%elem_of_cons; [discriminate Heq|by apply elem_of_nil in Hin].
Defined.

Example contested_update_run :
  outcome (onConfigUpdate contested_subscription [router_config "1"] "1")
  = Thrown ("Error: filter config has type URL "
            +:+ "envoy.extensions.filters.http.router.v3.Router but expect "
            +:+ "envoy.extensions.filters.http.health_check.v3.HealthCheck.").
Proof. by vm_compute. Qed.

(** *** The delta overload *)

Section Delta.
Context {Factory Message Cb : Type} `{FactoryContext Factory Message Cb}.
Implicit Types (this : FilterConfigSubscription Cb).

(** The providers [onConfigUpdate] calls are registered ones. *)
Lemma onConfigUpdate_calls_registered this rs v (c : ProviderUpdate Cb) :
  c ∈ provider_updates (onConfigUpdate this rs v) →
  ∃ p, p ∈ filter_config_providers_ this ∧ to_provider c = provider_id p.
Proof.
  unfold onConfigUpdate. rewrite check_and_build_ready.
  destruct (check_and_build this rs) as [[a|]|what];
    cbn [provider_updates]; try (by intros ?%elem_of_nil).
  intros (p & -> & Hp)%list_elem_of_fmap. by exists p.
Qed.

(** X17. A delta update takes its version from the resource, and
    removals take nothing away: whenever the delta overload calls a
    provider, one resource was added, the providers are called with the
    version of that resource, which is the version stored, and this is so
    whatever the update lists as removed, the name of the subscription's
    own resource included. *)
Theorem delta_update_takes_the_version_of_its_resource this
    (added : list DecodedResource) (removed : list string) (c : ProviderUpdate Cb) :
  let u := onConfigUpdateDelta this added removed in
  c ∈ provider_updates u →
  ∃ r, added = [r]
       ∧ version_info c = version r
       ∧ last_version_info_ (sub u) = version r
       ∧ last_config_ (sub u) = Some (config c)
       ∧ u = onConfigUpdate this [r] (version r).
Proof.
  intros u. unfold u, onConfigUpdateDelta.
  destruct added as [|first rest]; [by intros ?%elem_of_nil|].
  intros Hc.
  destruct (onConfigUpdate_stored _ _ _ _ Hc) as (r & [= -> ->] & Hconfig & _ & Hversion).
  exists r. repeat split; try done.
  revert Hc. unfold onConfigUpdate. rewrite check_and_build_ready.
  destruct (check_and_build this [r]) as [[a|]|what];
    cbn [provider_updates]; try (by intros ?%elem_of_nil).
  by intros (p & -> & Hp)%list_elem_of_fmap.
Qed.

End Delta.

Lemma delta_update_witness :
  let u := onConfigUpdateDelta fresh_subscription [router_config "7"] ["foo"] in
  let c := {| to_provider := 1;
              config := "envoy.extensions.filters.http.router.v3.Router(dynamic_stats: true)";
              version_info := "7" |} in
  c ∈ provider_updates u ∧ last_version_info_ (sub u) = "7".
Proof.
  intros u c.
  assert (c ∈ provider_updates u) as Hc by (vm_compute; by left).
  split; [exact Hc|].
  destruct (delta_update_takes_the_version_of_its_resource
              fresh_subscription [router_config "7"] ["foo"] c Hc)
    as (r & Hr & _ & Hversion & _).
  injection Hr as <-. exact Hversion.
Defined.

End Ecds.

(** ** FilterConfigProviderManagerImpl *)

Module ProviderManager.
Import Ecds.

(** [envoy::config::core::v3::ExtensionConfigSource]; [ConfigSource] is
    [envoy::config::core::v3::ConfigSource], kept opaque, and an absent
    [default_config] is [None]. *)
Record ExtensionConfigSource (ConfigSource : Type) := {
  config_source : ConfigSource;
  default_config : option Any;
  apply_default_config_without_warming : bool;
  type_urls : list string
}.
Arguments config_source {ConfigSource} _.
Arguments default_config {ConfigSource} _.
Arguments apply_default_config_without_warming {ConfigSource} _.
Arguments type_urls {ConfigSource} _.

(** What the provider manager uses besides the subscription's
    [FactoryContext]. *)
Class ManagerContext (ConfigSource Factory Message : Type) := {
  (** [MessageUtil::hash] of a config source, a [uint64_t] *)
  hash_config_source : ConfigSource → N;
  (** [TypeUtil::typeUrlToDescriptorFullName] *)
  typeUrlToDescriptorFullName : string → string;
  (** [Config::Utility::getFactoryByType], [nullptr] being [None] *)
  getFactoryByType : Any → option Factory;
  (** [Config::Utility::translateAnyToFactoryConfig] under
      [factory_context.messageValidationVisitor()] *)
  translateDefaultConfig : Any → Factory → Outcome Message
}.

(** A [FilterConfigSubscription] as the provider manager holds it: the
    members [onConfigUpdate] works on ([base]) and the others. The two
    counters say how often [stats_.config_fail_] and
    [stats_.config_conflict_] were incremented; [started_with] lists the
    calls [subscription_->start(names)]. *)
Record Subscription (Cb : Type) := {
  base : FilterConfigSubscription Cb;
  subscription_id_ : string;
  started_ : bool;
  started_with : list (list string);
  config_fail_ : nat;
  config_conflict_ : nat
}.
Arguments base {Cb} _.
Arguments subscription_id_ {Cb} _.
Arguments started_ {Cb} _.
Arguments started_with {Cb} _.
Arguments config_fail_ {Cb} _.
Arguments config_conflict_ {Cb} _.

(** [subscriptions_] maps an id to a weak pointer. A subscription
    enters the map when it is made and its destructor erases it, so the
    entries are the live subscriptions and the map holds them as they
    are. [next_provider] is the identity (the address) the next provider
    gets. *)
Record FilterConfigProviderManagerImpl (Cb : Type) := {
  subscriptions_ : gmap string (Subscription Cb);
  next_provider : nat
}.
Arguments subscriptions_ {Cb} _.
Arguments next_provider {Cb} _.

(** A [DynamicFilterConfigProviderImpl] with the subscription it
    shares. *)
Record DynamicFilterConfigProviderImpl := {
  provider : Provider;
  subscription_ : string
}.

(** The targets handed to [factory_context.initManager()]: the
    [init_target_] of a subscription or of a provider. *)
Inductive InitTarget :=
| SubscriptionInitTarget (subscription_id : string)
| ProviderInitTarget (p : DynamicFilterConfigProviderImpl).

(** What one call of [createDynamicFilterConfigProvider] leaves
    behind: the provider or the exception, the init targets added, and
    the calls [provider->onConfigUpdate(config, version_info, nullptr)]
    on the new provider. *)
Record Created (Cb : Type) := {
  manager : FilterConfigProviderManagerImpl Cb;
  created : Outcome DynamicFilterConfigProviderImpl;
  init_targets : list InitTarget;
  applied : list (ProviderUpdate Cb)
}.
Arguments manager {Cb} _.
Arguments created {Cb} _.
Arguments init_targets {Cb} _.
Arguments applied {Cb} _.

(** What the underlying xDS subscription delivers to a
    [FilterConfigSubscription]. *)
Inductive SubscriptionEvent :=
| SotwUpdate (resources : list DecodedResource) (version_info : string)
| DeltaUpdate (added_resources : list DecodedResource) (removed_resources : list string)
| UpdateFailed (reason : ConfigUpdateFailureReason).

Definition set_base {Cb} (s : Subscription Cb) (b : FilterConfigSubscription Cb)
  : Subscription Cb :=
  {| base := b; subscription_id_ := subscription_id_ s; started_ := started_ s;
     started_with := started_with s; config_fail_ := config_fail_ s;
     config_conflict_ := config_conflict_ s |}.

Definition set_providers {Cb} (b : FilterConfigSubscription Cb) (ps : list Provider)
  : FilterConfigSubscription Cb :=
  {| filter_config_name_ := filter_config_name_ b;
     stat_prefix_ := stat_prefix_ b;
     init_target_ready := init_target_ready b;
     filter_config_providers_ := ps;
     last_config_hash_ := last_config_hash_ b;
     last_config_ := last_config_ b;
     last_type_url_ := last_type_url_ b;
     last_version_info_ := last_version_info_ b |}.

Definition empty {Cb} : FilterConfigProviderManagerImpl Cb :=
  {| subscriptions_ := ∅; next_provider := 0 |}.

(** Whether a string is free of the character ".". *)
Fixpoint dotless (s : string) : bool :=
  match s with
  | EmptyString => true
  | String c s => if decide (c = "."%char) then false else dotless s
  end.

Section WithContext.
Context {ConfigSource Factory Message Cb : Type}.
Context `{FactoryContext Factory Message Cb}.
Context `{ManagerContext ConfigSource Factory Message}.
Implicit Types (this : FilterConfigProviderManagerImpl Cb).
Implicit Types (s : Subscription Cb).

(** *** FilterConfigSubscription, the rest *)

(** [FilterConfigSubscription::start] *)
Definition start s : Subscription Cb :=
  if started_ s then s
  else {| base := base s; subscription_id_ := subscription_id_ s;
          started_ := true;
          started_with := started_with s ++ [[filter_config_name_ (base s)]];
          config_fail_ := config_fail_ s;
          config_conflict_ := config_conflict_ s |}.

(** [FilterConfigSubscription::onConfigUpdateFailed] *)
Definition onConfigUpdateFailed s (reason : ConfigUpdateFailureReason)
  : Subscription Cb :=
  {| (* Make sure to make progress in case the control plane is
        temporarily failing. *)
     base := ready (base s);
     subscription_id_ := subscription_id_ s; started_ := started_ s;
     started_with := started_with s;
     config_fail_ := S (config_fail_ s);
     config_conflict_ := config_conflict_ s |}.

(** [FilterConfigSubscription::incrementConflictCounter] *)
Definition incrementConflictCounter s : Subscription Cb :=
  {| base := base s; subscription_id_ := subscription_id_ s;
     started_ := started_ s; started_with := started_with s;
     config_fail_ := config_fail_ s;
     config_conflict_ := S (config_conflict_ s) |}.

(** The subscription after an event, with the calls made on its
    providers; an exception goes to the caller. *)
Definition deliver s (ev : SubscriptionEvent) : Subscription Cb * list (ProviderUpdate Cb) :=
  match ev with
  | SotwUpdate resources version_info =>
      let u := onConfigUpdate (base s) resources version_info in
      (set_base s (sub u), provider_updates u)
  | DeltaUpdate added removed =>
      let u := onConfigUpdateDelta (base s) added removed in
      (set_base s (sub u), provider_updates u)
  | UpdateFailed reason => (onConfigUpdateFailed s reason, [])
  end.

Definition deliver_all s (evs : list SubscriptionEvent) : Subscription Cb :=
  foldl (λ s ev, (deliver s ev).1) s evs.

(** *** FilterConfigProviderManagerImpl *)

(** [absl::StrCat(MessageUtil::hash(config_source), ".", name)] *)
Definition subscription_id (source : ConfigSource) (name : string) : string :=
  pretty (hash_config_source source) +:+ "." +:+ name.

(** The [FilterConfigSubscription] constructor: no provider yet, nothing
    received, not started. *)
Definition new_subscription (filter_config_name stat_prefix id : string)
  : Subscription Cb :=
  {| base :=
       {| filter_config_name_ := filter_config_name;
          stat_prefix_ := stat_prefix;
          init_target_ready := false;
          filter_config_providers_ := [];
          last_config_hash_ := 0;
          last_config_ := None;
          last_type_url_ := "";
          last_version_info_ := "" |};
     subscription_id_ := id;
     started_ := false; started_with := [];
     config_fail_ := 0; config_conflict_ := 0 |}.

(** [FilterConfigProviderManagerImpl::getSubscription]: the
    subscription of this config source and name, made if there is
    none. *)
Definition getSubscription this (source : ConfigSource) (name stat_prefix : string)
  : FilterConfigProviderManagerImpl Cb * Subscription Cb :=
  let id := subscription_id source name in
  match subscriptions_ this !! id with
  | None =>
      let subscription := new_subscription name stat_prefix id in
      ({| subscriptions_ := <[id := subscription]> (subscriptions_ this);
          next_provider := next_provider this |}, subscription)
  | Some existing => (this, existing)
  end.

(** [~DynamicFilterConfigProviderImpl]: the provider leaves
    [filter_config_providers_] and gives up its share of the
    subscription. The providers are the owners of a subscription, so the
    last one to go destroys it, and [~FilterConfigSubscription] erases it
    from [subscriptions_]. *)
Definition destroyProvider this (p : DynamicFilterConfigProviderImpl)
  : FilterConfigProviderManagerImpl Cb :=
  match subscriptions_ this !! subscription_ p with
  | Some subscription =>
      let providers :=
        filter (λ q, provider_id q ≠ provider_id (provider p))
          (filter_config_providers_ (base subscription)) in
      {| subscriptions_ :=
           match providers with
           | [] => delete (subscription_id_ subscription) (subscriptions_ this)
           | _ =>
               <[subscription_ p :=
                   set_base subscription (set_providers (base subscription) providers)]>
                 (subscriptions_ this)
           end;
         next_provider := next_provider this |}
  | None => this
  end.

(** The [DynamicFilterConfigProviderImpl] constructor enters the
    provider in [filter_config_providers_] of its subscription. *)
Definition register s (p : Provider) : Subscription Cb :=
  set_base s
    (set_providers (base s) (filter_config_providers_ (base s) ++ [p])).

Definition no_default_factory (filter_config_name : string) (d : Any) : string :=
  "Error: cannot find filter factory " +:+ filter_config_name
  +:+ " for default filter configuration with type URL " +:+ type_url d +:+ ".".

(** The attempt to apply the configuration the subscription last
    received: the subscription, [last_config_valid] and the call made on
    the provider. *)
Definition apply_last_config s (p : Provider)
  : Subscription Cb * bool * list (ProviderUpdate Cb) :=
  match last_config_ (base s) with
  | Some config =>
      match validateTypeUrl p (last_type_url_ (base s)) with
      | Returned _ =>
          (s, true,
           [{| to_provider := provider_id p; config := config;
               version_info := last_version_info_ (base s) |}])
      | Thrown _ => (incrementConflictCounter s, false, [])
      end
  | None => (s, false, [])
  end.

(** The default configuration, applied if none has been applied. *)
Definition apply_default_config (source : ExtensionConfigSource ConfigSource)
    (filter_config_name stat_prefix : string) (p : Provider) (last_config_valid : bool)
  : Outcome (list (ProviderUpdate Cb)) :=
  match default_config source with
  | Some default =>
      if last_config_valid then Returned []
      else
        match getFactoryByType default with
        | None => Thrown (no_default_factory filter_config_name default)
        | Some default_factory =>
            _ ← validateTypeUrl p (getFactoryType default);
            message ← translateDefaultConfig default default_factory;
            default_config ←
              createFilterFactoryFromProto default_factory message stat_prefix;
            Returned [{| to_provider := provider_id p; config := default_config;
                         version_info := "" |}]
        end
  | None => Returned []
  end.

(** [FilterConfigProviderManagerImpl::createDynamicFilterConfigProvider].
    [require_type_urls] is a set: its elements are listed once each. When
    the default configuration throws, the stack is unwound: the provider
    is destroyed, and with it the subscription if no other provider
    shares it. *)
Definition createDynamicFilterConfigProvider this
    (source : ExtensionConfigSource ConfigSource)
    (filter_config_name stat_prefix : string) : Created Cb :=
  let '(this, subscription) :=
    getSubscription this (config_source source) filter_config_name stat_prefix in
  (* the subscription is the object filed under this id *)
  let id := subscription_id (config_source source) filter_config_name in
  (* For warming, wait until the subscription receives the first response
     to indicate readiness. *)
  let warming_target :=
    if apply_default_config_without_warming source then []
    else [SubscriptionInitTarget id] in
  let require_type_urls :=
    remove_dups (typeUrlToDescriptorFullName <$> type_urls source) in
  let p := {| provider_id := next_provider this;
              require_type_urls_ := require_type_urls |} in
  let subscription := register subscription p in
  (* Ensure the subscription starts if it has not already. *)
  let handle := {| provider := p; subscription_ := id |} in
  let starting_target :=
    if apply_default_config_without_warming source
    then [ProviderInitTarget handle] else [] in
  let '(subscription, last_config_valid, from_last) :=
    apply_last_config subscription p in
  let this :=
    {| subscriptions_ := <[id := subscription]> (subscriptions_ this);
       next_provider := S (next_provider this) |} in
  match apply_default_config source filter_config_name stat_prefix p last_config_valid with
  | Returned from_default =>
      {| manager := this; created := Returned handle;
         init_targets := warming_target ++ starting_target;
         applied := from_last ++ from_default |}
  | Thrown what =>
      {| manager := destroyProvider this handle; created := Thrown what;
         init_targets := warming_target ++ starting_target;
         applied := from_last |}
  end.

(** The manager after an event of the subscription filed under [id]. *)
Definition deliver_to this (id : string) (ev : SubscriptionEvent)
  : FilterConfigProviderManagerImpl Cb * list (ProviderUpdate Cb) :=
  match subscriptions_ this !! id with
  | Some s =>
      ({| subscriptions_ := <[id := (deliver s ev).1]> (subscriptions_ this);
          next_provider := next_provider this |}, (deliver s ev).2)
  | None => (this, [])
  end.

(** The init manager runs a target: the subscription's target starts
    the subscription, the provider's starts the subscription of the
    provider (and is ready at once). *)
Definition initialize this (target : InitTarget) : FilterConfigProviderManagerImpl Cb :=
  let id :=
    match target with
    | SubscriptionInitTarget id => id
    | ProviderInitTarget p => subscription_ p
    end in
  {| subscriptions_ := alter start id (subscriptions_ this);
     next_provider := next_provider this |}.

(** What happens to a provider manager. *)
Inductive Operation :=
| Create (source : ExtensionConfigSource ConfigSource)
    (filter_config_name stat_prefix : string)
| Destroy (p : DynamicFilterConfigProviderImpl)
| Deliver (id : string) (ev : SubscriptionEvent)
| Initialize (target : InitTarget).

Definition run this (op : Operation) : FilterConfigProviderManagerImpl Cb :=
  match op with
  | Create source filter_config_name stat_prefix =>
      manager (createDynamicFilterConfigProvider this source filter_config_name stat_prefix)
  | Destroy p => destroyProvider this p
  | Deliver id ev => (deliver_to this id ev).1
  | Initialize target => initialize this target
  end.


(** *** What an update leaves alone *)

Lemma onConfigUpdate_frame (b : FilterConfigSubscription Cb) rs v :
  let u := onConfigUpdate b rs v in
  filter_config_providers_ (sub u) = filter_config_providers_ b
  ∧ filter_config_name_ (sub u) = filter_config_name_ b
  ∧ init_target_ready (sub u) = true
  ∧ (is_Some (last_config_ b) → is_Some (last_config_ (sub u))).
Proof.
  unfold onConfigUpdate. rewrite check_and_build_ready.
  destruct (check_and_build b rs) as [[a|]|what]; simpl; by repeat split.
Qed.

Lemma deliver_frame s ev :
  filter_config_providers_ (base (deliver s ev).1) = filter_config_providers_ (base s)
  ∧ filter_config_name_ (base (deliver s ev).1) = filter_config_name_ (base s)
  ∧ subscription_id_ (deliver s ev).1 = subscription_id_ s
  ∧ started_ (deliver s ev).1 = started_ s
  ∧ started_with (deliver s ev).1 = started_with s
  ∧ (is_Some (last_config_ (base s)) →
     is_Some (last_config_ (base (deliver s ev).1))).
Proof.
  destruct ev as [rs v|added removed|reason]; simpl.
  - destruct (onConfigUpdate_frame (base s) rs v) as (? & ? & _ & ?).
    by repeat split.
  - unfold onConfigUpdateDelta. destruct added as [|r added]; [by repeat split|].
    destruct (onConfigUpdate_frame (base s) (r :: added) (version r)) as (? & ? & _ & ?).
    by repeat split.
  - by repeat split.
Qed.

(** X7. A configuration that has been applied is never taken away:
    whatever the subscription delivers afterwards (updates that are
    accepted, updates that throw, delta updates that name the resource as
    removed, empty delta updates, failures), the subscription still holds
    a configuration, and its name and its providers are the same. *)
Theorem applied_config_is_never_dropped s (evs : list SubscriptionEvent) :
  is_Some (last_config_ (base s)) →
  is_Some (last_config_ (base (deliver_all s evs)))
  ∧ filter_config_name_ (base (deliver_all s evs)) = filter_config_name_ (base s)
  ∧ filter_config_providers_ (base (deliver_all s evs))
    = filter_config_providers_ (base s).
Proof.
  unfold deliver_all. revert s.
  induction evs as [|ev evs IH]; intros s Hsome; simpl; [done|].
  destruct (deliver_frame s ev) as (Hps & Hname & _ & _ & _ & Hkeep).
  destruct (IH (deliver s ev).1 (Hkeep Hsome)) as (? & -> & ->). done.
Qed.

(** X8. Warming ends with the first answer: once the subscription has
    delivered an update, accepted or not, or a failure, the init target
    is ready, and it stays so. Only a delta update that adds nothing
    leaves it as it is. *)
Theorem first_answer_ends_warming s
    (ev : SubscriptionEvent) (evs : list SubscriptionEvent) :
  (∀ removed, ev ≠ DeltaUpdate [] removed) →
  init_target_ready (base (deliver_all s (ev :: evs))) = true.
Proof.
  intros Hev. unfold deliver_all. simpl.
  assert (init_target_ready (base (deliver s ev).1) = true) as Hready.
  { destruct ev as [rs v|added removed|reason]; simpl; [|..|done].
    - by destruct (onConfigUpdate_frame (base s) rs v) as (_ & _ & ? & _).
    - destruct added as [|r added]; [by destruct (Hev removed)|].
      by destruct (onConfigUpdate_frame (base s) (r :: added) (version r))
        as (_ & _ & ? & _). }
  revert Hready. generalize (deliver s ev).1 as s'.
  induction evs as [|e evs IH]; intros s' Hready; simpl; [done|].
  apply IH. destruct e as [rs v|added removed|reason]; simpl; [|..|done].
  - by destruct (onConfigUpdate_frame (base s') rs v) as (_ & _ & ? & _).
  - destruct added as [|r added]; [done|].
    by destruct (onConfigUpdate_frame (base s') (r :: added) (version r))
      as (_ & _ & ? & _).
Qed.

(** *** Subscription ids *)

Lemma pretty_N_go_dotless (x : N) (acc : string) :
  dotless acc = true → dotless (pretty_N_go x acc) = true.
Proof.
  revert acc. induction (N.lt_wf_0 x) as [x _ IH]; intros acc Hacc.
  assert (x = 0 ∨ 0 < x)%N as [->|Hpos] by lia.
  - by rewrite pretty_N_go_0.
  - rewrite pretty_N_go_step by done. apply IH; [by apply N.div_lt|].
    simpl. unfold pretty_N_char. by repeat case_match.
Qed.

Lemma pretty_N_dotless (x : N) : dotless (pretty x) = true.
Proof.
  unfold pretty, pretty_N. destruct (decide (x = 0%N)); [done|].
  by apply pretty_N_go_dotless.
Qed.

Lemma dotless_prefix (a b rest1 rest2 : string) :
  dotless a = true → dotless b = true →
  a +:+ "." +:+ rest1 = b +:+ "." +:+ rest2 → a = b ∧ rest1 = rest2.
Proof.
  revert b. induction a as [|c a IH]; intros [|d b] Ha Hb Heq;
    simplify_eq/=; try done.
  destruct (decide (d = "."%char)); [done|].
  by destruct (IH b Ha Hb) as [-> ->].
Qed.

(** X9. Subscription ids tell subscriptions apart as far as the hash
    does: two ids are equal exactly when the names are equal and the
    config sources have the same hash. A name with a "." in it cannot
    make two ids collide. *)
Theorem subscription_ids_collide_only_with_the_hash
    (source1 source2 : ConfigSource) (name1 name2 : string) :
  subscription_id source1 name1 = subscription_id source2 name2 ↔
  hash_config_source source1 = hash_config_source source2 ∧ name1 = name2.
Proof.
  unfold subscription_id. split.
  - intros Heq.
    apply dotless_prefix in Heq as [Hhash ->]; try apply pretty_N_dotless.
    split; [|done]. by apply (inj pretty).
  - by intros [-> ->].
Qed.


(** *** Creating and destroying providers *)

(** The subscription [getSubscription] returns. *)
Definition found this (source : ConfigSource) (name stat_prefix : string)
  : Subscription Cb :=
  default (new_subscription name stat_prefix (subscription_id source name))
    (subscriptions_ this !! subscription_id source name).

(** The provider [createDynamicFilterConfigProvider] makes. *)
Definition new_provider this (source : ExtensionConfigSource ConfigSource)
    (name : string) : DynamicFilterConfigProviderImpl :=
  {| provider :=
       {| provider_id := next_provider this;
          require_type_urls_ :=
            remove_dups (typeUrlToDescriptorFullName <$> type_urls source) |};
     subscription_ := subscription_id (config_source source) name |}.

(** The provider manager once the provider is registered and the last
    configuration has been tried. *)
Definition registered this (source : ExtensionConfigSource ConfigSource)
    (name stat_prefix : string) : FilterConfigProviderManagerImpl Cb :=
  let p := provider (new_provider this source name) in
  {| subscriptions_ :=
       <[subscription_id (config_source source) name :=
           (apply_last_config
              (register (found this (config_source source) name stat_prefix) p) p).1.1]>
         (subscriptions_ this);
     next_provider := S (next_provider this) |}.

(** The subscriptions by id, as far as [onConfigUpdate] works on
    them. *)
Definition bases this : gmap string (FilterConfigSubscription Cb) :=
  base <$> subscriptions_ this.

(** What holds of every subscription the provider manager keeps: it has
    a provider, its providers have identities of their own that have been
    given out, it is filed under its id, and the underlying subscription
    was started once if at all. *)
Definition kept (next : nat) (id : string) s : Prop :=
  filter_config_providers_ (base s) ≠ []
  ∧ Forall (λ p, provider_id p < next) (filter_config_providers_ (base s))
  ∧ NoDup (provider_id <$> filter_config_providers_ (base s))
  ∧ subscription_id_ s = id
  ∧ started_with s =
    (if started_ s then [[filter_config_name_ (base s)]] else []).

Definition well_formed this : Prop :=
  map_Forall (kept (next_provider this)) (subscriptions_ this).

Lemma getSubscription_found this source name stat_prefix :
  getSubscription this source name stat_prefix =
  ({| subscriptions_ :=
        <[subscription_id source name := found this source name stat_prefix]>
          (subscriptions_ this);
      next_provider := next_provider this |},
   found this source name stat_prefix).
Proof.
  unfold getSubscription, found.
  destruct (subscriptions_ this !! subscription_id source name) as [existing|] eqn:Hid;
    simpl; [|done].
  rewrite insert_id by done. by destruct this.
Qed.

Lemma apply_last_config_same s (p : Provider) :
  base (apply_last_config s p).1.1 = base s
  ∧ subscription_id_ (apply_last_config s p).1.1 = subscription_id_ s
  ∧ started_ (apply_last_config s p).1.1 = started_ s
  ∧ started_with (apply_last_config s p).1.1 = started_with s.
Proof.
  unfold apply_last_config. destruct (last_config_ (base s)); [|done].
  by destruct (validateTypeUrl p (last_type_url_ (base s))).
Qed.

Lemma apply_last_config_valid s (p : Provider) :
  (apply_last_config s p).1.2 = true →
  ∃ config,
    last_config_ (base s) = Some config
    ∧ last_type_url_ (base s) ∈ require_type_urls_ p
    ∧ (apply_last_config s p).2 =
      [{| to_provider := provider_id p; config := config;
          version_info := last_version_info_ (base s) |}].
Proof.
  unfold apply_last_config, validateTypeUrl.
  destruct (last_config_ (base s)) as [config|]; [|done].
  destruct (decide _); [|done]. intros _. by exists config.
Qed.

Lemma apply_last_config_invalid s (p : Provider) :
  (apply_last_config s p).1.2 = false →
  (apply_last_config s p).2 = []
  ∧ (last_config_ (base s) = None
     ∨ last_type_url_ (base s) ∉ require_type_urls_ p).
Proof.
  unfold apply_last_config, validateTypeUrl.
  destruct (last_config_ (base s)) as [config|]; [|by split; [|left]].
  destruct (decide _); [done|]. by split; [|right].
Qed.

Lemma apply_default_config_valid source name stat_prefix p :
  apply_default_config source name stat_prefix p true = Returned [].
Proof. unfold apply_default_config. by destruct (default_config source). Qed.

(** [createDynamicFilterConfigProvider], step by step. *)
Lemma createDynamicFilterConfigProvider_steps this source name stat_prefix :
  let handle := new_provider this source name in
  let s := found this (config_source source) name stat_prefix in
  let tried := apply_last_config (register s (provider handle)) (provider handle) in
  let targets :=
    (if apply_default_config_without_warming source then []
     else [SubscriptionInitTarget (subscription_ handle)])
    ++ (if apply_default_config_without_warming source
        then [ProviderInitTarget handle] else []) in
  createDynamicFilterConfigProvider this source name stat_prefix =
  match apply_default_config source name stat_prefix (provider handle) tried.1.2 with
  | Returned from_default =>
      {| manager := registered this source name stat_prefix;
         created := Returned handle;
         init_targets := targets;
         applied := tried.2 ++ from_default |}
  | Thrown what =>
      {| manager := destroyProvider (registered this source name stat_prefix) handle;
         created := Thrown what;
         init_targets := targets;
         applied := tried.2 |}
  end.
Proof.
  intros handle s tried targets. subst handle s tried targets.
  unfold createDynamicFilterConfigProvider, registered, new_provider.
  rewrite getSubscription_found. cbn [provider subscription_ next_provider subscriptions_].
  destruct (apply_last_config _ _) as [[s' valid] from_last]. cbn [fst snd].
  by rewrite insert_insert_eq.
Qed.

Lemma found_kept this source name stat_prefix :
  well_formed this →
  let s := found this source name stat_prefix in
  Forall (λ p, provider_id p < next_provider this) (filter_config_providers_ (base s))
  ∧ NoDup (provider_id <$> filter_config_providers_ (base s))
  ∧ subscription_id_ s = subscription_id source name
  ∧ started_with s = (if started_ s then [[filter_config_name_ (base s)]] else [])
  ∧ (filter_config_providers_ (base s) = [] →
     subscriptions_ this !! subscription_id source name = None)
  ∧ (filter_config_providers_ (base s) ≠ [] →
     subscriptions_ this !! subscription_id source name = Some s).
Proof.
  intros Hwf s. unfold s, found.
  destruct (subscriptions_ this !! subscription_id source name) as [existing|] eqn:Hid;
    simpl.
  - destruct (Hwf _ _ Hid) as (? & ? & ? & ? & ?). by repeat split.
  - repeat split; try done. apply NoDup_nil_2.
Qed.

Lemma filter_others (ps : list Provider) (n : nat) :
  Forall (λ p, provider_id p < n) ps →
  filter (λ q, provider_id q ≠ n) ps = ps.
Proof.
  induction 1 as [|p ps Hp _ IH]; [done|].
  rewrite filter_cons_True by lia. by rewrite IH.
Qed.

(** Destroying the provider that was registered last leaves the
    subscriptions as they were before it was registered: the subscription
    is erased if it was made for this provider, and has its former
    providers otherwise. *)
Lemma destroy_registered this source name stat_prefix :
  well_formed this →
  bases (destroyProvider (registered this source name stat_prefix)
           (new_provider this source name)) = bases this.
Proof.
  intros Hwf.
  destruct (found_kept this (config_source source) name stat_prefix Hwf)
    as (Hfresh & _ & Hid & _ & Hnew & Hold).
  unfold destroyProvider, registered, bases.
  set (s := found this (config_source source) name stat_prefix) in *.
  set (p := provider (new_provider this source name)).
  destruct (apply_last_config_same (register s p) p) as (Hbase & Hsid & _ & _).
  set (s2 := (apply_last_config (register s p) p).1.1) in *.
  cbn [subscriptions_ subscription_ new_provider next_provider].
  rewrite lookup_insert_eq, Hbase, Hsid.
  cbn [register set_base base subscription_id_ set_providers filter_config_providers_].
  rewrite filter_app, (filter_others _ (provider_id p) Hfresh).
  rewrite filter_cons_False by (simpl; intros Hne; by apply Hne).
  rewrite filter_nil, app_nil_r, Hid.
  destruct (filter_config_providers_ (base s)) as [|q qs] eqn:Hps.
  - rewrite delete_insert_eq, delete_id by (by apply Hnew). done.
  - cbn [subscriptions_]. rewrite insert_insert_eq, fmap_insert. cbn [set_base base].
    assert (subscriptions_ this !! subscription_id (config_source source) name = Some s)
      as Hs by (by apply Hold).
    apply map_eq. intros id.
    destruct (decide (id = subscription_id (config_source source) name)) as [->|Hne].
    + rewrite lookup_insert_eq, lookup_fmap, Hs. simpl. f_equal.
      destruct (base s); simpl in *. by rewrite Hps.
    + by rewrite lookup_insert_ne.
Qed.

Lemma created_returned this source name stat_prefix p :
  created (createDynamicFilterConfigProvider this source name stat_prefix) = Returned p →
  p = new_provider this source name
  ∧ manager (createDynamicFilterConfigProvider this source name stat_prefix)
    = registered this source name stat_prefix.
Proof.
  rewrite createDynamicFilterConfigProvider_steps.
  destruct (apply_default_config _ _ _ _ _); simpl; [|done].
  by intros [= <-].
Qed.

Lemma created_thrown this source name stat_prefix what :
  created (createDynamicFilterConfigProvider this source name stat_prefix) = Thrown what →
  manager (createDynamicFilterConfigProvider this source name stat_prefix)
  = destroyProvider (registered this source name stat_prefix)
      (new_provider this source name)
  ∧ applied (createDynamicFilterConfigProvider this source name stat_prefix) = [].
Proof.
  rewrite createDynamicFilterConfigProvider_steps.
  destruct (apply_default_config _ _ _ _ _) eqn:Hdefault; simpl; [done|].
  intros _. split; [done|].
  apply apply_last_config_invalid.
  destruct ((apply_last_config _ _).1.2) eqn:Hvalid; [|done].
  by rewrite apply_default_config_valid in Hdefault.
Qed.

(** X10. A provider that cannot be made leaves nothing behind. When
    [createDynamicFilterConfigProvider] throws (no factory for the
    default configuration, a default configuration of a type the provider
    does not accept, or one that does not translate), the provider is not
    registered with the subscription, a subscription that was made for it
    is gone again, the other subscriptions and their providers are as
    before, and no configuration was applied to the provider. *)
Theorem failed_creation_leaves_no_trace this
    (source : ExtensionConfigSource ConfigSource)
    (name stat_prefix what : string) :
  well_formed this →
  let c := createDynamicFilterConfigProvider this source name stat_prefix in
  created c = Thrown what →
  bases (manager c) = bases this ∧ applied c = [].
Proof.
  intros Hwf c Hthrown. apply created_thrown in Hthrown as [Hmanager Happlied].
  split; [|done]. unfold c. rewrite Hmanager. by apply destroy_registered.
Qed.

(** X11. Making a provider and destroying it again is a round trip for
    the subscriptions: a subscription that was made for the provider is
    erased from [subscriptions_], and a subscription it shared has the
    providers it had. *)
Theorem create_then_destroy_restores_the_subscriptions this
    (source : ExtensionConfigSource ConfigSource) (name stat_prefix : string)
    (p : DynamicFilterConfigProviderImpl) :
  well_formed this →
  let c := createDynamicFilterConfigProvider this source name stat_prefix in
  created c = Returned p →
  bases (destroyProvider (manager c) p) = bases this.
Proof.
  intros Hwf c Hreturned. apply created_returned in Hreturned as [-> Hmanager].
  unfold c. rewrite Hmanager. by apply destroy_registered.
Qed.


(** *** The invariant *)

Lemma kept_later (n : nat) (id : string) s : kept n id s → kept (S n) id s.
Proof.
  intros (? & Hfresh & ? & ? & ?). repeat split; try done.
  eapply Forall_impl; [exact Hfresh|]. simpl. lia.
Qed.

Lemma registered_well_formed this source name stat_prefix :
  well_formed this → well_formed (registered this source name stat_prefix).
Proof.
  intros Hwf.
  destruct (found_kept this (config_source source) name stat_prefix Hwf)
    as (Hfresh & Hnodup & Hid & Hstarted & _ & _).
  unfold well_formed, registered.
  set (s := found this (config_source source) name stat_prefix) in *.
  set (p := provider (new_provider this source name)).
  destruct (apply_last_config_same (register s p) p) as (Hbase & Hsid & Hst & Hsw).
  cbn [subscriptions_ next_provider].
  apply map_Forall_insert_2.
  - unfold kept. rewrite Hbase, Hsid, Hst, Hsw.
    cbn [register set_base base subscription_id_ set_providers
         filter_config_providers_ filter_config_name_ started_ started_with].
    repeat split; try done.
    + by destruct (filter_config_providers_ (base s)).
    + apply Forall_app. split.
      * eapply Forall_impl; [exact Hfresh|]. simpl. lia.
      * apply Forall_singleton. simpl. lia.
    + rewrite fmap_app. apply NoDup_app. split; [done|]. split.
      * intros n (q & -> & Hq)%list_elem_of_fmap Hn.
        apply list_elem_of_singleton in Hn. simpl in Hn.
        rewrite Forall_forall in Hfresh. specialize (Hfresh q Hq). lia.
      * apply NoDup_singleton.
  - intros id x Hx. by apply kept_later, (Hwf id).
Qed.

Lemma destroyProvider_well_formed this (p : DynamicFilterConfigProviderImpl) :
  well_formed this → well_formed (destroyProvider this p).
Proof.
  intros Hwf. unfold destroyProvider.
  destruct (subscriptions_ this !! subscription_ p) as [s|] eqn:Hs; [|done].
  destruct (Hwf _ _ Hs) as (_ & Hfresh & Hnodup & Hid & Hstarted).
  unfold well_formed. cbn [subscriptions_ next_provider].
  set (f := λ q, provider_id q ≠ provider_id (provider p)).
  destruct (filter f (filter_config_providers_ (base s))) as [|q qs] eqn:Hps.
  - by apply map_Forall_delete.
  - apply map_Forall_insert_2; [|done]. unfold kept.
    cbn [set_base base subscription_id_ set_providers filter_config_providers_
         filter_config_name_ started_ started_with].
    rewrite <- Hps. repeat split; try done.
    + by rewrite Hps.
    + rewrite Forall_forall in Hfresh. apply Forall_forall.
      intros x Hx. apply list_elem_of_filter in Hx as [_ Hx]. by apply Hfresh.
    + eapply sublist_NoDup; [exact Hnodup|apply fmap_sublist, sublist_filter].
Qed.

Lemma deliver_to_well_formed this (id : string) (ev : SubscriptionEvent) :
  well_formed this → well_formed (deliver_to this id ev).1.
Proof.
  intros Hwf. unfold deliver_to.
  destruct (subscriptions_ this !! id) as [s|] eqn:Hs; [|done].
  destruct (Hwf _ _ Hs) as (? & ? & ? & ? & ?).
  destruct (deliver_frame s ev) as (Hps & Hname & Hsid & Hst & Hsw & _).
  unfold well_formed. cbn [fst subscriptions_ next_provider].
  apply map_Forall_insert_2; [|done]. unfold kept.
  by rewrite Hps, Hname, Hsid, Hst, Hsw.
Qed.

Lemma initialize_well_formed this (target : InitTarget) :
  well_formed this → well_formed (initialize this target).
Proof.
  intros Hwf. unfold well_formed, initialize. cbn [subscriptions_ next_provider].
  intros id s' Hs'.
  apply lookup_alter_Some in Hs' as [(Hid & s & Hs & ->)|[_ Hs']]; [|by apply (Hwf id)].
  destruct (Hwf _ _ Hs) as (? & ? & ? & ? & Hstarted).
  unfold kept, start. destruct (started_ s) eqn:Hst.
  - rewrite Hst. by repeat split.
  - simpl. rewrite Hstarted. by repeat split.
Qed.

Lemma run_well_formed this (op : Operation) :
  well_formed this → well_formed (run this op).
Proof.
  intros Hwf. destruct op as [source name stat_prefix|p|id ev|target]; simpl.
  - rewrite createDynamicFilterConfigProvider_steps.
    destruct (apply_default_config _ _ _ _ _); simpl.
    + by apply registered_well_formed.
    + by apply destroyProvider_well_formed, registered_well_formed.
  - by apply destroyProvider_well_formed.
  - by apply deliver_to_well_formed.
  - by apply initialize_well_formed.
Qed.

(** X12. Whatever is done to a provider manager that started empty
    (providers made, also in vain, providers destroyed, updates and
    failures delivered, init targets run), every subscription it holds
    has at least one provider, so that a subscription is dropped with its
    last provider; the providers of a subscription have identities of
    their own; every subscription is filed under its own id; and the
    underlying subscription was started at most once, with the name of
    the filter configuration as the one resource. *)
Theorem subscriptions_live_as_long_as_their_providers (ops : list Operation) :
  well_formed (foldl run empty ops).
Proof.
  assert (well_formed empty) as Hempty by apply map_Forall_empty.
  revert Hempty. generalize (@empty Cb) as this.
  induction ops as [|op ops IH]; intros this Hwf; simpl; [done|].
  by apply IH, run_well_formed.
Qed.

(** *** Sharing *)

Lemma registered_lookup this source name stat_prefix :
  ∃ s, subscriptions_ (registered this source name stat_prefix)
         !! subscription_id (config_source source) name = Some s
       ∧ base s = base (register (found this (config_source source) name stat_prefix)
                          (provider (new_provider this source name))).
Proof.
  unfold registered. cbn [subscriptions_]. rewrite lookup_insert_eq.
  eexists. split; [done|]. apply apply_last_config_same.
Qed.

(** X13. Providers made for the same name and for config sources of
    the same hash share one subscription: the second provider is entered
    in the subscription of the first, no subscription is made for it, and
    both are among the providers an update of that subscription
    reaches. This holds for one config source used twice and, the id
    being built from the hash, also for two config sources whose hashes
    collide. *)
Theorem providers_of_one_source_share_the_subscription this
    (source1 source2 : ExtensionConfigSource ConfigSource)
    (name prefix1 prefix2 : string) (p1 p2 : DynamicFilterConfigProviderImpl) :
  hash_config_source (config_source source1) = hash_config_source (config_source source2) →
  let c1 := createDynamicFilterConfigProvider this source1 name prefix1 in
  let c2 := createDynamicFilterConfigProvider (manager c1) source2 name prefix2 in
  created c1 = Returned p1 →
  created c2 = Returned p2 →
  subscription_ p2 = subscription_ p1
  ∧ provider_id (provider p2) ≠ provider_id (provider p1)
  ∧ dom (subscriptions_ (manager c2)) = dom (subscriptions_ (manager c1))
  ∧ ∃ s, subscriptions_ (manager c2) !! subscription_ p1 = Some s
         ∧ provider p1 ∈ filter_config_providers_ (base s)
         ∧ provider p2 ∈ filter_config_providers_ (base s).
Proof.
  intros Hhash c1 c2 H1 H2.
  apply created_returned in H1 as [-> Hm1].
  apply created_returned in H2 as [-> Hm2].
  unfold c2. rewrite Hm2. unfold c1 in *. rewrite Hm1.
  assert (subscription_id (config_source source2) name
          = subscription_id (config_source source1) name) as Hid
    by (unfold subscription_id; by rewrite Hhash).
  destruct (registered_lookup this source1 name prefix1) as (s1 & Hs1 & Hb1).
  destruct (registered_lookup (registered this source1 name prefix1) source2 name prefix2)
    as (s2 & Hs2 & Hb2).
  split; [exact Hid|]. split; [simpl; lia|]. split.
  - unfold registered at 1. cbn [subscriptions_]. rewrite Hid.
    apply dom_insert_lookup_L. by rewrite Hs1.
  - exists s2. cbn [subscription_ new_provider]. rewrite <- Hid. split; [exact Hs2|].
    rewrite Hb2. unfold found. rewrite Hid, Hs1.
    cbn [default from_option id register set_base base set_providers
         filter_config_providers_]. rewrite Hb1.
    cbn [register set_base base set_providers filter_config_providers_].
    split; [|set_solver]. apply elem_of_app. left. apply elem_of_app. right.
    by apply list_elem_of_singleton.
Qed.

(** X14. A provider that is made for a subscription after an update
    was applied starts with the configuration of that update: when the
    update has called the providers and its type URL is among those the
    new provider requires, [createDynamicFilterConfigProvider] returns and
    applies to the new provider, as the one configuration, the
    configuration the others were called with, under the version of the
    update. The default configuration is not used, and cannot make the
    creation fail. *)
Theorem late_provider_starts_with_the_last_update this
    (source : ExtensionConfigSource ConfigSource) (name stat_prefix : string)
    (r : DecodedResource) (v : string) (call : ProviderUpdate Cb) :
  let id := subscription_id (config_source source) name in
  let d := deliver_to this id (SotwUpdate [r] v) in
  call ∈ d.2 →
  getFactoryType (typed_config (resource r))
    ∈ typeUrlToDescriptorFullName <$> type_urls source →
  let c := createDynamicFilterConfigProvider d.1 source name stat_prefix in
  created c = Returned (new_provider this source name)
  ∧ applied c = [{| to_provider := next_provider this; config := config call;
                    version_info := v |}].
Proof.
  intros id d Hcall Htype c. unfold d, deliver_to in *.
  destruct (subscriptions_ this !! id) as [s|] eqn:Hs;
    [|by apply elem_of_nil in Hcall].
  cbn [fst snd deliver] in *.
  apply onConfigUpdate_stored in Hcall as (r' & [= <-] & Hconfig & Hurl & Hversion).
  unfold c. rewrite createDynamicFilterConfigProvider_steps.
  set (this' := {| subscriptions_ := _; next_provider := next_provider this |}).
  set (p := provider (new_provider this' source name)).
  assert (found this' (config_source source) name stat_prefix
          = set_base s (sub (onConfigUpdate (base s) [r] v))) as Hfound.
  { unfold found, this'. cbn [subscriptions_]. fold id. by rewrite lookup_insert_eq. }
  rewrite Hfound.
  assert ((apply_last_config
             (register (set_base s (sub (onConfigUpdate (base s) [r] v))) p) p)
          = (register (set_base s (sub (onConfigUpdate (base s) [r] v))) p, true,
             [{| to_provider := next_provider this; config := config call;
                 version_info := v |}])) as ->.
  { unfold apply_last_config, validateTypeUrl.
    cbn [register set_base base set_providers last_config_ last_type_url_
         last_version_info_].
    rewrite Hconfig, Hurl, Hversion.
    rewrite decide_True; [done|].
    unfold p. cbn [provider new_provider require_type_urls_].
    by apply elem_of_remove_dups. }
  cbn [fst snd]. rewrite apply_default_config_valid. cbn [created applied].
  by rewrite app_nil_r.
Qed.

(** X15. At its creation a provider is given at most one
    configuration, and one whose type URL it accepts: the configuration
    the subscription received last, with its version, if there is one and
    its type URL is among those the provider requires, and otherwise the
    default configuration, under the empty version, if there is one, its
    type URL is among those required, and it translates. The last
    configuration goes before the default. *)
Theorem new_provider_is_given_an_accepted_config this
    (source : ExtensionConfigSource ConfigSource) (name stat_prefix : string)
    (call : ProviderUpdate Cb) :
  let c := createDynamicFilterConfigProvider this source name stat_prefix in
  let id := subscription_id (config_source source) name in
  let required := typeUrlToDescriptorFullName <$> type_urls source in
  call ∈ applied c →
  applied c = [call]
  ∧ to_provider call = next_provider this
  ∧ ((∃ s, subscriptions_ this !! id = Some s
           ∧ last_config_ (base s) = Some (config call)
           ∧ last_type_url_ (base s) ∈ required
           ∧ version_info call = last_version_info_ (base s))
     ∨ (∃ default factory message,
           default_config source = Some default
           ∧ getFactoryByType default = Some factory
           ∧ getFactoryType default ∈ required
           ∧ translateDefaultConfig default factory = Returned message
           ∧ createFilterFactoryFromProto factory message stat_prefix
             = Returned (config call)
           ∧ version_info call = ""
           ∧ ∀ s, subscriptions_ this !! id = Some s →
                  last_config_ (base s) = None ∨ last_type_url_ (base s) ∉ required)).
Proof.
  intros c id required. unfold c.
  rewrite createDynamicFilterConfigProvider_steps.
  set (p := provider (new_provider this source name)).
  set (s0 := found this (config_source source) name stat_prefix).
  assert (∀ t, t ∈ require_type_urls_ p ↔ t ∈ required) as Hrequired.
  { intros t. unfold p. cbn [provider new_provider require_type_urls_].
    apply elem_of_remove_dups. }
  assert (∀ s, subscriptions_ this !! id = Some s → s0 = s) as Hexisting.
  { intros s Hs. unfold s0, found. fold id. by rewrite Hs. }
  destruct ((apply_last_config (register s0 p) p).1.2) eqn:Hvalid.
  - rewrite apply_default_config_valid. cbn [applied]. rewrite app_nil_r.
    apply apply_last_config_valid in Hvalid as (config & Hconfig & Hurl & ->).
    intros ->%list_elem_of_singleton. split; [done|]. split; [done|]. left.
    cbn [register set_base base set_providers last_config_ last_type_url_
         last_version_info_] in *.
    destruct (subscriptions_ this !! id) as [s|] eqn:Hs.
    + exists s. rewrite <- (Hexisting s eq_refl). repeat split; try done.
      by apply Hrequired.
    + unfold s0, found in Hconfig. fold id in Hconfig. by rewrite Hs in Hconfig.
  - apply apply_last_config_invalid in Hvalid as [-> Hnone].
    unfold apply_default_config.
    destruct (default_config source) as [default|] eqn:Hdefault;
      [|by intros ?%elem_of_nil].
    destruct (getFactoryByType default) as [factory|] eqn:Hfactory;
      [|by intros ?%elem_of_nil].
    unfold validateTypeUrl.
    destruct (decide (getFactoryType default ∈ require_type_urls_ p)) as [Hurl|];
      [|by intros ?%elem_of_nil].
    cbn [mbind Outcome_bind].
    destruct (translateDefaultConfig default factory) as [message|] eqn:Hmessage;
      [|by intros ?%elem_of_nil].
    cbn [mbind Outcome_bind].
    destruct (createFilterFactoryFromProto factory message stat_prefix)
      as [config|] eqn:Hcb; [|by intros ?%elem_of_nil].
    cbn [mbind Outcome_bind mret Outcome_ret applied app].
    intros ->%list_elem_of_singleton. split; [done|]. split; [done|]. right.
    exists default, factory, message. repeat split; try done.
    + by apply Hrequired.
    + intros s Hs. rewrite <- (Hexisting s Hs).
      cbn [register set_base base set_providers last_config_ last_type_url_] in Hnone.
      destruct Hnone as [?|Hno]; [by left|right]. intros ?. by apply Hno, Hrequired.
Qed.

End WithContext.


Section Conflicts.
Context {ConfigSource Factory Message Cb : Type}.
Context `{FactoryContext Factory Message Cb}.
Context `{ManagerContext ConfigSource Factory Message}.
Implicit Types (this : FilterConfigProviderManagerImpl Cb).
Implicit Types (s : Subscription Cb).

(** *** The conflict counter *)

(** Whether a subscription holds a configuration of a type URL that is
    not among [required]. *)
Definition conflicts s (required : list string) : bool :=
  match last_config_ (base s) with
  | Some _ => bool_decide (last_type_url_ (base s) ∉ required)
  | None => false
  end.

Lemma apply_last_config_conflict s (p : Provider) :
  config_conflict_ (apply_last_config s p).1.1
  = config_conflict_ s + (if conflicts s (require_type_urls_ p) then 1 else 0).
Proof.
  unfold apply_last_config, conflicts, validateTypeUrl.
  destruct (last_config_ (base s)); simpl; [|lia].
  destruct (decide (last_type_url_ (base s) ∈ require_type_urls_ p)).
  - rewrite bool_decide_eq_false_2 by (by intros ?). simpl. lia.
  - rewrite bool_decide_eq_true_2 by done. simpl. lia.
Qed.

(** X16. The conflict counter of a subscription counts the providers
    that were made for it while it held a configuration they do not
    accept: making a provider on a subscription that has other providers
    increments [config_conflict_] by one if the subscription holds a
    configuration whose type URL is not among those the new provider
    requires, and leaves it as it is otherwise, whether the creation
    returns or throws. *)
Theorem conflicting_creation_is_counted this
    (source : ExtensionConfigSource ConfigSource) (name stat_prefix : string) s :
  well_formed this →
  subscriptions_ this !! subscription_id (config_source source) name = Some s →
  let c := createDynamicFilterConfigProvider this source name stat_prefix in
  ∃ s', subscriptions_ (manager c) !! subscription_id (config_source source) name = Some s'
        ∧ config_conflict_ s'
          = config_conflict_ s
            + (if conflicts s (typeUrlToDescriptorFullName <$> type_urls source)
               then 1 else 0).
Proof.
  intros Hwf Hs c. unfold c. rewrite createDynamicFilterConfigProvider_steps.
  set (id := subscription_id (config_source source) name) in *.
  set (p := provider (new_provider this source name)).
  assert (found this (config_source source) name stat_prefix = s) as Hfound
    by (unfold found; fold id; by rewrite Hs).
  rewrite Hfound.
  assert (conflicts s (typeUrlToDescriptorFullName <$> type_urls source)
          = conflicts (register s p) (require_type_urls_ p)) as ->.
  { unfold conflicts. cbn [register set_base base set_providers last_config_
      last_type_url_]. destruct (last_config_ (base s)); [|done].
    apply bool_decide_ext. unfold p. cbn [provider new_provider require_type_urls_].
    by rewrite elem_of_remove_dups. }
  pose proof (apply_last_config_conflict (register s p) p) as Hcount.
  change (config_conflict_ (register s p)) with (config_conflict_ s) in Hcount.
  destruct (apply_last_config_same (register s p) p) as (Hbase & Hsid & _ & _).
  unfold registered. fold id p. rewrite Hfound.
  set (s2 := (apply_last_config (register s p) p).1.1) in *.
  destruct (apply_default_config _ _ _ _ _); cbn [manager subscriptions_].
  - exists s2. by rewrite lookup_insert_eq.
  - destruct (Hwf _ _ Hs) as (Hsome & Hfresh & _ & Hid & _).
    unfold destroyProvider.
    change (subscription_ (new_provider this source name)) with id.
    change (provider (new_provider this source name)) with p.
    cbn [subscriptions_]. rewrite lookup_insert_eq, Hbase.
    cbn [register set_base base set_providers filter_config_providers_ next_provider].
    rewrite filter_app, (filter_others _ (provider_id p) Hfresh).
    rewrite filter_cons_False by (simpl; intros Hne; by apply Hne).
    rewrite filter_nil, app_nil_r.
    destruct (filter_config_providers_ (base s)) as [|q qs] eqn:Hps; [done|].
    cbn [subscriptions_]. rewrite lookup_insert_eq. eexists. split; [done|].
    exact Hcount.
Qed.

End Conflicts.

(** *** The code run on the test factory context *)

(** The part of a type URL after its last "/", if it has one. *)
Fixpoint after_last_slash (s : string) : option string :=
  match s with
  | EmptyString => None
  | String c rest =>
      match after_last_slash rest with
      | Some name => Some name
      | None => if decide (c = "/"%char) then Some rest else None
      end
  end.

(** Config sources are given by their text and hashed by its checksum;
    a factory is known by the type URL of the configuration, with the
    empty type URL for an unknown one. *)
#[global] Instance test_manager_context : ManagerContext string string string := {|
  hash_config_source source := Z.to_N (checksum source);
  typeUrlToDescriptorFullName type_url := default type_url (after_last_slash type_url);
  getFactoryByType a := if decide (type_url a = "") then None else Some (type_url a);
  translateDefaultConfig a factory :=
    if decide (value a = "") then Thrown "Unable to unpack" else Returned (value a)
|}.

Definition router_any : Any :=
  {| type_url := "envoy.extensions.filters.http.router.v3.Router";
     value := "dynamic_stats: true" |}.

(** An ECDS source for a router filter, with warming. *)
Definition router_source : ExtensionConfigSource string :=
  {| config_source := "ads: {}";
     default_config := None;
     apply_default_config_without_warming := false;
     type_urls := ["type.googleapis.com/envoy.extensions.filters.http.router.v3.Router"] |}.

(** The same with a default configuration of no known factory. *)
Definition unknown_default_source : ExtensionConfigSource string :=
  {| config_source := "ads: {}";
     default_config := Some {| type_url := ""; value := "" |};
     apply_default_config_without_warming := true;
     type_urls := ["type.googleapis.com/envoy.extensions.filters.http.router.v3.Router"] |}.

(** A source that takes health check filters only. *)
Definition health_check_source : ExtensionConfigSource string :=
  {| config_source := "ads: {}";
     default_config := None;
     apply_default_config_without_warming := false;
     type_urls :=
       ["type.googleapis.com/envoy.extensions.filters.http.health_check.v3.HealthCheck"] |}.

Definition empty_manager : FilterConfigProviderManagerImpl string := empty.

(** A subscription that holds the router configuration. *)
Definition router_subscription : Subscription string :=
  {| base := sub (onConfigUpdate fresh_subscription [router_config "1"] "1");
     subscription_id_ := "0.foo"; started_ := true; started_with := [["foo"]];
     config_fail_ := 0; config_conflict_ := 0 |}.

Example create_with_warming :
  let c := createDynamicFilterConfigProvider empty_manager router_source "foo" "xds." in
  created c = Returned (new_provider empty_manager router_source "foo")
  ∧ require_type_urls_ (provider (new_provider empty_manager router_source "foo"))
    = ["envoy.extensions.filters.http.router.v3.Router"]
  ∧ init_targets c
    = [SubscriptionInitTarget (subscription_id (config_source router_source) "foo")]
  ∧ applied c = []
  ∧ size (subscriptions_ (manager c)) = 1.
Proof. repeat split; by vm_compute. Qed.

(** A provider for health check filters on a subscription that holds a
    router configuration: the configuration is not applied and the
    conflict is counted. *)
Example conflicting_provider_is_counted :
  let c1 := createDynamicFilterConfigProvider empty_manager router_source "foo" "xds." in
  let id := subscription_id (config_source router_source) "foo" in
  let d := deliver_to (manager c1) id (SotwUpdate [router_config "1"] "1") in
  let c2 := createDynamicFilterConfigProvider d.1 health_check_source "foo" "xds." in
  length d.2 = 1
  ∧ is_thrown (created c2) = false
  ∧ applied c2 = []
  ∧ config_conflict_ <$> subscriptions_ (manager c2) !! id = Some 1.
Proof. repeat split; by vm_compute. Qed.

Lemma applied_config_is_never_dropped_witness :
  let evs := [DeltaUpdate [] ["foo"]; SotwUpdate [] "2"; UpdateFailed FetchTimedout] in
  is_Some (last_config_ (base router_subscription))
  ∧ is_Some (last_config_ (base (deliver_all router_subscription evs)))
  ∧ filter_config_name_ (base (deliver_all router_subscription evs)) = "foo".
Proof.
  intros evs.
  assert (is_Some (last_config_ (base router_subscription))) as Hsome
    by (eexists; by vm_compute).
  split; [exact Hsome|].
  destruct (applied_config_is_never_dropped router_subscription evs Hsome)
    as (Hkept & Hname & _).
  split; [exact Hkept|]. etrans; [exact Hname|]. by vm_compute.
Defined.

Lemma first_answer_ends_warming_witness :
  let s := new_subscription "foo" "xds." "0.foo" : Subscription string in
  init_target_ready (base s) = false
  ∧ init_target_ready (base (deliver_all s [SotwUpdate [] "1"; DeltaUpdate [] []])) = true.
Proof.
  intros s. split; [reflexivity|].
  apply (first_answer_ends_warming s (SotwUpdate [] "1") [DeltaUpdate [] []]).
  intros removed. discriminate.
Defined.

Lemma failed_creation_witness :
  let c := createDynamicFilterConfigProvider empty_manager unknown_default_source
             "foo" "xds." in
  created c = Thrown (no_default_factory "foo" {| type_url := ""; value := "" |})
  ∧ bases (manager c) = bases empty_manager
  ∧ applied c = [].
Proof.
  intros c.
  assert (created c = Thrown (no_default_factory "foo" {| type_url := ""; value := "" |}))
    as Hthrown by (by vm_compute).
  split; [exact Hthrown|].
  apply (failed_creation_leaves_no_trace empty_manager unknown_default_source
           "foo" "xds." _ (map_Forall_empty _) Hthrown).
Defined.

Lemma create_then_destroy_witness :
  let c := createDynamicFilterConfigProvider empty_manager router_source "foo" "xds." in
  let p := new_provider empty_manager router_source "foo" in
  created c = Returned p
  ∧ bases (destroyProvider (manager c) p) = bases empty_manager.
Proof.
  intros c p.
  assert (created c = Returned p) as Hcreated by (by vm_compute).
  split; [exact Hcreated|].
  apply (create_then_destroy_restores_the_subscriptions empty_manager router_source
           "foo" "xds." p (map_Forall_empty _) Hcreated).
Defined.

Lemma providers_share_witness :
  let c1 := createDynamicFilterConfigProvider empty_manager router_source "foo" "xds." in
  let c2 := createDynamicFilterConfigProvider (manager c1) health_check_source
              "foo" "listener." in
  let p1 := new_provider empty_manager router_source "foo" in
  let p2 := new_provider (manager c1) health_check_source "foo" in
  created c1 = Returned p1
  ∧ created c2 = Returned p2
  ∧ subscription_ p2 = subscription_ p1
  ∧ dom (subscriptions_ (manager c2)) = dom (subscriptions_ (manager c1)).
Proof.
  intros c1 c2 p1 p2.
  assert (created c1 = Returned p1) as H1 by (by vm_compute).
  assert (created c2 = Returned p2) as H2 by (by vm_compute).
  split; [exact H1|]. split; [exact H2|].
  destruct (providers_of_one_source_share_the_subscription empty_manager
              router_source health_check_source "foo" "xds." "listener." p1 p2
              eq_refl H1 H2) as (Hsame & _ & Hdom & _).
  by split.
Defined.

Lemma late_provider_witness :
  let c1 := createDynamicFilterConfigProvider empty_manager router_source "foo" "xds." in
  let id := subscription_id (config_source router_source) "foo" in
  let d := deliver_to (manager c1) id (SotwUpdate [router_config "1"] "1") in
  let call := {| to_provider := 0;
                 config := "envoy.extensions.filters.http.router.v3.Router(dynamic_stats: true)";
                 version_info := "1" |} in
  let c2 := createDynamicFilterConfigProvider d.1 router_source "foo" "listener." in
  call ∈ d.2
  ∧ applied c2 = [{| to_provider := 1; config := config call; version_info := "1" |}].
Proof.
  intros c1 id d call c2.
  assert (call ∈ d.2) as Hcall by (vm_compute; by left).
  split; [exact Hcall|].
  apply (late_provider_starts_with_the_last_update (manager c1) router_source
           "foo" "listener." (router_config "1") "1" call Hcall).
  vm_compute. by left.
Defined.

Lemma new_provider_config_witness :
  let this := {| subscriptions_ := {["0.foo" := router_subscription]};
                 next_provider := 2 |} in
  let source := {| config_source := "";
                   default_config := Some router_any;
                   apply_default_config_without_warming := true;
                   type_urls := ["envoy.extensions.filters.http.router.v3.Router"] |} in
  let c1 := createDynamicFilterConfigProvider this source "foo" "listener." in
  let c2 := createDynamicFilterConfigProvider this source "bar" "listener." in
  let last := {| to_provider := 2;
                 config := "envoy.extensions.filters.http.router.v3.Router(dynamic_stats: true)";
                 version_info := "1" |} in
  let default := {| to_provider := 2;
                    config := "envoy.extensions.filters.http.router.v3.Router(dynamic_stats: true)";
                    version_info := "" |} in
  last ∈ applied c1 ∧ applied c1 = [last]
  ∧ default ∈ applied c2 ∧ applied c2 = [default].
Proof.
  intros this source c1 c2 last default.
  assert (last ∈ applied c1) as H1 by (vm_compute; by left).
  assert (default ∈ applied c2) as H2 by (vm_compute; by left).
  split; [exact H1|]. split.
  { apply (new_provider_is_given_an_accepted_config this source "foo" "listener." last H1). }
  split; [exact H2|].
  apply (new_provider_is_given_an_accepted_config this source "bar" "listener." default H2).
Defined.

(** A provider for health check filters on the subscription that holds
    the router configuration. *)
Lemma conflicting_creation_witness :
  let this := {| subscriptions_ := {["0.foo" := router_subscription]};
                 next_provider := 2 |} in
  let source := {| config_source := "";
                   default_config := None;
                   apply_default_config_without_warming := false;
                   type_urls := ["envoy.extensions.filters.http.health_check.v3.HealthCheck"] |} in
  let c := createDynamicFilterConfigProvider this source "foo" "listener." in
  let id := subscription_id (config_source source) "foo" in
  well_formed this
  ∧ subscriptions_ this !! id = Some router_subscription
  ∧ ∃ s', subscriptions_ (manager c) !! id = Some s'
          ∧ config_conflict_ s'
            = config_conflict_ router_subscription
              + (if conflicts router_subscription
                      (typeUrlToDescriptorFullName <$> type_urls source)
                 then 1 else 0).
Proof.
  intros this source c id.
  assert (well_formed this) as Hwf.
  { apply map_Forall_singleton. repeat split; try done.
    - apply Forall_singleton. simpl. lia.
    - simpl. apply NoDup_singleton. }
  assert (subscriptions_ this !! id = Some router_subscription) as Hs
    by (by vm_compute).
  split; [exact Hwf|]. split; [exact Hs|].
  apply (conflicting_creation_is_counted this source "foo" "listener."
           router_subscription Hwf Hs).
Defined.

(** *** Destroyed providers *)

Section Destroyed.
Context {ConfigSource Factory Message Cb : Type}.
Context `{FactoryContext Factory Message Cb}.
Context `{ManagerContext ConfigSource Factory Message}.
Implicit Types (this : FilterConfigProviderManagerImpl Cb).
Implicit Types (s : Subscription Cb).

Lemma deliver_calls_registered s (ev : SubscriptionEvent) (c : ProviderUpdate Cb) :
  c ∈ (deliver s ev).2 →
  ∃ p, p ∈ filter_config_providers_ (base s) ∧ to_provider c = provider_id p.
Proof.
  destruct ev as [rs v|added removed|reason]; simpl.
  - apply onConfigUpdate_calls_registered.
  - unfold onConfigUpdateDelta. destruct added as [|first rest];
      [by intros ?%elem_of_nil|]. apply onConfigUpdate_calls_registered.
  - by intros ?%elem_of_nil.
Qed.

(** X18. A provider that has been destroyed is not called again: no
    update that its subscription delivers afterwards reaches it. (Its
    destructor takes it out of [filter_config_providers_], which holds
    plain pointers.) *)
Theorem destroyed_provider_is_not_called this
    (p : DynamicFilterConfigProviderImpl) (ev : SubscriptionEvent)
    (c : ProviderUpdate Cb) :
  well_formed this →
  c ∈ (deliver_to (destroyProvider this p) (subscription_ p) ev).2 →
  to_provider c ≠ provider_id (provider p).
Proof.
  intros Hwf. unfold destroyProvider.
  destruct (subscriptions_ this !! subscription_ p) as [s|] eqn:Hs.
  - destruct (Hwf _ _ Hs) as (_ & _ & _ & Hid & _).
    set (f := λ q, provider_id q ≠ provider_id (provider p)).
    destruct (filter f (filter_config_providers_ (base s))) as [|q qs] eqn:Hps.
    + unfold deliver_to. cbn [subscriptions_]. rewrite Hid, lookup_delete_eq.
      by intros ?%elem_of_nil.
    + unfold deliver_to. cbn [subscriptions_ snd]. rewrite lookup_insert_eq.
      intros (x & Hx & ->)%deliver_calls_registered.
      cbn [set_base base set_providers filter_config_providers_] in Hx.
      rewrite <- Hps in Hx. by apply list_elem_of_filter in Hx as [? _].
  - unfold deliver_to. rewrite Hs. by intros ?%elem_of_nil.
Qed.

End Destroyed.

(** Two providers on one subscription; the first is destroyed, and an
    update calls the second only. *)
Lemma destroyed_provider_witness :
  let c1 := createDynamicFilterConfigProvider empty_manager router_source "foo" "xds." in
  let c2 := createDynamicFilterConfigProvider (manager c1) router_source "foo" "xds." in
  let p1 := new_provider empty_manager router_source "foo" in
  let this := manager c2 in
  let call := {| to_provider := 1;
                 config := "envoy.extensions.filters.http.router.v3.Router(dynamic_stats: true)";
                 version_info := "1" |} in
  let d := deliver_to (destroyProvider this p1) (subscription_ p1)
             (SotwUpdate [router_config "1"] "1") in
  well_formed this ∧ d.2 = [call] ∧ to_provider call ≠ provider_id (provider p1).
Proof.
  intros c1 c2 p1 this call d.
  assert (well_formed this) as Hwf.
  { unfold this, c2, c1.
    do 2 (rewrite createDynamicFilterConfigProvider_steps; cbn [manager]).
    apply registered_well_formed, registered_well_formed, map_Forall_empty. }
  assert (d.2 = [call]) as Hcalls by (by vm_compute).
  split; [exact Hwf|]. split; [exact Hcalls|].
  apply (destroyed_provider_is_not_called this p1 (SotwUpdate [router_config "1"] "1")
           call Hwf).
  fold d. rewrite Hcalls. by left.
Defined.

End ProviderManager.

(** ** CallbackManager *)

Module CallbackManager.

(** A handle is the generated identifier of a registry entry. *)
Definition CallbackHandle := nat.

(** What running a callback with an argument does: the values it passes
    to the test's [called], and the handles it resets while it runs (the
    third callback of [CallbackManagerTest.All] resets its own). *)
Definition Callback : Type := Z → list Z * list CallbackHandle.

(** Modelled from the spec: the callback registry behind
    [common/common/callback_impl.h], which is not among the sources; the
    design notes describe "an explicit registry keyed by a generated
    identifier", in which a handle's destruction or explicit cancel
    "removes the registry entry". Entries are kept in the order they were
    added. *)
Record CallbackManager := {
  callbacks_ : list (CallbackHandle * Callback);
  next_handle : CallbackHandle
}.

Definition empty : CallbackManager := {| callbacks_ := []; next_handle := 0 |}.

(** Modelled from the spec: [CallbackManager::add], missing with
    callback_impl.h; it registers the callback under a fresh identifier
    and returns the handle. *)
Definition add (m : CallbackManager) (cb : Callback) : CallbackManager * CallbackHandle :=
  ({| callbacks_ := callbacks_ m ++ [(next_handle m, cb)];
      next_handle := S (next_handle m) |},
   next_handle m).

(** Modelled from the spec: removing a handle ([handle.reset()], or
    [cancel()]), missing with callback_impl.h; it "removes the registry
    entry", and "a second removal is a no-op, never an error". *)
Definition remove (m : CallbackManager) (h : CallbackHandle) : CallbackManager :=
  {| callbacks_ := filter (λ e, e.1 ≠ h) (callbacks_ m);
     next_handle := next_handle m |}.

Definition registered (m : CallbackManager) (h : CallbackHandle) : bool :=
  bool_decide (h ∈ (callbacks_ m).*1).

(** An invocation: which entry ran, and what it passed to [called]. *)
Definition Invocation : Type := CallbackHandle * list Z.

(** Modelled from the spec: [CallbackManager::runCallbacks], missing with
    callback_impl.h; the entries present when the run starts are visited
    in order, and an entry removed meanwhile is not invoked. *)
Fixpoint run_entries (m : CallbackManager) (todo : list (CallbackHandle * Callback))
    (arg : Z) : CallbackManager * list Invocation :=
  match todo with
  | [] => (m, [])
  | (h, cb) :: todo =>
      if registered m h then
        let '(out, resets) := cb arg in
        let m' := foldl remove m resets in
        let '(m'', rest) := run_entries m' todo arg in
        (m'', (h, out) :: rest)
      else run_entries m todo arg
  end.

Definition runCallbacks (m : CallbackManager) (arg : Z) : CallbackManager * list Invocation :=
  run_entries m (callbacks_ m) arg.

(** Sequences of operations on a manager, and the invocations they cause. *)
Inductive Op :=
| OpAdd (cb : Callback)
| OpRemove (h : CallbackHandle)
| OpRunCallbacks (arg : Z).

Fixpoint exec (m : CallbackManager) (ops : list Op) : CallbackManager * list Invocation :=
  match ops with
  | [] => (m, [])
  | OpAdd cb :: ops => exec (add m cb).1 ops
  | OpRemove h :: ops => exec (remove m h) ops
  | OpRunCallbacks arg :: ops =>
      let '(m', out) := runCallbacks m arg in
      let '(m'', rest) := exec m' ops in
      (m'', out ++ rest)
  end.

(** Every registered handle was issued by this manager. *)
Definition issued (m : CallbackManager) : Prop :=
  ∀ h, h ∈ (callbacks_ m).*1 → h < next_handle m.

(** *** [CallbackManagerTest.All] *)

Definition test_all : list Invocation * list Invocation * list Invocation * list Invocation :=
  let '(m, handle1) := add empty (λ arg, ([arg], [])) in
  let '(m, handle2) := add m (λ arg, ([arg * 2]%Z, [])) in
  let '(m, run1) := runCallbacks m 5 in
  let m := remove m handle1 in
  let '(m, run2) := runCallbacks m 5 in
  let handle3 := next_handle m in
  let '(m, _) := add m (λ arg, ([arg * 4]%Z, [handle3])) in
  let '(m, run3) := runCallbacks m 5 in
  let '(m, run4) := runCallbacks m 5 in
  (run1, run2, run3, run4).

(** [called(5), called(10)]; after [handle1.reset()], [called(10)]; with
    the third callback, [called(10), called(20)]; and [called(10)] once it
    has reset itself. *)
Example test_all_expectations :
  test_all = ([(0, [5%Z]); (1, [10%Z])], [(1, [10%Z])],
              [(1, [10%Z]); (2, [20%Z])], [(1, [10%Z])]).
Proof. reflexivity. Qed.

(** *** Removal *)

Lemma remove_callbacks m h : h ∉ (callbacks_ (remove m h)).*1.
Proof.
  unfold remove; simpl. intros ([h' cb] & Heq & Hin)%list_elem_of_fmap.
  apply list_elem_of_filter in Hin as [Hne _]. simpl in *. by subst.
Qed.

Lemma remove_remove m h : remove (remove m h) h = remove m h.
Proof.
  unfold remove; simpl. f_equal.
  induction (callbacks_ m) as [|e es IH]; [done|].
  destruct (decide (e.1 ≠ h)).
  - rewrite !filter_cons_True by done. by f_equal.
  - by rewrite !filter_cons_False by done.
Qed.

Lemma remove_subset m h h' :
  h' ∈ (callbacks_ (remove m h)).*1 → h' ∈ (callbacks_ m).*1.
Proof.
  unfold remove; simpl. intros (e & -> & Hin)%list_elem_of_fmap.
  apply list_elem_of_filter in Hin as [_ Hin]. apply list_elem_of_fmap. eauto.
Qed.

Lemma foldl_remove_subset m hs h' :
  h' ∈ (callbacks_ (foldl remove m hs)).*1 → h' ∈ (callbacks_ m).*1.
Proof.
  revert m. induction hs as [|h hs IH]; intros m; simpl; [done|].
  intros Hin. eapply remove_subset, IH, Hin.
Qed.

Lemma foldl_remove_next m hs : next_handle (foldl remove m hs) = next_handle m.
Proof. revert m. induction hs as [|h hs IH]; intros m; simpl; [done|]. by rewrite IH. Qed.

(** A run invokes only entries that are registered when it reaches them;
    it registers nothing and issues no handle. *)
Lemma run_entries_spec m todo arg :
  let r := run_entries m todo arg in
  (∀ h, h ∈ r.2.*1 → h ∈ (callbacks_ m).*1)
  ∧ (∀ h, h ∈ (callbacks_ r.1).*1 → h ∈ (callbacks_ m).*1)
  ∧ next_handle r.1 = next_handle m.
Proof.
  revert m. induction todo as [|[h cb] todo IH]; intros m; simpl.
  { split; [by intros ? ?%elem_of_nil|done]. }
  unfold registered. destruct (bool_decide_reflect (h ∈ (callbacks_ m).*1)) as [Hreg|Hreg];
    [|apply IH].
  destruct (cb arg) as [out resets].
  specialize (IH (foldl remove m resets)).
  destruct (run_entries (foldl remove m resets) todo arg) as [m'' rest].
  simpl in *. destruct IH as (Hinv & Hreg' & Hnext). split; [|split].
  - intros h' [->|Hin]%elem_of_cons; [done|].
    eapply foldl_remove_subset, Hinv, Hin.
  - intros h' Hin. eapply foldl_remove_subset, Hreg', Hin.
  - by rewrite Hnext, foldl_remove_next.
Qed.

Lemma issued_add m cb : issued m → issued (add m cb).1.
Proof.
  intros Hm h. unfold add; simpl. rewrite fmap_app, elem_of_app. simpl.
  intros [Hin|Hin%list_elem_of_singleton]; [apply Hm in Hin|]; lia.
Qed.

(** Once removed, a handle issued by the manager is never invoked
    again, whatever is done to the manager afterwards. *)
Lemma exec_never_invokes m ops h :
  issued m → h < next_handle m → h ∉ (callbacks_ m).*1 →
  h ∉ (exec m ops).2.*1.
Proof.
  revert m. induction ops as [|[cb|h'|arg] ops IH]; intros m Hm Hlt Hout; simpl.
  - apply not_elem_of_nil.
  - apply IH; [by apply issued_add|simpl; lia|].
    unfold add; simpl. rewrite fmap_app, elem_of_app. simpl.
    intros [Hin|Hin%list_elem_of_singleton]; [done|lia].
  - apply IH; [|done|].
    + intros x Hx. apply Hm. by eapply remove_subset.
    + intros Hin. by eapply Hout, remove_subset.
  - pose proof (run_entries_spec m (callbacks_ m) arg) as (Hinv & Hreg & Hnext).
    unfold runCallbacks. destruct (run_entries m (callbacks_ m) arg) as [m' out].
    simpl in *. specialize (IH m').
    destruct (exec m' ops) as [m'' rest]. simpl in *.
    rewrite fmap_app, elem_of_app. intros [Hin|Hin].
    + by apply Hout, Hinv.
    + revert Hin. apply IH.
      * intros x Hx. rewrite Hnext. by apply Hm, Hreg.
      * by rewrite Hnext.
      * intros Hin. by apply Hout, Hreg.
Qed.

End CallbackManager.

(** ** Resource names *)

Module XdsResourceIdentifier.

Local Open Scope char_scope.

(** Modelled from the spec: the string operations of the resolver, whose
    source is missing: [s] without its prefix [p], when it has it. *)
Fixpoint strip_prefix (p s : string) : option string :=
  match p, s with
  | EmptyString, _ => Some s
  | String a p', String b s' => if decide (a = b) then strip_prefix p' s' else None
  | String _ _, EmptyString => None
  end.

(** [s] cut at the first [c]: what is before and what is after. *)
Fixpoint cut (c : ascii) (s : string) : option (string * string) :=
  match s with
  | EmptyString => None
  | String a s' =>
      if decide (a = c) then Some (EmptyString, s')
      else '(before, after) ← cut c s'; Some (String a before, after)
  end.

(** [s] cut at the last [c]. *)
Fixpoint cut_last (c : ascii) (s : string) : option (string * string) :=
  match s with
  | EmptyString => None
  | String a s' =>
      match cut_last c s' with
      | Some (before, after) => Some (String a before, after)
      | None => if decide (a = c) then Some (EmptyString, s') else None
      end
  end.

(** The pieces of [s] between the occurrences of [c]. *)
Fixpoint split (c : ascii) (s : string) : list string :=
  match s with
  | EmptyString => [EmptyString]
  | String a s' =>
      if decide (a = c) then EmptyString :: split c s'
      else match split c s' with
           | piece :: pieces => String a piece :: pieces
           | [] => [String a EmptyString]
           end
  end.

(** Modelled from the spec: the structured form of a resource name
    ("an authority, a type segment, a path, and ordered query
    parameters"); the resolver's source (xds_resource.h) is not among
    the sources. The parameters are in the order of the string. *)
Record Urn := {
  authority : string;
  resource_type : string;
  id : string;
  context_params : list (string * string)
}.

Definition with_params (u : Urn) (ps : list (string * string)) : Urn :=
  {| authority := authority u; resource_type := resource_type u; id := id u;
     context_params := ps |}.

Definition with_id (u : Urn) (path : string) : Urn :=
  {| authority := authority u; resource_type := resource_type u; id := path;
     context_params := context_params u |}.

(** Modelled from the spec: the query string as "ordered query
    parameters", [k=v] separated by [&]; missing with xds_resource.h. *)
Definition decode_params (query : string) : option (list (string * string)) :=
  mapM (cut "=") (split "&" query).

(** Modelled from the spec: parsing a resource name of the URI form,
    [xdstp://authority/type/path?k=v&k=v], missing with xds_resource.h. A
    name that is not of that form has no structure ("malformed URIs are
    treated as opaque names, not rejected"). *)
Definition decodeUrn (name : string) : option Urn :=
  rest ← strip_prefix "xdstp://" name;
  let '(body, query) :=
    match cut "?" rest with
    | Some (body, query) => (body, Some query)
    | None => (rest, None)
    end in
  '(authority, path) ← cut "/" body;
  '(resource_type, id) ← cut "/" path;
  params ← match query with
            | Some query => decode_params query
            | None => Some []
            end;
  Some {| authority := authority; resource_type := resource_type; id := id;
          context_params := params |}.

(** Modelled from the spec: a parameter and the query string written
    back; missing with xds_resource.h. *)
Definition encode_param (kv : string * string) : string := kv.1 +:+ "=" +:+ kv.2.

Definition encode_params (ps : list (string * string)) : string :=
  match ps with
  | [] => ""
  | _ => "?" +:+ StrJoin (encode_param <$> ps) "&"
  end.

(** Modelled from the spec: writing a structured name back as a string,
    missing with xds_resource.h. *)
Definition encodeUrn (u : Urn) : string :=
  "xdstp://" +:+ authority u +:+ "/" +:+ resource_type u +:+ "/" +:+ id u
    +:+ encode_params (context_params u).

(** Modelled from the spec: the order of the canonicalization rule, on
    the keys, "lexicographically"; here by the codes of the characters. *)
Definition key_le (p q : string * string) : Prop := String.le p.1 q.1.

#[global] Instance key_le_dec : RelDecision key_le.
Proof. intros p q. unfold key_le. apply _. Defined.
#[global] Instance key_le_trans : Transitive key_le.
Proof. intros p q r. unfold key_le. apply transitivity. Qed.
#[global] Instance key_le_total : Total key_le.
Proof. intros p q. unfold key_le. apply total, _. Qed.

(** Modelled from the spec: the canonicalization rule, "query parameters
    are sorted lexicographically by key before being compared or
    transmitted". *)
Definition sort_params (ps : list (string * string)) : list (string * string) :=
  merge_sort key_le ps.

(** Modelled from the spec: "when addNodeContextParams is set, merge the
    resolver's current node context parameters into the query string". A
    parameter of the name itself is kept over a node parameter of the
    same key. *)
Definition effective_params (node_context : gmap string string) (add_node_context : bool)
    (ps : list (string * string)) : list (string * string) :=
  if add_node_context then
    ps ++ filter (λ kv, kv.1 ∉ ps.*1) (map_to_list node_context)
  else ps.

(** Modelled from the spec: the canonical form of a requested name;
    opaque names stand for themselves. *)
Definition resolve (node_context : gmap string string) (add_node_context : bool)
    (name : string) : string :=
  match decodeUrn name with
  | Some u =>
      encodeUrn (with_params u
        (sort_params (effective_params node_context add_node_context (context_params u))))
  | None => name
  end.

(** Modelled from the spec: the canonical form of a name received from
    the control plane, to which no node context is added. *)
Definition canonicalize (name : string) : string := resolve ∅ false name.

(** Modelled from the spec: the collection a resource belongs to, the
    name with its last path segment replaced by the wildcard ("path ends
    in [/*]"). *)
Definition glob_of (u : Urn) : Urn :=
  with_id u match cut_last "/" (id u) with
            | Some (collection, _) => collection +:+ "/*"
            | None => "*"
            end.

Definition glob_name (name : string) : option string :=
  u ← decodeUrn name; Some (encodeUrn (glob_of u)).

Inductive NameKind := OpaqueName | SingletonUri | GlobCollectionUri.

(** Modelled from the spec: the three kinds of resource names of the
    resolver's contract. *)
Definition classify (name : string) : NameKind :=
  match decodeUrn name with
  | None => OpaqueName
  | Some u =>
      match cut_last "/" (id u) with
      | Some (_, "*"%string) => GlobCollectionUri
      | Some _ => SingletonUri
      | None => if decide (id u = "*"%string) then GlobCollectionUri else SingletonUri
      end
  end.

(** Two names that are the same but for the order of their query
    parameters, which form a mapping (no key occurs twice). *)
Definition same_but_param_order (name1 name2 : string) : Prop :=
  ∃ u1 u2, decodeUrn name1 = Some u1 ∧ decodeUrn name2 = Some u2
    ∧ authority u1 = authority u2 ∧ resource_type u1 = resource_type u2
    ∧ id u1 = id u2
    ∧ context_params u1 ≡ₚ context_params u2
    ∧ NoDup (context_params u1).*1.

(** Whether the character [c] occurs in [s]. *)
Fixpoint occurs (c : ascii) (s : string) : bool :=
  match s with
  | EmptyString => false
  | String a s' => bool_decide (a = c) || occurs c s'
  end.

(** A parameter that the query string can hold: no [=] in the key, no
    [&] in the key or in the value. *)
Definition clean_param (kv : string * string) : Prop :=
  occurs "=" kv.1 = false ∧ occurs "&" kv.1 = false ∧ occurs "&" kv.2 = false.

(** A structured name whose parts hold no separator of the URI form:
    such are the names that [decodeUrn] returns. *)
Definition clean (u : Urn) : Prop :=
  occurs "/" (authority u) = false ∧ occurs "?" (authority u) = false
  ∧ occurs "/" (resource_type u) = false ∧ occurs "?" (resource_type u) = false
  ∧ occurs "?" (id u) = false
  ∧ Forall clean_param (context_params u).

(** Node context parameters that the query string can hold. *)
Definition clean_context (node_context : gmap string string) : Prop :=
  map_Forall (λ k v, clean_param (k, v)) node_context.

(** *** The test names *)

Example canonicalize_singleton :
  canonicalize
    "xdstp://foo/envoy.config.endpoint.v3.ClusterLoadAssignment/bar/baz?thing=some&some=thing"
  = "xdstp://foo/envoy.config.endpoint.v3.ClusterLoadAssignment/bar/baz?some=thing&thing=some"%string.
Proof. by vm_compute. Qed.

Example resolve_glob_with_node_context :
  resolve {["foo"%string := "bar"%string]} true
    "xdstp://foo/envoy.config.endpoint.v3.ClusterLoadAssignment/bar/*?thing=some&some=thing"
  = "xdstp://foo/envoy.config.endpoint.v3.ClusterLoadAssignment/bar/*?foo=bar&some=thing&thing=some"%string.
Proof. by vm_compute. Qed.

Example canonicalize_opaque : canonicalize "opaque_resource_name" = "opaque_resource_name"%string.
Proof. by vm_compute. Qed.

(** *** Canonical forms do not depend on the order of the parameters *)

Lemma key_unique (ps : list (string * string)) k v1 v2 :
  NoDup ps.*1 → (k, v1) ∈ ps → (k, v2) ∈ ps → v1 = v2.
Proof.
  induction ps as [|[k' v'] ps IH]; simpl; intros Hnd H1 H2.
  { by apply elem_of_nil in H1. }
  apply NoDup_cons in Hnd as [Hfresh Hnd].
  assert (∀ v, (k', v) ∈ ps → False) as Hout.
  { intros v Hin. apply Hfresh, list_elem_of_fmap. by exists (k', v). }
  apply elem_of_cons in H1 as [Heq1|H1], H2 as [Heq2|H2]; simplify_eq.
  - done.
  - by destruct (Hout _ H2).
  - by destruct (Hout _ H1).
  - by apply IH.
Qed.

Lemma sort_params_perm ps1 ps2 :
  ps1 ≡ₚ ps2 → NoDup ps1.*1 → sort_params ps1 = sort_params ps2.
Proof.
  intros Hperm Hnd. unfold sort_params.
  apply (Sorted_unique_strong key_le).
  - intros [k1 v1] [k2 v2] H1 H2 Hle1 Hle2. unfold key_le in *; simpl in *.
    assert (k1 = k2) as <- by (by apply (anti_symm String.le)).
    f_equal. apply (key_unique ps1 k1); [done| |].
    + by rewrite merge_sort_Permutation in H1.
    + by rewrite merge_sort_Permutation, <- Hperm in H2.
  - apply Sorted_merge_sort, _.
  - apply Sorted_merge_sort, _.
  - by rewrite !merge_sort_Permutation.
Qed.

Lemma effective_params_perm node_context add ps1 ps2 :
  ps1 ≡ₚ ps2 →
  effective_params node_context add ps1 ≡ₚ effective_params node_context add ps2.
Proof.
  intros Hperm. unfold effective_params. destruct add; [|done].
  rewrite (list_filter_iff (λ kv, kv.1 ∉ ps1.*1) (λ kv, kv.1 ∉ ps2.*1)).
  - by rewrite Hperm.
  - intros kv. by rewrite Hperm.
Qed.

Lemma effective_params_NoDup node_context add ps :
  NoDup ps.*1 → NoDup (effective_params node_context add ps).*1.
Proof.
  intros Hnd. unfold effective_params. destruct add; [|done].
  rewrite fmap_app. apply NoDup_app. split; [done|]. split.
  - intros k Hk (kv & -> & Hin)%list_elem_of_fmap.
    by apply list_elem_of_filter in Hin as [Hout _].
  - eapply sublist_NoDup; [apply (NoDup_fst_map_to_list node_context)|].
    apply fmap_sublist, sublist_filter.
Qed.

Lemma canonical_params_perm node_context add ps1 ps2 :
  ps1 ≡ₚ ps2 → NoDup ps1.*1 →
  sort_params (effective_params node_context add ps1) =
  sort_params (effective_params node_context add ps2).
Proof.
  intros Hperm Hnd. apply sort_params_perm.
  - by apply effective_params_perm.
  - by apply effective_params_NoDup.
Qed.

(** Names that differ in the order of their parameters only have the
    same canonical form, with or without the node context. *)
Lemma resolve_param_order node_context add name1 name2 :
  same_but_param_order name1 name2 →
  resolve node_context add name1 = resolve node_context add name2.
Proof.
  intros (u1 & u2 & Hu1 & Hu2 & Ha & Ht & Hi & Hperm & Hnd).
  unfold resolve. rewrite Hu1, Hu2.
  rewrite (canonical_params_perm _ _ _ _ Hperm Hnd).
  unfold encodeUrn, with_params; simpl. by rewrite Ha, Ht, Hi.
Qed.

(** *** Reading a canonical name back *)

Lemma app_cons a (s t : string) : String a s +:+ t = String a (s +:+ t).
Proof. done. Qed.

Lemma app_empty_r (s : string) : s +:+ "" = s.
Proof. induction s as [|a s IH]; [done|]. rewrite app_cons. by f_equal. Qed.

Lemma occurs_app c (s1 s2 : string) :
  occurs c (s1 +:+ s2) = occurs c s1 || occurs c s2.
Proof.
  induction s1 as [|a s1 IH]; [done|].
  rewrite app_cons. simpl. by rewrite IH, orb_assoc.
Qed.

Lemma occurs_cons c a s : occurs c (String a s) = bool_decide (a = c) || occurs c s.
Proof. done. Qed.

Lemma cut_None c s : cut c s = None ↔ occurs c s = false.
Proof.
  induction s as [|a s IH]; simpl; [done|].
  destruct (decide (a = c)) as [->|Hne].
  - by rewrite bool_decide_eq_true_2.
  - rewrite bool_decide_eq_false_2 by done. simpl. rewrite <- IH.
    by destruct (cut c s) as [[b a']|].
Qed.

Lemma cut_Some c s before after :
  cut c s = Some (before, after) →
  s = before +:+ String c after ∧ occurs c before = false.
Proof.
  revert before. induction s as [|a s IH]; intros before; simpl; [done|].
  destruct (decide (a = c)) as [->|Hne].
  - by intros [= <- <-].
  - destruct (cut c s) as [[b a']|]; simpl; [|done].
    intros [= <- <-]. destruct (IH b eq_refl) as [-> Hb].
    rewrite app_cons. simpl. by rewrite bool_decide_eq_false_2.
Qed.

Lemma cut_here c (s : string) : cut c (String c s) = Some (""%string, s).
Proof. simpl. by destruct (decide (c = c)). Qed.

Lemma cut_next c a (s : string) :
  a ≠ c → cut c (String a s) = fmap (M:=option) (prod_map (String a) (λ after, after)) (cut c s).
Proof.
  intros Hne. simpl. destruct (decide (a = c)); [done|].
  by destruct (cut c s) as [[b a']|].
Qed.

(** Cutting skips a prefix in which the character does not occur. *)
Lemma cut_skip c (p s : string) :
  occurs c p = false →
  cut c (p +:+ s) = fmap (M:=option) (prod_map (String.app p) (λ after, after)) (cut c s).
Proof.
  induction p as [|a p IH].
  { intros _. change ("" +:+ s)%string with s. by destruct (cut c s) as [[b a']|]. }
  rewrite occurs_cons. intros [Hne Hp]%orb_false_elim.
  apply bool_decide_eq_false in Hne.
  rewrite app_cons, cut_next, (IH Hp) by done.
  by destruct (cut c s) as [[b a']|].
Qed.

(** The prefix up to the first occurrence of the character. *)
Lemma cut_at c (p s : string) :
  occurs c p = false → cut c (p +:+ String c s) = Some (p, s).
Proof.
  intros Hp. rewrite cut_skip, cut_here by done. simpl. by rewrite app_empty_r.
Qed.

Lemma split_clean c s : Forall (λ p, occurs c p = false) (split c s).
Proof.
  induction s as [|a s IH]; simpl; [by repeat constructor|].
  destruct (decide (a = c)) as [->|Hne]; [by constructor|].
  destruct (split c s) as [|p ps].
  - repeat constructor. simpl. by rewrite bool_decide_eq_false_2.
  - apply Forall_cons in IH as [Hp Hps]. constructor; [|done].
    simpl. by rewrite bool_decide_eq_false_2.
Qed.

Lemma split_whole c (p : string) : occurs c p = false → split c p = [p].
Proof.
  induction p as [|a p IH]; simpl; [done|].
  intros [Hne Hp]%orb_false_elim. apply bool_decide_eq_false in Hne.
  destruct (decide (a = c)); [done|]. by rewrite (IH Hp).
Qed.

Lemma split_skip c (p s : string) :
  occurs c p = false → split c (p +:+ String c s) = p :: split c s.
Proof.
  induction p as [|a p IH].
  { intros _. change ("" +:+ String c s)%string with (String c s).
    simpl. by destruct (decide (c = c)). }
  rewrite occurs_cons. intros [Hne Hp]%orb_false_elim.
  apply bool_decide_eq_false in Hne.
  rewrite app_cons. simpl. destruct (decide (a = c)); [done|]. by rewrite (IH Hp).
Qed.

(** Splitting what was joined gives the pieces back. *)
Lemma split_join c (pieces : list string) :
  pieces ≠ [] → Forall (λ p, occurs c p = false) pieces →
  split c (StrJoin pieces (String c "")) = pieces.
Proof.
  induction pieces as [|p [|q pieces] IH]; intros Hne Hclean; [done| |].
  - simpl. apply split_whole. by inv Hclean.
  - apply Forall_cons in Hclean as [Hp Hclean].
    change (StrJoin (p :: q :: pieces) (String c ""))
      with (p +:+ String c (StrJoin (q :: pieces) (String c ""))).
    rewrite split_skip by done. f_equal. by apply IH.
Qed.

Lemma cut_encode_param kv : clean_param kv → cut "=" (encode_param kv) = Some kv.
Proof.
  destruct kv as [k v]. intros (Hk & _ & _). unfold encode_param. simpl in *.
  change (k +:+ "=" +:+ v)%string with (k +:+ String "=" v).
  by apply cut_at.
Qed.

Lemma encode_param_clean kv : clean_param kv → occurs "&" (encode_param kv) = false.
Proof.
  destruct kv as [k v]. intros (_ & Hk & Hv). unfold encode_param. simpl in *.
  change (k +:+ "=" +:+ v)%string with (k +:+ String "=" v).
  rewrite occurs_app, occurs_cons, Hk, Hv. by rewrite bool_decide_eq_false_2.
Qed.

Lemma decode_encode_params ps :
  ps ≠ [] → Forall clean_param ps →
  decode_params (StrJoin (encode_param <$> ps) "&") = Some ps.
Proof.
  intros Hne Hclean. unfold decode_params.
  rewrite (split_join "&").
  - apply mapM_Some, Forall2_fmap_l, Forall_Forall2_diag.
    eapply Forall_impl; [done|]. apply cut_encode_param.
  - by destruct ps.
  - apply Forall_fmap. eapply Forall_impl; [done|]. apply encode_param_clean.
Qed.

(** Writing a structured name and reading it back gives the name
    again. *)
Lemma decode_encode u : clean u → decodeUrn (encodeUrn u) = Some u.
Proof.
  destruct u as [a t i ps]. intros (Ha1 & Ha2 & Ht1 & Ht2 & Hi & Hps). simpl in *.
  unfold decodeUrn, encodeUrn. cbn [authority resource_type id context_params].
  change (strip_prefix "xdstp://" ("xdstp://" +:+ ?rest)) with (Some rest).
  cbn [mbind option_bind].
  change (a +:+ "/" +:+ t +:+ "/" +:+ i +:+ encode_params ps)%string
    with (a +:+ String "/" (t +:+ String "/" (i +:+ encode_params ps))).
  assert (cut "/" (a +:+ String "/" (t +:+ String "/" i))
          = Some (a, t +:+ String "/" i)) as Hbody by (by apply cut_at).
  assert (cut "/" (t +:+ String "/" i) = Some (t, i)) as Hpath by (by apply cut_at).
  destruct ps as [|p ps].
  - change (encode_params []) with ""%string. rewrite app_empty_r.
    assert (cut "?" (a +:+ String "/" (t +:+ String "/" i)) = None) as ->.
    { apply cut_None. rewrite occurs_app, occurs_cons, occurs_app, occurs_cons.
      rewrite Ha2, Ht2, Hi. by rewrite !bool_decide_eq_false_2. }
    rewrite Hbody. simpl. by rewrite Hpath.
  - assert (cut "?" (a +:+ String "/" (t +:+ String "/" (i +:+ encode_params (p :: ps))))
            = Some (a +:+ String "/" (t +:+ String "/" i),
                    StrJoin (encode_param <$> p :: ps) "&")) as ->.
    { rewrite cut_skip, cut_next by done. rewrite cut_skip, cut_next by done.
      change (encode_params (p :: ps))
        with (String "?" (StrJoin (encode_param <$> p :: ps) "&")).
      by rewrite cut_at. }
    rewrite Hbody. cbn [mbind option_bind]. rewrite Hpath. cbn [mbind option_bind].
    by rewrite decode_encode_params.
Qed.

(** What [decodeUrn] returns is clean. *)
Lemma decode_params_clean query ps :
  decode_params query = Some ps → Forall clean_param ps.
Proof.
  unfold decode_params. intros Hps%mapM_Some_1.
  pose proof (split_clean "&" query) as Hpieces.
  induction Hps as [|piece [k v] pieces ps Hcut _ IH]; [done|].
  apply Forall_cons in Hpieces as [Hpiece Hpieces].
  constructor; [|by apply IH].
  apply cut_Some in Hcut as [-> Hk]. rewrite occurs_app in Hpiece. simpl in Hpiece.
  apply orb_false_elim in Hpiece as [Hk' Hv]. by repeat split.
Qed.

Lemma decodeUrn_clean name u : decodeUrn name = Some u → clean u.
Proof.
  unfold decodeUrn. destruct (strip_prefix "xdstp://" name) as [rest|]; simpl; [|done].
  assert (∀ body query, occurs "?" body = false →
            ('(authority, path) ← cut "/" body;
             '(resource_type, id) ← cut "/" path;
             params ← query;
             Some {| authority := authority; resource_type := resource_type; id := id;
                     context_params := params |}) = Some u →
            (∀ ps, query = Some ps → Forall clean_param ps) → clean u) as Hbody.
  { intros body query Hq Hu Hquery.
    destruct (cut "/" body) as [[a path]|] eqn:Ha; simpl in Hu; [|done].
    destruct (cut "/" path) as [[t i]|] eqn:Ht; simpl in Hu; [|done].
    destruct query as [ps|]; simpl in Hu; [|done]. injection Hu as <-.
    apply cut_Some in Ha as [-> Ha]. apply cut_Some in Ht as [-> Ht].
    rewrite occurs_app in Hq. simpl in Hq. rewrite occurs_app in Hq. simpl in Hq.
    apply orb_false_elim in Hq as [Hqa Hq]. apply orb_false_elim in Hq as [Hqt Hqi].
    unfold clean. simpl. repeat split; try done. by apply Hquery. }
  destruct (cut "?" rest) as [[body query]|] eqn:Hcut.
  - apply cut_Some in Hcut as [-> Hq]. intros Hu.
    apply (Hbody body (decode_params query) Hq Hu).
    intros ps. apply decode_params_clean.
  - apply cut_None in Hcut. intros Hu.
    apply (Hbody rest (Some []) Hcut Hu). by intros ps [= <-].
Qed.

Lemma effective_params_clean node_context add ps :
  (add = true → clean_context node_context) →
  Forall clean_param ps → Forall clean_param (effective_params node_context add ps).
Proof.
  intros Hctx Hps. unfold effective_params. destruct add; [|done].
  apply Forall_app. split; [done|]. apply Forall_forall. intros [k v] Hin.
  apply list_elem_of_filter in Hin as [_ Hin]. apply elem_of_map_to_list in Hin.
  by apply (Hctx eq_refl k v).
Qed.

Lemma sort_params_clean ps : Forall clean_param ps → Forall clean_param (sort_params ps).
Proof. intros Hps. unfold sort_params. by rewrite merge_sort_Permutation. Qed.

(** The canonical form of a structured name reads back as that name
    with its parameters sorted. *)
Lemma resolve_decodes node_context add name u :
  decodeUrn name = Some u →
  (add = true → clean_context node_context) →
  decodeUrn (resolve node_context add name) =
    Some (with_params u
            (sort_params (effective_params node_context add (context_params u)))).
Proof.
  intros Hu Hctx. unfold resolve. rewrite Hu. apply decode_encode.
  destruct (decodeUrn_clean name u Hu) as (? & ? & ? & ? & ? & Hps).
  unfold clean, with_params. simpl. repeat split; try done.
  by apply sort_params_clean, effective_params_clean.
Qed.

(** Sorting parameters that are sorted changes nothing. *)
Lemma sort_params_sorted ps :
  NoDup ps.*1 → sort_params (sort_params ps) = sort_params ps.
Proof.
  intros Hnd. unfold sort_params.
  assert (NoDup (merge_sort key_le ps).*1) as Hnd'
    by (by rewrite merge_sort_Permutation).
  apply (Sorted_unique_strong key_le).
  - intros [k1 v1] [k2 v2] H1 H2 Hle1 Hle2. unfold key_le in *; simpl in *.
    assert (k1 = k2) as <- by (by apply (anti_symm String.le)).
    f_equal. apply (key_unique (merge_sort key_le ps) k1); [done| |done].
    by rewrite merge_sort_Permutation in H1.
  - apply Sorted_merge_sort, _.
  - apply Sorted_merge_sort, _.
  - by rewrite merge_sort_Permutation.
Qed.

(** Canonicalizing a canonical name changes nothing. *)
Lemma canonicalize_resolved node_context add name u :
  decodeUrn name = Some u → NoDup (context_params u).*1 →
  (add = true → clean_context node_context) →
  canonicalize (resolve node_context add name) = resolve node_context add name.
Proof.
  intros Hu Hnd Hctx. unfold canonicalize.
  unfold resolve at 1. rewrite (resolve_decodes _ _ _ _ Hu Hctx).
  unfold resolve. rewrite Hu. unfold with_params, effective_params at 1. simpl.
  rewrite sort_params_sorted; [done|]. by apply effective_params_NoDup.
Qed.

Lemma same_but_param_order_test_names :
  same_but_param_order
    "xdstp://foo/envoy.config.endpoint.v3.ClusterLoadAssignment/bar/baz?thing=some&some=thing"
    "xdstp://foo/envoy.config.endpoint.v3.ClusterLoadAssignment/bar/baz?some=thing&thing=some".
Proof.
  eexists _, _. split; [by vm_compute|]. split; [by vm_compute|].
  simpl. repeat split; try done.
  - apply perm_swap.
  - apply NoDup_cons. split; [|apply NoDup_singleton].
    by intros [=]%list_elem_of_singleton.
Defined.

End XdsResourceIdentifier.

(** ** The delta-discovery multiplexer *)

Module NewGrpcMux.
Import XdsResourceIdentifier.

(** Modelled from the spec: the options of a watch
    ("useNamespaceMatching, addNodeContextParams"), under the names the
    tests set them by. *)
Record SubscriptionOptions := {
  use_namespace_matching_ : bool;
  add_xdstp_node_context_params_ : bool
}.

Definition default_options : SubscriptionOptions :=
  {| use_namespace_matching_ := false; add_xdstp_node_context_params_ := false |}.

(** [google.protobuf.Any], the typed payload of a resource. *)
Record Any := { payload_type_url : string; payload_value : string }.

(** Modelled from the spec: a resource of the wire-level contract
    ("name, aliases[], version, resource (typed payload)"); in the tests
    [add_resources()] without [PackFrom] leaves the payload unset. *)
Record Resource := {
  name : string;
  aliases : list string;
  version : string;
  resource : option Any
}.

(** Modelled from the spec: the response of the wire-level contract. *)
Record DeltaDiscoveryResponse := {
  type_url : string;
  system_version_info : string;
  nonce : string;
  resources : list Resource;
  removed_resources : list string
}.

(** Modelled from the spec: the request of the wire-level contract;
    [node] is "present only on first request per type or on forced
    resend". *)
Record DeltaDiscoveryRequest := {
  req_type_url : string;
  resource_names_subscribe : list string;
  resource_names_unsubscribe : list string;
  response_nonce : string;
  error_detail : option (Z * string);
  (** whether the node block is attached *)
  node : bool
}.

(** Modelled from the spec: a decoded resource ("name, aliases, version,
    opaque typed payload"). *)
Record DecodedResource := {
  d_name : string;
  d_aliases : list string;
  d_version : string;
  d_payload : string
}.

(** Modelled from the spec: a watch ("identity = opaque handle;
    attributes: type, requestedNames, options, callback"); the type is the
    key under which the watch is filed, the callback is identified by the
    handle, and [deliveredNames] are the names delivered to it so far. *)
Record Watch := {
  handle : nat;
  requestedNames : list string;
  options : SubscriptionOptions;
  deliveredNames : list string
}.

(** Modelled from the spec: the per-type protocol state
    ("resourceVersions, namesSubscribed, namesUnsubscribed, lastNonce,
    lastErrorDetail"), with the type's watches and whether a request for
    the type has been sent on the stream. *)
Record SubscriptionState := {
  watches : list Watch;
  resourceVersions : gmap string string;
  namesSubscribed : list string;
  namesUnsubscribed : list string;
  lastNonce : string;
  lastErrorDetail : option (Z * string);
  requested_before : bool
}.

(** Modelled from the spec: what a callback receives,
    [onConfigUpdate(added, removedNames, systemVersion)]. *)
Inductive CallbackEvent :=
| OnConfigUpdate (watch : nat) (added : list DecodedResource) (removed : list string)
    (system_version_info : string).

Definition event_watch (e : CallbackEvent) : nat :=
  match e with OnConfigUpdate watch _ _ _ => watch end.

(** Modelled from the spec: the multiplexer ("owns one transport stream,
    owns all SubscriptionStates"); new_grpc_mux_impl.cc is not among the
    sources. The subscriptions are in the order in which their types were
    first watched; [sent] and [delivered] record the requests handed to
    the stream and the callbacks invoked. *)
Record Mux := {
  subscriptions : list (string * SubscriptionState);
  stream_established : bool;
  sent : list DeltaDiscoveryRequest;
  delivered : list CallbackEvent;
  next_watch : nat;
  node_context : gmap string string;
  enable_type_url_downgrade_and_upgrade : bool;
  (** the sibling version alias of a type URL *)
  type_url_aliases : list (string * string);
  (** the decoder of typed payloads, which can reject one *)
  resource_decoder_ : Any → Outcome string
}.

#[global] Instance SubscriptionOptions_eq_dec : EqDecision SubscriptionOptions.
Proof. solve_decision. Defined.
#[global] Instance Any_eq_dec : EqDecision Any.
Proof. solve_decision. Defined.
#[global] Instance Resource_eq_dec : EqDecision Resource.
Proof. solve_decision. Defined.
#[global] Instance DecodedResource_eq_dec : EqDecision DecodedResource.
Proof. solve_decision. Defined.

(** *** Association lists keyed by type URL

    Modelled from the spec: "one SubscriptionState per resource type",
    found by type URL. *)

Fixpoint find_sub {A} (t : string) (l : list (string * A)) : option A :=
  match l with
  | [] => None
  | (t', a) :: l => if decide (t' = t) then Some a else find_sub t l
  end.

Fixpoint put_sub {A} (t : string) (a : A) (l : list (string * A)) : list (string * A) :=
  match l with
  | [] => [(t, a)]
  | (t', a') :: l => if decide (t' = t) then (t, a) :: l else (t', a') :: put_sub t a l
  end.

Definition set_watches (s : SubscriptionState) (ws : list Watch) : SubscriptionState :=
  {| watches := ws; resourceVersions := resourceVersions s;
     namesSubscribed := namesSubscribed s; namesUnsubscribed := namesUnsubscribed s;
     lastNonce := lastNonce s; lastErrorDetail := lastErrorDetail s;
     requested_before := requested_before s |}.

(** Modelled from the spec: the state of a type that is watched for the
    first time ("starts a fresh negotiation from empty state"). *)
Definition fresh_state : SubscriptionState :=
  {| watches := []; resourceVersions := ∅; namesSubscribed := []; namesUnsubscribed := [];
     lastNonce := ""; lastErrorDetail := None; requested_before := false |}.

(** *** WatchRegistry and SubscriptionState *)

(** Modelled from the spec: "the current desired resource-name set for
    that type as the union of all active watches' requested names". *)
Definition desired (s : SubscriptionState) : list string :=
  remove_dups (mjoin (requestedNames <$> watches s)).

(** Modelled from the spec: transition 1 of the state machine, "compute
    subscribe = desired - namesSubscribed, unsubscribe = namesSubscribed -
    desired; build an outbound request containing type, subscribe list,
    unsubscribe list, last-known nonce, and - only when this is the very
    first request for the type or the context parameters changed - the
    full node/context block"; the error detail of a NACK rides on the same
    request. *)
Definition next_request (t : string) (s : SubscriptionState) (resend_node : bool)
  : DeltaDiscoveryRequest :=
  {| req_type_url := t;
     resource_names_subscribe := list_difference (desired s) (namesSubscribed s);
     resource_names_unsubscribe := list_difference (namesSubscribed s) (desired s);
     response_nonce := lastNonce s;
     error_detail := lastErrorDetail s;
     node := resend_node || negb (requested_before s) |}.

(** Modelled from the spec: the state once the request is built; the
    names sent as "subscribe" are the desired ones, and the names
    withdrawn are pending until a response comes. *)
Definition after_request (s : SubscriptionState) : SubscriptionState :=
  {| watches := watches s; resourceVersions := resourceVersions s;
     namesSubscribed := desired s;
     namesUnsubscribed :=
       list_difference (namesUnsubscribed s) (desired s) ++
       list_difference (namesSubscribed s) (desired s);
     lastNonce := lastNonce s; lastErrorDetail := None;
     requested_before := true |}.

(** Modelled from the spec: whether the delta between the desired names
    and the names subscribed is not empty. *)
Definition update_pending (s : SubscriptionState) : bool :=
  negb (bool_decide (list_difference (desired s) (namesSubscribed s) = []
                     ∧ list_difference (namesSubscribed s) (desired s) = [])).

(** Modelled from the spec: transition 2, "request handed to the rate
    limiter/transport"; the rate limiter only delays requests and is left
    out. *)
Definition send (m : Mux) (t : string) (resend_node : bool) : Mux :=
  match find_sub t (subscriptions m) with
  | None => m
  | Some s =>
      {| subscriptions := put_sub t (after_request s) (subscriptions m);
         stream_established := stream_established m;
         sent := sent m ++ [next_request t s resend_node];
         delivered := delivered m; next_watch := next_watch m;
         node_context := node_context m;
         enable_type_url_downgrade_and_upgrade := enable_type_url_downgrade_and_upgrade m;
         type_url_aliases := type_url_aliases m;
         resource_decoder_ := resource_decoder_ m |}
  end.

(** Modelled from the spec: [addWatch(type, names, callback, options) ->
    handle]; the names are filed in canonical form, and on an established
    stream the delta is sent at once. *)
Definition addWatch (m : Mux) (t : string) (names : list string)
    (opts : SubscriptionOptions) : Mux * nat :=
  let w := {| handle := next_watch m;
              requestedNames :=
                resolve (node_context m) (add_xdstp_node_context_params_ opts) <$> names;
              options := opts; deliveredNames := [] |} in
  let s := default fresh_state (find_sub t (subscriptions m)) in
  let s' := set_watches s (watches s ++ [w]) in
  let m' :=
    {| subscriptions := put_sub t s' (subscriptions m);
       stream_established := stream_established m;
       sent := sent m; delivered := delivered m; next_watch := S (next_watch m);
       node_context := node_context m;
       enable_type_url_downgrade_and_upgrade := enable_type_url_downgrade_and_upgrade m;
       type_url_aliases := type_url_aliases m;
       resource_decoder_ := resource_decoder_ m |} in
  (if stream_established m && (update_pending s' || negb (requested_before s'))
   then send m' t false else m',
   handle w).

(** Modelled from the spec: [removeWatch(handle)] (the handle's
    [cancel()]); "a second removal is a no-op, never an error". As at the
    end of the test [DynamicContextParameters], names that nobody desires
    any longer are unsubscribed on the established stream. Only the
    subscription that holds the watch is touched. *)
Definition remove_from (established : bool) (h : nat) (ts : string * SubscriptionState)
  : (string * SubscriptionState) * list DeltaDiscoveryRequest :=
  let '(t, s) := ts in
  if decide (h ∈ handle <$> watches s) then
    let s' := set_watches s (filter (λ w, handle w ≠ h) (watches s)) in
    if established && update_pending s'
    then ((t, after_request s'), [next_request t s' false])
    else ((t, s'), [])
  else (ts, []).

(** Modelled from the spec: [removeWatch(handle)] over the subscriptions
    of the multiplexer. *)
Definition removeWatch (m : Mux) (h : nat) : Mux :=
  let results := remove_from (stream_established m) h <$> subscriptions m in
  {| subscriptions := results.*1;
     stream_established := stream_established m;
     sent := sent m ++ mjoin results.*2;
     delivered := delivered m; next_watch := next_watch m;
     node_context := node_context m;
     enable_type_url_downgrade_and_upgrade := enable_type_url_downgrade_and_upgrade m;
     type_url_aliases := type_url_aliases m;
     resource_decoder_ := resource_decoder_ m |}.

(** Modelled from the spec: stream establishment, "replays outstanding
    requests for every active type (full subscribe list, no nonce)". *)
Definition on_new_stream (s : SubscriptionState) : SubscriptionState :=
  {| watches := watches s; resourceVersions := resourceVersions s;
     namesSubscribed := []; namesUnsubscribed := [];
     lastNonce := ""; lastErrorDetail := None; requested_before := false |}.

(** Modelled from the spec: [start()], the stream is established and
    every type sends its first request, in the order in which the types
    were first watched (as the test [DynamicContextParameters] expects). *)
Definition start (m : Mux) : Mux :=
  let m' :=
    {| subscriptions := (λ ts, (ts.1, on_new_stream ts.2)) <$> subscriptions m;
       stream_established := true;
       sent := sent m; delivered := delivered m; next_watch := next_watch m;
       node_context := node_context m;
       enable_type_url_downgrade_and_upgrade := enable_type_url_downgrade_and_upgrade m;
       type_url_aliases := type_url_aliases m;
       resource_decoder_ := resource_decoder_ m |} in
  foldl (λ m t, send m t false) m' (subscriptions m).*1.

(** Modelled from the spec: the context-parameter update, as the test
    [DynamicContextParameters] drives it: an update for key K resends the
    subscription of type K with the node block, and nothing else. *)
Definition onDynamicContextUpdate (m : Mux) (resource_type_url : string) : Mux :=
  if stream_established m then send m resource_type_url true else m.

(** *** Responses *)

(** Modelled from the spec: which subscription a response belongs to;
    "if a watch was registered under one API-version alias of a type and
    the response arrives under a sibling version alias, the resource is
    still accepted provided that alias is itself being watched", when the
    compatibility flag is enabled. *)
Definition find_subscription (m : Mux) (response_type_url : string)
  : option (string * SubscriptionState) :=
  match find_sub response_type_url (subscriptions m) with
  | Some s => Some (response_type_url, s)
  | None =>
      if enable_type_url_downgrade_and_upgrade m then
        alias ← find_sub response_type_url (type_url_aliases m);
        s ← find_sub alias (subscriptions m);
        Some (alias, s)
      else None
  end.

(** Modelled from the spec: decoding ("resources that fail decode or
    type-URL cross-check are dropped from the added set"); a resource
    without payload has nothing to decode and is dropped silently. *)
Definition decode (decoder : Any → Outcome string) (r : Resource)
  : option (Outcome DecodedResource) :=
  any ← resource r;
  Some (match decoder any with
        | Returned payload =>
            Returned {| d_name := name r; d_aliases := aliases r;
                        d_version := version r; d_payload := payload |}
        | Thrown what => Thrown what
        end).

(** Modelled from the spec: the resources of a response that decode, and
    the errors of those that do not. *)
Definition decoded (decoder : Any → Outcome string) (r : Resource) : option DecodedResource :=
  match decode decoder r with
  | Some (Returned d) => Some d
  | _ => None
  end.

Definition decode_error (decoder : Any → Outcome string) (r : Resource) : option string :=
  match decode decoder r with
  | Some (Thrown what) => Some what
  | _ => None
  end.

(** Modelled from the spec: a name "falls under" a requested prefix when
    it lies in that namespace. *)
Definition falls_under (prefix candidate : string) : bool :=
  String.prefix (prefix +:+ "/") candidate.

(** Modelled from the spec: whether a name of a resource (its name or one
    of its aliases) is among the names a watch requested: by namespace, by
    equality of the canonical forms, or as a member of a requested glob
    collection. *)
Definition name_matches (opts : SubscriptionOptions) (requested : list string)
    (candidate : string) : bool :=
  if use_namespace_matching_ opts then
    existsb (λ prefix, falls_under prefix candidate) requested
  else
    let c := canonicalize candidate in
    bool_decide (c ∈ requested)
    || match glob_name c with
       | Some g => bool_decide (g ∈ requested)
       | None => false
       end.

(** Modelled from the spec: "added = resources whose resolved name/alias
    is in watch.requestedNames"; a watch without names is a wildcard
    watch and "receives everything". *)
Definition interested (w : Watch) (d : DecodedResource) : bool :=
  match requestedNames w with
  | [] => true
  | requested => existsb (name_matches (options w) requested) (d_name d :: d_aliases d)
  end.

(** Modelled from the spec: "duplicate resource name within a single
    response - treated as a batch failure for that response (the whole
    response is rejected with NACK)"; new_grpc_mux_impl.cc is not among
    the sources. The first name of a list that repeats an earlier one: *)
Fixpoint first_duplicate (seen names : list string) : option string :=
  match names with
  | [] => None
  | n :: names =>
      if decide (n ∈ seen) then Some n else first_duplicate (n :: seen) names
  end.

(** Modelled from the spec: the resource name on which a response is
    rejected as a whole, if any. *)
Definition duplicate_name (resp : DeltaDiscoveryResponse) : option string :=
  first_duplicate [] (name <$> resources resp).

(** Modelled from the spec: the dispatcher, "deliver onConfigUpdate(added,
    removed, version) once per watch per response". *)
Definition dispatch (w : Watch) (added : list DecodedResource) (removed : list string)
    (system_version_info : string) : CallbackEvent :=
  OnConfigUpdate (handle w) (filter (λ d, interested w d = true) added)
    (filter (λ n, n ∈ deliveredNames w) removed) system_version_info.

(** Modelled from the spec: the callbacks of one response, one for each
    watch of the type, in the order of the watches; none when the
    response is rejected as a whole. *)
Definition response_events (decoder : Any → Outcome string) (s : SubscriptionState)
    (resp : DeltaDiscoveryResponse) : list CallbackEvent :=
  match duplicate_name resp with
  | Some _ => []
  | None =>
      (λ w, dispatch w (omap (decoded decoder) (resources resp))
              (removed_resources resp) (system_version_info resp)) <$> watches s
  end.

(** Modelled from the spec: the names delivered to a watch, kept to tell
    which removals concern it ("names previously delivered to this
    watch"). *)
Definition deliver (w : Watch) (added : list DecodedResource) (removed : list string) : Watch :=
  {| handle := handle w; requestedNames := requestedNames w; options := options w;
     deliveredNames :=
       list_difference (deliveredNames w) removed ++
       (d_name <$> filter (λ d, interested w d = true) added) |}.

(** [Grpc::Status::WellKnownGrpcStatus::Internal] *)
Definition Internal : Z := 13.

(** Modelled from the spec: the error detail of the NACK of a response
    that names a resource twice; the spec does not fix the text of the
    message. *)
Definition duplicate_detail (n : string) : Z * string :=
  (Internal, "duplicate name " +:+ n +:+ " found").

(** Modelled from the spec: reconciliation and the ack/nack decision: the
    next request carries the response's nonce, and the first error when a
    resource failed. A response that names a resource twice is rejected
    as a whole: nothing of it is recorded but its nonce and the error. *)
Definition reconcile (decoder : Any → Outcome string) (s : SubscriptionState)
    (resp : DeltaDiscoveryResponse) : SubscriptionState :=
  match duplicate_name resp with
  | Some n =>
      {| watches := watches s;
         resourceVersions := resourceVersions s;
         namesSubscribed := namesSubscribed s;
         namesUnsubscribed := namesUnsubscribed s;
         lastNonce := nonce resp;
         lastErrorDetail := Some (duplicate_detail n);
         requested_before := requested_before s |}
  | None =>
      let added := omap (decoded decoder) (resources resp) in
      {| watches := (λ w, deliver w added (removed_resources resp)) <$> watches s;
         resourceVersions :=
           foldl (λ vs n, delete n vs)
             (foldl (λ vs d, <[d_name d := d_version d]> vs) (resourceVersions s) added)
             (removed_resources resp);
         namesSubscribed := namesSubscribed s;
         namesUnsubscribed := [];
         lastNonce := nonce resp;
         lastErrorDetail :=
           (λ what, (Internal, what)) <$>
             head (omap (decode_error decoder) (resources resp));
         requested_before := requested_before s |}
  end.

(** Modelled from the spec: [onDiscoveryResponse]; "if type_url doesn't
    match any known SubscriptionState, ignore (no ack, no error)". *)
Definition onDiscoveryResponse (m : Mux) (resp : DeltaDiscoveryResponse) : Mux :=
  match find_subscription m (type_url resp) with
  | None => m
  | Some (t, s) =>
      {| subscriptions := put_sub t (reconcile (resource_decoder_ m) s resp) (subscriptions m);
         stream_established := stream_established m;
         sent := sent m;
         delivered := delivered m ++ response_events (resource_decoder_ m) s resp;
         next_watch := next_watch m;
         node_context := node_context m;
         enable_type_url_downgrade_and_upgrade := enable_type_url_downgrade_and_upgrade m;
         type_url_aliases := type_url_aliases m;
         resource_decoder_ := resource_decoder_ m |}
  end.

(** *** The multiplexer in use *)

(** Modelled from the spec: what the consumers, the context provider and
    the stream do with the multiplexer (the watch API, [start], the
    context-parameter update and the inbound response). *)
Inductive Operation :=
| OpAddWatch (t : string) (names : list string) (opts : SubscriptionOptions)
| OpRemoveWatch (h : nat)
| OpStart
| OpContextUpdate (key : string)
| OpResponse (resp : DeltaDiscoveryResponse).

(** One operation, and a sequence of them, on the multiplexer. *)
Definition apply_op (m : Mux) (op : Operation) : Mux :=
  match op with
  | OpAddWatch t names opts => (addWatch m t names opts).1
  | OpRemoveWatch h => removeWatch m h
  | OpStart => start m
  | OpContextUpdate key => onDynamicContextUpdate m key
  | OpResponse resp => onDiscoveryResponse m resp
  end.

Definition drive (m : Mux) (ops : list Operation) : Mux := foldl apply_op m ops.

(** A subscription whose desired names are, as a set, the names it has
    subscribed to. *)
Definition in_sync (s : SubscriptionState) : Prop :=
  ∀ n, n ∈ desired s ↔ n ∈ namesSubscribed s.

(** On an established stream every subscription is in sync: a change of
    the desired names is sent at once. *)
Definition requests_in_sync (m : Mux) : Prop :=
  stream_established m = true →
  ∀ t s, find_sub t (subscriptions m) = Some s → in_sync s.


(** The requests [start] sends, one for each type in turn. *)
Definition send_all (m : Mux) (keys : list string) : Mux :=
  foldl (λ m t, send m t false) m keys.


(** *** The fixture of the unit tests *)

Definition ClusterLoadAssignment_v2 : string :=
  "type.googleapis.com/envoy.api.v2.ClusterLoadAssignment".
Definition ClusterLoadAssignment_v3 : string :=
  "type.googleapis.com/envoy.config.endpoint.v3.ClusterLoadAssignment".
Definition Cluster_v2 : string := "type.googleapis.com/envoy.api.v2.Cluster".
Definition Cluster_v3 : string := "type.googleapis.com/envoy.config.cluster.v3.Cluster".
Definition VirtualHost_v2 : string := "type.googleapis.com/envoy.api.v2.route.VirtualHost".
Definition VirtualHost_v3 : string := "type.googleapis.com/envoy.config.route.v3.VirtualHost".

(** The decoder of the tests takes every payload it is given; an empty
    type URL cannot be unpacked. *)
Definition test_decoder (any : Any) : Outcome string :=
  if decide (payload_type_url any = "") then Thrown "Unable to unpack" else
  Returned (payload_value any).

(** [setup()], with the runtime flag of the test. *)
Definition setup (enable_type_url_downgrade_and_upgrade : bool) : Mux :=
  {| subscriptions := []; stream_established := false; sent := []; delivered := [];
     next_watch := 0; node_context := ∅;
     enable_type_url_downgrade_and_upgrade := enable_type_url_downgrade_and_upgrade;
     type_url_aliases :=
       [(ClusterLoadAssignment_v2, ClusterLoadAssignment_v3);
        (ClusterLoadAssignment_v3, ClusterLoadAssignment_v2);
        (Cluster_v2, Cluster_v3); (Cluster_v3, Cluster_v2);
        (VirtualHost_v2, VirtualHost_v3); (VirtualHost_v3, VirtualHost_v2)];
     resource_decoder_ := test_decoder |}.

Definition with_node_context (m : Mux) (params : gmap string string) : Mux :=
  {| subscriptions := subscriptions m; stream_established := stream_established m;
     sent := sent m; delivered := delivered m; next_watch := next_watch m;
     node_context := params;
     enable_type_url_downgrade_and_upgrade := enable_type_url_downgrade_and_upgrade m;
     type_url_aliases := type_url_aliases m;
     resource_decoder_ := resource_decoder_ m |}.

(** A [ClusterLoadAssignment] packed into a resource. *)
Definition load_assignment (resource_name cluster_name : string) : Resource :=
  {| name := resource_name; aliases := []; version := "";
     resource := Some {| payload_type_url := ClusterLoadAssignment_v3;
                         payload_value := cluster_name |} |}.

Definition response (t v : string) (rs : list Resource) : DeltaDiscoveryResponse :=
  {| type_url := t; system_version_info := v; nonce := ""; resources := rs;
     removed_resources := [] |}.

(** [expectSendMessage(type_url, subscribe, unsubscribe)]: the node is
    always part of the expected request. *)
Definition expected_message (t : string) (subscribe unsubscribe : list string)
  : DeltaDiscoveryRequest :=
  {| req_type_url := t; resource_names_subscribe := subscribe;
     resource_names_unsubscribe := unsubscribe; response_nonce := "";
     error_detail := None; node := true |}.

Definition glob_requested : string :=
  "xdstp://foo/envoy.config.endpoint.v3.ClusterLoadAssignment/bar/*?thing=some&some=thing".
Definition glob_member : string :=
  "xdstp://foo/envoy.config.endpoint.v3.ClusterLoadAssignment/bar/a?foo=bar&some=thing&thing=some".
Definition baz_requested : string :=
  "xdstp://foo/envoy.config.endpoint.v3.ClusterLoadAssignment/bar/baz?thing=some&some=thing".
Definition baz_received : string :=
  "xdstp://foo/envoy.config.endpoint.v3.ClusterLoadAssignment/bar/baz?some=thing&thing=some".
Definition blah_requested : string :=
  "xdstp://foo/envoy.config.endpoint.v3.ClusterLoadAssignment/bar/blah?thing=some&some=thing".
Definition blah_received : string :=
  "xdstp://foo/envoy.config.endpoint.v3.ClusterLoadAssignment/bar/blah?some=thing&thing=some".

Definition vhost_1 : Resource :=
  {| name := "prefix/vhost_1";
     aliases := ["prefix/domain1.test"; "prefix/domain2.test"]; version := "";
     resource := Some {| payload_type_url := VirtualHost_v3; payload_value := "vhost_1" |} |}.

Definition namespace_options : SubscriptionOptions :=
  {| use_namespace_matching_ := true; add_xdstp_node_context_params_ := false |}.

(** *** The unit tests, replayed *)

(** [DynamicContextParameters], up to the last context update: the two
    first requests, nothing for the unknown key "baz", then one resend
    for "foo" and one for "bar", each with empty lists and the node. *)
Example DynamicContextParameters :
  let '(m, foo_sub) := addWatch (setup false) "foo" ["x"; "y"] default_options in
  let '(m, bar_sub) := addWatch m "bar" [] default_options in
  let m := start m in
  let m := onDynamicContextUpdate m "baz" in
  let m := onDynamicContextUpdate m "foo" in
  let m := onDynamicContextUpdate m "bar" in
  sent m = [expected_message "foo" ["x"; "y"] []; expected_message "bar" [] [];
            expected_message "foo" [] []; expected_message "bar" [] []].
Proof. by vm_compute. Qed.

(** The end of [DynamicContextParameters]: dropping the watches
    unsubscribes "x" and "y" of "foo" and sends nothing for "bar". The
    test expects the node block on every message; the model attaches it to
    a first or forced request only, as the spec has it. *)
Example DynamicContextParameters_teardown :
  let '(m, foo_sub) := addWatch (setup false) "foo" ["x"; "y"] default_options in
  let '(m, bar_sub) := addWatch m "bar" [] default_options in
  let m := start m in
  let m' := removeWatch (removeWatch m bar_sub) foo_sub in
  (λ r, (req_type_url r, resource_names_subscribe r, resource_names_unsubscribe r))
    <$> drop (length (sent m)) (sent m') = [("foo", [], ["x"; "y"])].
Proof. by vm_compute. Qed.

(** [DiscoveryResponseNonexistentSub]: the empty response reaches the
    wildcard watch, then the response with one resource does. *)
Example DiscoveryResponseNonexistentSub :
  let '(m, watch) := addWatch (setup false) ClusterLoadAssignment_v2 [] default_options in
  let m := start m in
  let m := onDiscoveryResponse m (response ClusterLoadAssignment_v2 "0" []) in
  let m := onDiscoveryResponse m
             (response ClusterLoadAssignment_v2 "1" [load_assignment "" "x"]) in
  delivered m =
    [OnConfigUpdate watch [] [] "0";
     OnConfigUpdate watch
       [{| d_name := ""; d_aliases := []; d_version := ""; d_payload := "x" |}] [] "1"].
Proof. by vm_compute. Qed.

(** [V3ResourceResponseV2ResourceWatch]: the two [Cluster] responses are
    dropped, the v3 [ClusterLoadAssignment] response reaches the v2
    watch. *)
Example V3ResourceResponseV2ResourceWatch :
  let '(m, watch) := addWatch (setup true) ClusterLoadAssignment_v2 [] default_options in
  let m := start m in
  let m := onDiscoveryResponse m (response Cluster_v3 "0" [load_assignment "" "c"]) in
  let m := onDiscoveryResponse m (response Cluster_v2 "0" [load_assignment "" "c"]) in
  let m := onDiscoveryResponse m
             (response ClusterLoadAssignment_v3 "1" [load_assignment "" "x"]) in
  delivered m =
    [OnConfigUpdate watch
       [{| d_name := ""; d_aliases := []; d_version := ""; d_payload := "x" |}] [] "1"].
Proof. by vm_compute. Qed.

(** [V2ResourceResponseV3ResourceWatch] *)
Example V2ResourceResponseV3ResourceWatch :
  let '(m, watch) := addWatch (setup true) ClusterLoadAssignment_v3 [] default_options in
  let m := start m in
  let m := onDiscoveryResponse m
             (response ClusterLoadAssignment_v2 "1" [load_assignment "" "x"]) in
  delivered m =
    [OnConfigUpdate watch
       [{| d_name := ""; d_aliases := []; d_version := ""; d_payload := "x" |}] [] "1"].
Proof. by vm_compute. Qed.

(** [XdsTpGlobCollection] *)
Example XdsTpGlobCollection :
  let m := with_node_context (setup false) {["foo" := "bar"]} in
  let '(m, watch) :=
    addWatch m ClusterLoadAssignment_v2 [glob_requested]
      {| use_namespace_matching_ := false; add_xdstp_node_context_params_ := true |} in
  let m := start m in
  let m := onDiscoveryResponse m
             (response ClusterLoadAssignment_v2 "1" [load_assignment glob_member "ignore"]) in
  resource_names_subscribe <$> sent m =
    [["xdstp://foo/envoy.config.endpoint.v3.ClusterLoadAssignment/bar/*?foo=bar&some=thing&thing=some"]]
  ∧ delivered m =
      [OnConfigUpdate watch
         [{| d_name := glob_member; d_aliases := []; d_version := "";
             d_payload := "ignore" |}] [] "1"].
Proof. by vm_compute. Qed.

(** [XdsTpSingleton] *)
Example XdsTpSingleton :
  let '(m, watch) :=
    addWatch (setup false) ClusterLoadAssignment_v2
      [baz_requested; "opaque_resource_name"; blah_requested] default_options in
  let m := start m in
  let m := onDiscoveryResponse m
             (response ClusterLoadAssignment_v2 "1"
                [load_assignment baz_received "ignore";
                 load_assignment "opaque_resource_name" "ignore";
                 load_assignment blah_received "ignore"]) in
  resource_names_subscribe <$> sent m =
    [[baz_received; "opaque_resource_name"; blah_received]]
  ∧ ∃ added, delivered m = [OnConfigUpdate watch added [] "1"] ∧ length added = 3.
Proof. split; [by vm_compute|]. eexists. split; by vm_compute. Qed.

(** [ConfigUpdateWithAliases] *)
Example ConfigUpdateWithAliases :
  let '(m, watch) := addWatch (setup false) VirtualHost_v2 ["prefix"] namespace_options in
  let m := start m in
  let m := onDiscoveryResponse m (response VirtualHost_v2 "1" [vhost_1]) in
  delivered m =
    [OnConfigUpdate watch
       [{| d_name := "prefix/vhost_1";
           d_aliases := ["prefix/domain1.test"; "prefix/domain2.test"];
           d_version := ""; d_payload := "vhost_1" |}] [] "1"]
  ∧ is_Some (find_sub VirtualHost_v2 (subscriptions m)).
Proof. split; [by vm_compute|]. vm_compute. eauto. Qed.

(** *** Association lists *)

Lemma find_sub_put_eq {A} t (a : A) l : find_sub t (put_sub t a l) = Some a.
Proof.
  induction l as [|[t' a'] l IH]; simpl.
  - by destruct (decide (t = t)).
  - destruct (decide (t' = t)) as [->|Hne]; simpl.
    + by destruct (decide (t = t)).
    + by destruct (decide (t' = t)).
Qed.

Lemma find_sub_put_ne {A} t t' (a : A) l :
  t ≠ t' → find_sub t' (put_sub t a l) = find_sub t' l.
Proof.
  intros Hne. induction l as [|[t0 a0] l IH]; simpl.
  - by destruct (decide (t = t')).
  - destruct (decide (t0 = t)) as [->|Hne0]; simpl.
    + destruct (decide (t = t')); [done|]. by destruct (decide (t = t')).
    + destruct (decide (t0 = t')); [done|]. apply IH.
Qed.

Lemma find_sub_key {A} t (a : A) l : find_sub t l = Some a → t ∈ l.*1.
Proof.
  induction l as [|[t' a'] l IH]; simpl; [done|].
  destruct (decide (t' = t)) as [->|]; [intros _; by left|].
  intros Hl. right. by apply IH.
Qed.

(** Changing the entries and keeping their keys. *)
Lemma find_sub_fmap {A B} (f : string * A → string * B) t l :
  (∀ ts, (f ts).1 = ts.1) →
  find_sub t (f <$> l) = (λ a, (f (t, a)).2) <$> find_sub t l.
Proof.
  intros Hkey. induction l as [|[t' a'] l IH]; simpl; [done|].
  pose proof (Hkey (t', a')) as Hk. destruct (f (t', a')) as [t0 b] eqn:Hf.
  simpl in Hk. subst t0. destruct (decide (t' = t)) as [->|]; [|done].
  simpl. by rewrite Hf.
Qed.

Lemma list_difference_self (l : list string) : list_difference l l = [].
Proof.
  destruct (list_difference l l) as [|x xs] eqn:Hd; [done|].
  assert (x ∈ list_difference l l) as Hin by (rewrite Hd; by left).
  apply list_elem_of_difference in Hin as [? ?]. done.
Qed.

Lemma list_difference_nil (l k : list string) :
  list_difference l k = [] ↔ ∀ x, x ∈ l → x ∈ k.
Proof.
  split.
  - intros Hd x Hx. destruct (decide (x ∈ k)) as [|Hout]; [done|].
    assert (x ∈ list_difference l k) as Hin by (by apply list_elem_of_difference).
    rewrite Hd in Hin. by apply elem_of_nil in Hin.
  - intros Hsub. destruct (list_difference l k) as [|x xs] eqn:Hd; [done|].
    assert (x ∈ list_difference l k) as Hin by (rewrite Hd; by left).
    apply list_elem_of_difference in Hin as [Hx Hout]. by destruct (Hout (Hsub x Hx)).
Qed.

(** *** Requests *)

Lemma send_subscription m t resend t' :
  t ≠ t' → find_sub t' (subscriptions (send m t resend)) = find_sub t' (subscriptions m).
Proof.
  intros Hne. unfold send. destruct (find_sub t (subscriptions m)); [|done].
  simpl. by apply find_sub_put_ne.
Qed.

Lemma send_same m t resend :
  find_sub t (subscriptions (send m t resend)) = after_request <$> find_sub t (subscriptions m).
Proof.
  unfold send. destruct (find_sub t (subscriptions m)) as [s|] eqn:Hs; simpl.
  - by rewrite find_sub_put_eq.
  - by rewrite Hs.
Qed.

Lemma send_unknown m t resend : find_sub t (subscriptions m) = None → send m t resend = m.
Proof. intros Hs. unfold send. by rewrite Hs. Qed.

Lemma send_sent m t resend s :
  find_sub t (subscriptions m) = Some s →
  sent (send m t resend) = sent m ++ [next_request t s resend].
Proof. intros Hs. unfold send. by rewrite Hs. Qed.

Lemma send_delivered m t resend : delivered (send m t resend) = delivered m.
Proof. unfold send. by destruct (find_sub t (subscriptions m)). Qed.

Lemma send_decoder m t resend : resource_decoder_ (send m t resend) = resource_decoder_ m.
Proof. unfold send. by destruct (find_sub t (subscriptions m)). Qed.

Lemma send_established m t resend : stream_established (send m t resend) = stream_established m.
Proof. unfold send. by destruct (find_sub t (subscriptions m)). Qed.


(** A request changes the watches of no type. *)
Lemma send_watches m t resend t' :
  watches <$> find_sub t' (subscriptions (send m t resend))
  = watches <$> find_sub t' (subscriptions m).
Proof.
  destruct (decide (t = t')) as [<-|Hne].
  - rewrite send_same. by destruct (find_sub t (subscriptions m)).
  - by rewrite send_subscription.
Qed.

(** A subscription whose desired names are those last sent has nothing
    to subscribe or unsubscribe. *)
Lemma next_request_in_sync t s resend :
  in_sync s →
  next_request t s resend =
    {| req_type_url := t; resource_names_subscribe := [];
       resource_names_unsubscribe := []; response_nonce := lastNonce s;
       error_detail := lastErrorDetail s;
       node := resend || negb (requested_before s) |}.
Proof.
  intros Hs. unfold next_request.
  rewrite (proj2 (list_difference_nil (desired s) (namesSubscribed s)))
    by (intros n; apply Hs).
  by rewrite (proj2 (list_difference_nil (namesSubscribed s) (desired s)))
    by (intros n; apply Hs).
Qed.

(** *** What every use of the multiplexer preserves *)

Lemma after_request_in_sync s : in_sync (after_request s).
Proof. done. Qed.

Lemma not_pending_in_sync s : update_pending s = false → in_sync s.
Proof.
  unfold update_pending. intros Hp%negb_false_iff%bool_decide_eq_true.
  destruct Hp as [Hsub Hunsub]. intros n. split.
  - by apply list_difference_nil.
  - by apply list_difference_nil.
Qed.

Lemma requests_in_sync_send m t resend :
  requests_in_sync m → requests_in_sync (send m t resend).
Proof.
  intros Hm Hest t' s Hs. rewrite send_established in Hest.
  destruct (decide (t = t')) as [<-|Hne].
  - rewrite send_same in Hs. destruct (find_sub t (subscriptions m)); [|done].
    injection Hs as <-. apply after_request_in_sync.
  - rewrite send_subscription in Hs by done. by apply (Hm Hest t').
Qed.


Lemma requests_in_sync_addWatch m t names opts :
  requests_in_sync m → requests_in_sync (addWatch m t names opts).1.
Proof.
  intros Hm. unfold addWatch. cbn [fst].
  set (w := {| handle := next_watch m |}).
  set (s := default fresh_state (find_sub t (subscriptions m))).
  set (s' := set_watches s (watches s ++ [w])).
  set (m' := {| subscriptions := put_sub t s' (subscriptions m) |}).
  assert (stream_established m = true → ∀ t' s0, t' ≠ t →
            find_sub t' (subscriptions m') = Some s0 → in_sync s0) as Hother.
  { intros Hest t' s0 Hne. simpl. rewrite find_sub_put_ne by done. by apply Hm. }
  destruct (stream_established m) eqn:Hest; cbn [andb].
  - destruct (update_pending s' || negb (requested_before s')) eqn:Hcond.
    + intros _ t' s0 Hs0. destruct (decide (t = t')) as [<-|Hne].
      * rewrite send_same in Hs0. simpl in Hs0. rewrite find_sub_put_eq in Hs0.
        injection Hs0 as <-. apply after_request_in_sync.
      * rewrite send_subscription in Hs0 by done. by apply (Hother eq_refl t').
    + apply orb_false_elim in Hcond as [Hpending _].
      intros _ t' s0 Hs0. destruct (decide (t' = t)) as [->|Hne].
      * simpl in Hs0. rewrite find_sub_put_eq in Hs0. injection Hs0 as <-.
        by apply not_pending_in_sync.
      * by apply (Hother eq_refl t').
  - intros Hest'. by unfold m' in Hest'.
Qed.


Lemma removeWatch_find m h t :
  find_sub t (subscriptions (removeWatch m h))
  = (λ s, (remove_from (stream_established m) h (t, s)).1.2)
      <$> find_sub t (subscriptions m).
Proof.
  unfold removeWatch. cbn [subscriptions].
  rewrite <- list_fmap_compose.
  rewrite (find_sub_fmap (fst ∘ remove_from (stream_established m) h)); [done|].
  intros [t' s]. unfold remove_from. simpl.
  destruct (decide (h ∈ handle <$> watches s)); [|done].
  by destruct (stream_established m && update_pending _).
Qed.

Lemma requests_in_sync_removeWatch m h :
  requests_in_sync m → requests_in_sync (removeWatch m h).
Proof.
  intros Hm Hest t s Hs.
  replace (stream_established (removeWatch m h)) with (stream_established m) in Hest by done.
  rewrite removeWatch_find in Hs.
  destruct (find_sub t (subscriptions m)) as [s0|] eqn:Hs0; [|done].
  injection Hs as <-. specialize (Hm Hest t s0 Hs0).
  unfold remove_from. destruct (decide (h ∈ handle <$> watches s0)); [|done].
  rewrite Hest. simpl.
  destruct (update_pending _) eqn:Hpending; simpl.
  - apply after_request_in_sync.
  - by apply not_pending_in_sync.
Qed.



Lemma send_all_established m keys :
  stream_established (send_all m keys) = stream_established m.
Proof.
  revert m. induction keys as [|k keys IH]; intros m; simpl; [done|].
  unfold send_all in *. simpl. by rewrite IH, send_established.
Qed.


Lemma send_all_watches m keys t :
  watches <$> find_sub t (subscriptions (send_all m keys))
  = watches <$> find_sub t (subscriptions m).
Proof.
  revert m. induction keys as [|k keys IH]; intros m; simpl; [done|].
  unfold send_all in *. simpl. by rewrite IH, send_watches.
Qed.

Lemma send_all_in_sync m keys t s :
  find_sub t (subscriptions (send_all m keys)) = Some s →
  t ∈ keys ∨ (∃ s0, find_sub t (subscriptions m) = Some s0 ∧ in_sync s0) →
  in_sync s.
Proof.
  revert m. induction keys as [|k keys IH]; intros m Hs Hcase.
  { destruct Hcase as [Hin|(s0 & Hs0 & Hsync)]; [by apply elem_of_nil in Hin|].
    unfold send_all in Hs. simpl in Hs. rewrite Hs0 in Hs. by injection Hs as <-. }
  unfold send_all in *. simpl in Hs. apply (IH _ Hs).
  destruct (decide (k = t)) as [->|Hne].
  - right. pose proof (send_all_watches (send m t false) keys t) as Hw.
    unfold send_all in Hw. rewrite Hs in Hw.
    destruct (find_sub t (subscriptions (send m t false))) as [s1|] eqn:Hs1; [|done].
    exists s1. split; [done|]. rewrite send_same in Hs1.
    destruct (find_sub t (subscriptions m)); [|done].
    injection Hs1 as <-. apply after_request_in_sync.
  - destruct Hcase as [[->|Hin]%elem_of_cons|(s0 & Hs0 & Hsync)]; [done|by left|].
    right. exists s0. by rewrite send_subscription.
Qed.

Lemma start_unfold m :
  start m =
  send_all
    {| subscriptions := (λ ts, (ts.1, on_new_stream ts.2)) <$> subscriptions m;
       stream_established := true;
       sent := sent m; delivered := delivered m; next_watch := next_watch m;
       node_context := node_context m;
       enable_type_url_downgrade_and_upgrade := enable_type_url_downgrade_and_upgrade m;
       type_url_aliases := type_url_aliases m;
       resource_decoder_ := resource_decoder_ m |}
    (subscriptions m).*1.
Proof. done. Qed.

Lemma start_watches m t :
  watches <$> find_sub t (subscriptions (start m))
  = watches <$> find_sub t (subscriptions m).
Proof.
  rewrite start_unfold, send_all_watches. cbn [subscriptions].
  rewrite (find_sub_fmap (λ ts, (ts.1, on_new_stream ts.2))) by done.
  by destruct (find_sub t (subscriptions m)).
Qed.

Lemma requests_in_sync_start m : requests_in_sync (start m).
Proof.
  intros _ t s Hs. rewrite start_unfold in Hs.
  apply (send_all_in_sync _ _ _ _ Hs). left.
  pose proof (start_watches m t) as Hw. rewrite start_unfold, Hs in Hw.
  destruct (find_sub t (subscriptions m)) as [s0|] eqn:Hs0; [|done].
  by apply find_sub_key in Hs0.
Qed.


Lemma find_subscription_find m response_type_url t s :
  find_subscription m response_type_url = Some (t, s) →
  find_sub t (subscriptions m) = Some s.
Proof.
  unfold find_subscription.
  destruct (find_sub response_type_url (subscriptions m)) as [s0|] eqn:Hs.
  { by intros [= <- <-]. }
  destruct (enable_type_url_downgrade_and_upgrade m); [|done].
  destruct (find_sub response_type_url (type_url_aliases m)) as [alias|]; [|done].
  simpl. destruct (find_sub alias (subscriptions m)) as [s1|] eqn:Hs1; [|done].
  by intros [= <- <-].
Qed.

(** Reconciliation touches neither the names requested nor the names
    subscribed nor the handles. *)
Lemma reconcile_names decoder s resp :
  namesSubscribed (reconcile decoder s resp) = namesSubscribed s
  ∧ desired (reconcile decoder s resp) = desired s
  ∧ handle <$> watches (reconcile decoder s resp) = handle <$> watches s.
Proof.
  unfold reconcile, desired. destruct (duplicate_name resp); simpl; [done|].
  by rewrite <- !list_fmap_compose.
Qed.

Lemma onDiscoveryResponse_find m resp t' :
  find_sub t' (subscriptions (onDiscoveryResponse m resp)) = find_sub t' (subscriptions m)
  ∨ ∃ s, find_sub t' (subscriptions m) = Some s
         ∧ find_sub t' (subscriptions (onDiscoveryResponse m resp))
           = Some (reconcile (resource_decoder_ m) s resp).
Proof.
  unfold onDiscoveryResponse.
  destruct (find_subscription m (type_url resp)) as [[t s]|] eqn:Hfound; [|by left].
  apply find_subscription_find in Hfound. cbn [subscriptions].
  destruct (decide (t = t')) as [<-|Hne].
  - right. exists s. by rewrite find_sub_put_eq.
  - left. by apply find_sub_put_ne.
Qed.

Lemma requests_in_sync_onDiscoveryResponse m resp :
  requests_in_sync m → requests_in_sync (onDiscoveryResponse m resp).
Proof.
  intros Hm Hest t s Hs.
  assert (stream_established m = true) as Hest'.
  { revert Hest. unfold onDiscoveryResponse.
    by destruct (find_subscription m (type_url resp)) as [[? ?]|]. }
  destruct (onDiscoveryResponse_find m resp t) as [Heq|(s0 & Hs0 & Heq)];
    rewrite Heq in Hs.
  - by apply (Hm Hest' t).
  - injection Hs as <-. specialize (Hm Hest' t s0 Hs0).
    destruct (reconcile_names (resource_decoder_ m) s0 resp) as (Hn & Hd & _).
    intros n. unfold in_sync in Hm. by rewrite Hn, Hd.
Qed.


(** Every subscription is in sync on an established stream, and the
    handles are distinct, whatever is done with the multiplexer. *)
Lemma apply_op_requests_in_sync m op :
  requests_in_sync m → requests_in_sync (apply_op m op).
Proof.
  intros Hm. destruct op as [t names opts|h| |key|resp]; simpl.
  - by apply requests_in_sync_addWatch.
  - by apply requests_in_sync_removeWatch.
  - apply requests_in_sync_start.
  - unfold onDynamicContextUpdate.
    destruct (stream_established m); [by apply requests_in_sync_send|done].
  - by apply requests_in_sync_onDiscoveryResponse.
Qed.


Lemma drive_requests_in_sync m ops :
  stream_established m = false → requests_in_sync (drive m ops).
Proof.
  intros Hidle.
  assert (requests_in_sync m) as Hm by (intros Hest; congruence).
  clear Hidle. revert m Hm. unfold drive.
  induction ops as [|op ops IH]; intros m Hm; simpl; [done|].
  by apply IH, apply_op_requests_in_sync.
Qed.


(** *** Context-parameter updates *)

(** C8. On an established stream, an update of the context parameters
    for key K makes the subscription of type K send exactly one request,
    with the node block, the last nonce and the subscribe and unsubscribe
    lists the state machine computes; these lists are empty whenever the
    desired names are, as a set, the names subscribed, and that is the
    case of every multiplexer that was set up without a stream and then
    used through its operations. The subscription keeps its watches and
    its desired names. The subscriptions of the other types are left as
    they were and nothing is sent for them; and when no subscription has
    type K, nothing happens at all. No callback is invoked. *)
Theorem context_update_resends_its_type_only (m : Mux) (key : string) :
  stream_established m = true →
  let m' := onDynamicContextUpdate m key in
  (∀ s, find_sub key (subscriptions m) = Some s →
     sent m' = sent m ++
       [{| req_type_url := key;
           resource_names_subscribe := list_difference (desired s) (namesSubscribed s);
           resource_names_unsubscribe := list_difference (namesSubscribed s) (desired s);
           response_nonce := lastNonce s;
           error_detail := lastErrorDetail s; node := true |}]
     ∧ (in_sync s ∨ (∃ m0 ops, stream_established m0 = false ∧ m = drive m0 ops) →
        sent m' = sent m ++
          [{| req_type_url := key; resource_names_subscribe := [];
              resource_names_unsubscribe := []; response_nonce := lastNonce s;
              error_detail := lastErrorDetail s; node := true |}])
     ∧ ∃ s', find_sub key (subscriptions m') = Some s'
             ∧ watches s' = watches s ∧ desired s' = desired s)
  ∧ (∀ t, t ≠ key → find_sub t (subscriptions m') = find_sub t (subscriptions m))
  ∧ (∃ new, sent m' = sent m ++ new ∧ length new ≤ 1
             ∧ Forall (λ r, req_type_url r = key) new)
  ∧ (find_sub key (subscriptions m) = None → m' = m)
  ∧ delivered m' = delivered m.
Proof.
  intros Hstream m'. unfold m', onDynamicContextUpdate. rewrite Hstream.
  split; [|split; [|split; [|split]]].
  - intros s Hs. rewrite (send_sent _ _ _ _ Hs). split; [done|]. split.
    + intros Hsync. rewrite next_request_in_sync; [done|].
      destruct Hsync as [Hsync|(m0 & ops & Hidle & ->)]; [done|].
      by apply (drive_requests_in_sync m0 ops Hidle Hstream key).
    + rewrite send_same, Hs. by eexists.
  - intros t Hne. by apply send_subscription.
  - destruct (find_sub key (subscriptions m)) as [s|] eqn:Hs.
    + rewrite (send_sent _ _ _ _ Hs). eexists. split; [done|].
      split; [simpl; lia|]. by apply Forall_singleton.
    + rewrite send_unknown by done. exists []. rewrite app_nil_r.
      split; [done|]. split; [simpl; lia|]. apply Forall_nil_2.
  - apply send_unknown.
  - apply send_delivered.
Qed.

(** The update for "foo" of the test [DynamicContextParameters], and the
    same update after a second watch has requested the names of "foo" in
    the other order. *)
Lemma context_update_witness :
  let m := drive (setup false)
             [OpAddWatch "foo" ["x"; "y"] default_options;
              OpAddWatch "bar" [] default_options; OpStart] in
  let m2 := drive m [OpAddWatch "foo" ["y"; "x"] default_options] in
  stream_established m = true
  ∧ sent (onDynamicContextUpdate m "foo") = sent m ++ [expected_message "foo" [] []]
  ∧ find_sub "bar" (subscriptions (onDynamicContextUpdate m "foo"))
    = find_sub "bar" (subscriptions m)
  ∧ onDynamicContextUpdate m "baz" = m
  ∧ sent (onDynamicContextUpdate m2 "foo") = sent m2 ++ [expected_message "foo" [] []].
Proof.
  intros m m2. assert (stream_established m = true) as Hstream by done.
  assert (stream_established m2 = true) as Hstream2 by done.
  split; [exact Hstream|].
  destruct (context_update_resends_its_type_only m "foo" Hstream)
    as (Hsent & Hother & _ & _ & _).
  destruct (context_update_resends_its_type_only m "baz" Hstream)
    as (_ & _ & _ & Hunknown & _).
  destruct (context_update_resends_its_type_only m2 "foo" Hstream2)
    as (Hsent2 & _).
  split; [|split; [|split]].
  - destruct (find_sub "foo" (subscriptions m)) as [s|] eqn:Hs; [|by vm_compute in Hs].
    destruct (Hsent s eq_refl) as (_ & Hempty & _).
    rewrite Hempty; [by vm_compute in Hs; simplify_eq|].
    right. by exists (setup false), [OpAddWatch "foo" ["x"; "y"] default_options;
                                    OpAddWatch "bar" [] default_options; OpStart].
  - by apply Hother.
  - by apply Hunknown.
  - destruct (find_sub "foo" (subscriptions m2)) as [s|] eqn:Hs; [|by vm_compute in Hs].
    destruct (Hsent2 s eq_refl) as (_ & Hempty & _).
    rewrite Hempty; [by vm_compute in Hs; simplify_eq|].
    right. by exists (setup false), [OpAddWatch "foo" ["x"; "y"] default_options;
                                    OpAddWatch "bar" [] default_options; OpStart;
                                    OpAddWatch "foo" ["y"; "x"] default_options].
Defined.

(** After the watches of "foo" requested the names in two orders, the
    names subscribed and the names desired are lists that differ and sets
    that agree. *)
Example names_in_two_orders :
  let m := drive (setup false)
             [OpAddWatch "foo" ["x"; "y"] default_options; OpStart;
              OpAddWatch "foo" ["y"; "x"] default_options] in
  (λ s, (namesSubscribed s, desired s)) <$> find_sub "foo" (subscriptions m)
  = Some (["x"; "y"], ["y"; "x"]).
Proof. by vm_compute. Qed.

(** *** Responses *)

Lemma first_duplicate_None seen names :
  first_duplicate seen names = None ↔ NoDup names ∧ ∀ n, n ∈ names → n ∉ seen.
Proof.
  revert seen. induction names as [|n names IH]; intros seen; simpl.
  { split; [intros _; split; [constructor|by intros ? ?%elem_of_nil]|done]. }
  destruct (decide (n ∈ seen)) as [Hin|Hout].
  - split; [done|]. intros [_ Hfresh]. destruct (Hfresh n); [by left|done].
  - rewrite IH. split.
    + intros [Hnd Hfresh]. split.
      * constructor; [|done]. intros Hn. apply (Hfresh n Hn). by left.
      * intros n' [->|Hn']%elem_of_cons; [done|].
        intros Hs. apply (Hfresh n' Hn'). by right.
    + intros [Hnd Hfresh]. inv Hnd. split; [done|].
      intros n' Hn' [->|Hs]%elem_of_cons; [done|].
      apply (Hfresh n'); [by right|done].
Qed.

(** A response is rejected as a whole exactly when it names a resource
    twice. *)
Lemma duplicate_name_None resp :
  duplicate_name resp = None ↔ NoDup (name <$> resources resp).
Proof.
  unfold duplicate_name. rewrite first_duplicate_None. split; [by intros [? _]|].
  intros Hnd. split; [done|]. intros n _. apply not_elem_of_nil.
Qed.

Lemma onDiscoveryResponse_found m resp t s :
  find_subscription m (type_url resp) = Some (t, s) →
  delivered (onDiscoveryResponse m resp) =
    delivered m ++ response_events (resource_decoder_ m) s resp.
Proof. intros Hs. unfold onDiscoveryResponse. by rewrite Hs. Qed.

Lemma onDiscoveryResponse_dropped m resp :
  find_subscription m (type_url resp) = None → onDiscoveryResponse m resp = m.
Proof. intros Hs. unfold onDiscoveryResponse. by rewrite Hs. Qed.

Lemma response_events_accepted decoder s resp :
  duplicate_name resp = None →
  response_events decoder s resp =
    (λ w, dispatch w (omap (decoded decoder) (resources resp))
            (removed_resources resp) (system_version_info resp)) <$> watches s.
Proof. intros Hnone. unfold response_events. by rewrite Hnone. Qed.


Lemma response_events_watch decoder s resp w :
  duplicate_name resp = None → w ∈ watches s →
  dispatch w (omap (decoded decoder) (resources resp)) (removed_resources resp)
    (system_version_info resp) ∈ response_events decoder s resp.
Proof.
  intros Hnone Hw. rewrite response_events_accepted by done.
  apply list_elem_of_fmap. by exists w.
Qed.

(** The callbacks of a response go to watches of the subscription, one
    to each of them at most. *)
Lemma response_events_handles decoder s resp e :
  e ∈ response_events decoder s resp → event_watch e ∈ handle <$> watches s.
Proof.
  unfold response_events. destruct (duplicate_name resp); [by intros ?%elem_of_nil|].
  intros (w & -> & Hw)%list_elem_of_fmap. simpl. apply list_elem_of_fmap. by exists w.
Qed.


(** C5. A response whose type URL is the type of no subscription, and,
    when the compatibility flag is enabled, is not the sibling alias of
    the type of one either, is ignored: the multiplexer is left as it
    was, so that no callback is invoked and no request, sent or to come,
    changes. The exception: an empty response for a type that has a
    subscription is delivered to each wildcard watch of that type. *)
Theorem unknown_type_url_is_ignored (m : Mux) (resp : DeltaDiscoveryResponse) :
  (find_sub (type_url resp) (subscriptions m) = None →
   (enable_type_url_downgrade_and_upgrade m = true →
    ∀ alias, find_sub (type_url resp) (type_url_aliases m) = Some alias →
             find_sub alias (subscriptions m) = None) →
   onDiscoveryResponse m resp = m
   ∧ delivered (onDiscoveryResponse m resp) = delivered m
   ∧ sent (onDiscoveryResponse m resp) = sent m
   ∧ ∀ t resend,
       (λ s, next_request t s resend)
         <$> find_sub t (subscriptions (onDiscoveryResponse m resp))
       = (λ s, next_request t s resend) <$> find_sub t (subscriptions m))
  ∧ (∀ s w, find_sub (type_url resp) (subscriptions m) = Some s →
       w ∈ watches s → requestedNames w = [] →
       resources resp = [] → removed_resources resp = [] →
       OnConfigUpdate (handle w) [] [] (system_version_info resp)
         ∈ delivered (onDiscoveryResponse m resp)).
Proof.
  split.
  - intros Hnone Halias.
    assert (onDiscoveryResponse m resp = m) as ->; [|done].
    apply onDiscoveryResponse_dropped. unfold find_subscription. rewrite Hnone.
    destruct (enable_type_url_downgrade_and_upgrade m); [|done].
    destruct (find_sub (type_url resp) (type_url_aliases m)) as [alias|]; [|done].
    simpl. by rewrite (Halias eq_refl alias).
  - intros s w Hs Hw Hwild Hres Hrem.
    rewrite (onDiscoveryResponse_found m resp (type_url resp) s)
      by (unfold find_subscription; by rewrite Hs).
    apply elem_of_app. right.
    assert (duplicate_name resp = None) as Hnone.
    { apply duplicate_name_None. rewrite Hres. constructor. }
    pose proof (response_events_watch (resource_decoder_ m) s resp w Hnone Hw) as Hev.
    unfold dispatch in Hev. by rewrite Hres, Hrem in Hev.
Qed.

(** The [Cluster] response and the empty response of the tests. *)
Lemma unknown_type_url_witness :
  let m := start (addWatch (setup true) ClusterLoadAssignment_v2 [] default_options).1 in
  let unexpected := response Cluster_v3 "0" [load_assignment "" "c"] in
  let empty := response ClusterLoadAssignment_v2 "0" [] in
  onDiscoveryResponse m unexpected = m
  ∧ OnConfigUpdate 0 [] [] "0" ∈ delivered (onDiscoveryResponse m empty).
Proof.
  intros m unexpected empty. split.
  - apply (unknown_type_url_is_ignored m unexpected); [by vm_compute|].
    intros _ alias Halias. vm_compute in Halias. by simplify_eq.
  - destruct (find_sub ClusterLoadAssignment_v2 (subscriptions m)) as [s|] eqn:Hs;
      [|by vm_compute in Hs].
    destruct (unknown_type_url_is_ignored m empty) as [_ Hwild].
    apply (Hwild s {| handle := 0; requestedNames := []; options := default_options;
                      deliveredNames := [] |}); try done.
    vm_compute in Hs. simplify_eq. simpl. by left.
Defined.




Example both_aliases_watched_run :
  let m := drive (setup true)
             [OpAddWatch ClusterLoadAssignment_v2 [] default_options;
              OpAddWatch ClusterLoadAssignment_v3 [] default_options; OpStart;
              OpResponse (response ClusterLoadAssignment_v3 "1" [load_assignment "" "x"])] in
  delivered m =
    [OnConfigUpdate 1
       [{| d_name := ""; d_aliases := []; d_version := ""; d_payload := "x" |}] [] "1"].
Proof. by vm_compute. Qed.

(** The response of [V3ResourceResponseV2ResourceWatch] without the
    runtime flag: nothing is delivered. *)
Example sibling_alias_flag_off_run :
  let m := drive (setup false)
             [OpAddWatch ClusterLoadAssignment_v2 [] default_options; OpStart;
              OpResponse (response ClusterLoadAssignment_v3 "1" [load_assignment "" "x"])] in
  delivered m = [].
Proof. by vm_compute. Qed.

(** *** Aliases and namespaces *)

Lemma decoded_names decoder r d :
  decoded decoder r = Some d → d_name d = name r ∧ d_aliases d = aliases r.
Proof.
  unfold decoded, decode. destruct (resource r) as [any|]; simpl; [|done].
  destruct (decoder any); [|done]. by intros [= <-].
Qed.


Lemma existsb_elem_of {A} (f : A → bool) (l : list A) x :
  x ∈ l → f x = true → existsb f l = true.
Proof. intros Hx Hf. apply existsb_exists. exists x. by rewrite <- list_elem_of_In. Qed.







(** A response that names a resource twice: no callback, and the next
    request for the type carries the nonce and the error. *)
Example duplicate_resource_name_run :
  let m := drive (setup false)
             [OpAddWatch VirtualHost_v2 ["prefix"] namespace_options; OpStart;
              OpResponse {| type_url := VirtualHost_v2; system_version_info := "1";
                            nonce := "n1"; resources := [vhost_1; vhost_1];
                            removed_resources := [] |};
              OpContextUpdate VirtualHost_v2] in
  delivered m = []
  ∧ (λ r, (response_nonce r, error_detail r)) <$> last (sent m)
    = Some ("n1", Some (Internal, "duplicate name prefix/vhost_1 found")).
Proof. split; by vm_compute. Qed.

(** *** Canonical names in the multiplexer *)

Lemma resolve_without_node_context node_context name :
  resolve node_context false name = canonicalize name.
Proof. done. Qed.

(** What [addWatch] files: the new watch, under its type. *)
Lemma addWatch_registers m t names opts :
  let w := {| handle := next_watch m;
              requestedNames :=
                resolve (node_context m) (add_xdstp_node_context_params_ opts) <$> names;
              options := opts; deliveredNames := [] |} in
  (addWatch m t names opts).2 = next_watch m
  ∧ resource_decoder_ (addWatch m t names opts).1 = resource_decoder_ m
  ∧ ∃ s, find_sub t (subscriptions (addWatch m t names opts).1) = Some s ∧ w ∈ watches s.
Proof.
  intros w. unfold addWatch. fold w. cbn [fst snd]. split; [done|].
  set (s := default fresh_state (find_sub t (subscriptions m))).
  set (s' := set_watches s (watches s ++ [w])).
  destruct (stream_established m && (update_pending s' || negb (requested_before s'))).
  - split; [by rewrite send_decoder|].
    rewrite send_same. simpl. rewrite find_sub_put_eq. simpl.
    eexists. split; [done|]. simpl. apply elem_of_app. right. by left.
  - split; [done|]. simpl. rewrite find_sub_put_eq.
    eexists. split; [done|]. simpl. apply elem_of_app. right. by left.
Qed.

(** A watch without namespace matching is interested in a resource whose
    canonical name it requested. *)
Lemma interested_canonical w d :
  use_namespace_matching_ (options w) = false →
  canonicalize (d_name d) ∈ requestedNames w →
  interested w d = true.
Proof.
  intros Hns Hin. unfold interested.
  destruct (requestedNames w) as [|n ns] eqn:Hreq; [done|].
  apply (existsb_elem_of _ _ (d_name d)); [by left|].
  unfold name_matches. rewrite Hns. by rewrite bool_decide_eq_true_2.
Qed.

(** The first request for a name watched on a multiplexer that has no
    subscription yet: the subscribe entry is the canonical form. *)
Lemma first_watch_request m t name opts :
  subscriptions m = [] → stream_established m = false →
  sent (start (addWatch m t [name] opts).1) = sent m ++
    [{| req_type_url := t;
        resource_names_subscribe :=
          [resolve (node_context m) (add_xdstp_node_context_params_ opts) name];
        resource_names_unsubscribe := []; response_nonce := "";
        error_detail := None; node := true |}].
Proof.
  intros Hsubs Hstream. unfold addWatch. rewrite Hsubs, Hstream. simpl.
  unfold start. simpl. unfold send. simpl.
  destruct (decide (t = t)); [|done]. simpl.
  unfold next_request, desired. done.
Qed.

Lemma same_but_param_order_sym name1 name2 :
  same_but_param_order name1 name2 → same_but_param_order name2 name1.
Proof.
  intros (u1 & u2 & Hu1 & Hu2 & Ha & Ht & Hi & Hperm & Hnd).
  exists u2, u1. repeat split; try done. by rewrite <- Hperm.
Qed.

(** C1. Two names that are the same but for the order of their query
    parameters have one canonical form. That form is the name written
    with its parameters sorted by key: read back, it has the authority,
    the type and the path of the name, and as parameters those of the
    name (with those of the node context, when they are merged in), each
    key once, in the order of the keys; canonicalizing it again changes
    nothing. Hence a watch for the one name and a watch for the other are
    filed alike and the requests sent for them are the same, the
    subscribe entry being the canonical form. And a resource whose name
    differs from the subscribed name in the order of the parameters only
    is matched to a watch that requested the first name: the watch is
    interested in it, and receives it with every response that is not
    rejected as a whole. *)
Theorem param_order_is_canonicalized (name1 name2 : string) :
  same_but_param_order name1 name2 →
  (∀ node_context add, resolve node_context add name1 = resolve node_context add name2)
  ∧ (∀ u, decodeUrn name1 = Some u →
       ∀ node_context add,
         let params :=
           merge_sort key_le (effective_params node_context add (context_params u)) in
         resolve node_context add name1 = encodeUrn (with_params u params)
         ∧ Sorted key_le params
         ∧ NoDup params.*1
         ∧ params ≡ₚ effective_params node_context add (context_params u)
         ∧ ((add = true → clean_context node_context) →
            decodeUrn (resolve node_context add name1) = Some (with_params u params)
            ∧ decodeUrn (resolve node_context add name2) = Some (with_params u params)
            ∧ canonicalize (resolve node_context add name1)
              = resolve node_context add name1))
  ∧ (∀ m t opts,
       addWatch m t [name1] opts = addWatch m t [name2] opts
       ∧ sent (start (addWatch m t [name1] opts).1)
         = sent (start (addWatch m t [name2] opts).1)
       ∧ (subscriptions m = [] → stream_established m = false →
          ∀ name, name = name1 ∨ name = name2 →
            resource_names_subscribe <$> sent (start (addWatch m t [name] opts).1)
            = (resource_names_subscribe <$> sent m) ++
              [[resolve (node_context m) (add_xdstp_node_context_params_ opts) name1]]))
  ∧ (∀ m t opts resp r d,
       use_namespace_matching_ opts = false →
       type_url resp = t → r ∈ resources resp →
       decoded (resource_decoder_ m) r = Some d →
       (add_xdstp_node_context_params_ opts = false ∧ name r = name2
        ∨ (add_xdstp_node_context_params_ opts = true → clean_context (node_context m))
          ∧ same_but_param_order
              (resolve (node_context m) (add_xdstp_node_context_params_ opts) name1)
              (name r)) →
       let w := {| handle := next_watch m;
                   requestedNames :=
                     [resolve (node_context m) (add_xdstp_node_context_params_ opts) name1];
                   options := opts; deliveredNames := [] |} in
       let m1 := (addWatch m t [name1] opts).1 in
       (addWatch m t [name1] opts).2 = handle w
       ∧ (∃ s, find_sub t (subscriptions m1) = Some s ∧ w ∈ watches s)
       ∧ interested w d = true
       ∧ (NoDup (name <$> resources resp) →
          ∃ added removed,
            OnConfigUpdate (handle w) added removed (system_version_info resp)
              ∈ delivered (onDiscoveryResponse m1 resp)
            ∧ d ∈ added)).
Proof.
  intros Hsame.
  assert (∀ node_context add,
            resolve node_context add name1 = resolve node_context add name2) as Hresolve
    by (intros; by apply resolve_param_order).
  split; [done|]. split; [|split].
  - intros u Hu node_context add params.
    destruct Hsame as (u1 & u2 & Hu1 & Hu2 & Ha & Ht & Hi & Hperm & Hnd).
    assert (u1 = u) as -> by congruence.
    split; [|split; [|split; [|split]]].
    + unfold resolve. by rewrite Hu.
    + apply Sorted_merge_sort, _.
    + unfold params. rewrite merge_sort_Permutation. by apply effective_params_NoDup.
    + apply merge_sort_Permutation.
    + intros Hctx.
      pose proof (resolve_decodes node_context add name1 u Hu Hctx) as Hback.
      split; [done|]. split; [by rewrite <- Hresolve|].
      by apply (canonicalize_resolved node_context add name1 u).
  - intros m t opts.
    assert (addWatch m t [name1] opts = addWatch m t [name2] opts) as Hwatch.
    { unfold addWatch. simpl. by rewrite Hresolve. }
    split; [done|]. split; [by rewrite Hwatch|].
    intros Hsubs Hstream name [-> | ->]; rewrite ?Hresolve;
      rewrite first_watch_request, fmap_app by done; by rewrite ?Hresolve.
  - intros m t opts resp r d Hns Ht Hr Hd Hname w m1.
    destruct (addWatch_registers m t [name1] opts) as (Hhandle & Hdec & s & Hs & Hw).
    fold m1 in Hdec, Hs. cbn [fmap list_fmap] in Hw. fold w in Hw.
    assert (interested w d = true) as Hint.
    { apply interested_canonical; [done|].
      destruct (decoded_names _ _ _ Hd) as [-> _]. simpl. apply list_elem_of_singleton.
      destruct Hname as [[Hadd ->]|[Hctx Horder]].
      - rewrite Hadd, resolve_without_node_context. unfold canonicalize.
        by rewrite Hresolve.
      - destruct Hsame as (u1 & _ & Hu1 & _ & _ & _ & _ & _ & Hnd).
        rewrite <- (canonicalize_resolved (node_context m)
                      (add_xdstp_node_context_params_ opts) name1 u1) by done.
        unfold canonicalize. symmetry. by apply resolve_param_order. }
    split; [done|]. split; [by exists s|]. split; [done|].
    intros Hnd%duplicate_name_None.
    assert (find_subscription m1 (type_url resp) = Some (t, s)) as Hfound.
    { unfold find_subscription. by rewrite Ht, Hs. }
    rewrite (onDiscoveryResponse_found m1 resp t s Hfound).
    eexists _, _. split.
    + apply elem_of_app. right.
      apply (response_events_watch (resource_decoder_ m1) s resp w Hnd Hw).
    + apply list_elem_of_filter. split; [done|].
      apply list_elem_of_omap. exists r. by rewrite Hdec.
Qed.

(** The name of [XdsTpSingleton], requested with the parameters in one
    order and received with them in the other. *)
Lemma param_order_witness :
  same_but_param_order baz_requested baz_received
  ∧ canonicalize baz_requested = canonicalize baz_received
  ∧ decodeUrn (canonicalize baz_requested) =
      Some {| authority := "foo";
              resource_type := "envoy.config.endpoint.v3.ClusterLoadAssignment";
              id := "bar/baz";
              context_params := [("some", "thing"); ("thing", "some")] |}
  ∧ addWatch (setup false) ClusterLoadAssignment_v2 [baz_requested] default_options
    = addWatch (setup false) ClusterLoadAssignment_v2 [baz_received] default_options.
Proof.
  pose proof same_but_param_order_test_names as Hsame.
  split; [exact Hsame|].
  destruct (param_order_is_canonicalized baz_requested baz_received Hsame)
    as (Hresolve & Hform & Hwatch & _).
  split; [apply Hresolve|]. split; [|apply Hwatch].
  destruct (decodeUrn baz_requested) as [u|] eqn:Hu; [|by vm_compute in Hu].
  destruct (Hform u eq_refl ∅ false) as (_ & _ & _ & _ & Hback).
  destruct Hback as (Hback & _); [done|].
  unfold canonicalize. rewrite Hback. vm_compute in Hu. by simplify_eq.
Defined.

(** *** Cancellation *)

Lemma find_sub_elem {A} t (a : A) l : find_sub t l = Some a → (t, a) ∈ l.
Proof.
  induction l as [|[t' a'] l IH]; simpl; [done|].
  destruct (decide (t' = t)) as [->|]; [intros [= ->]; by left|].
  intros Hl. right. by apply IH.
Qed.

Lemma find_subscription_elem m response_type_url t s :
  find_subscription m response_type_url = Some (t, s) → (t, s) ∈ subscriptions m.
Proof. intros Hfound%find_subscription_find. by apply find_sub_elem. Qed.

Lemma removed_handle_is_gone (ws : list Watch) h :
  h ∉ handle <$> filter (λ w, handle w ≠ h) ws.
Proof.
  intros (w & -> & Hw)%list_elem_of_fmap.
  by apply list_elem_of_filter in Hw as [Hne _].
Qed.

Lemma remove_from_gone established h ts :
  h ∉ handle <$> watches (remove_from established h ts).1.2.
Proof.
  destruct ts as [t s]. unfold remove_from.
  destruct (decide (h ∈ handle <$> watches s)) as [Hin|Hout]; [|done].
  destruct (established && update_pending _); simpl; apply removed_handle_is_gone.
Qed.

Lemma remove_from_absent established h ts :
  h ∉ handle <$> watches ts.2 → remove_from established h ts = (ts, []).
Proof.
  destruct ts as [t s]. simpl. intros Hout. unfold remove_from.
  by destruct (decide (h ∈ handle <$> watches s)).
Qed.

Lemma remove_from_all_absent established h (subs : list (string * SubscriptionState)) :
  (∀ ts, ts ∈ subs → h ∉ handle <$> watches ts.2) →
  (remove_from established h <$> subs).*1 = subs
  ∧ mjoin (remove_from established h <$> subs).*2 = [].
Proof.
  induction subs as [|ts subs IH]; intros Hout; [done|].
  destruct IH as [IH1 IH2]; [intros ? ?; apply Hout; by right|].
  rewrite !fmap_cons, remove_from_absent by (apply Hout; by left).
  simpl. by rewrite IH1, IH2.
Qed.

Lemma removeWatch_gone m h ts :
  ts ∈ subscriptions (removeWatch m h) → h ∉ handle <$> watches ts.2.
Proof.
  unfold removeWatch; simpl.
  intros (r & -> & (ts' & -> & Hin)%list_elem_of_fmap)%list_elem_of_fmap.
  apply remove_from_gone.
Qed.

Lemma removeWatch_again m h : removeWatch (removeWatch m h) h = removeWatch m h.
Proof.
  destruct (remove_from_all_absent (stream_established m) h
              (subscriptions (removeWatch m h))) as [Hsubs Hsent].
  { intros ts. apply removeWatch_gone. }
  unfold removeWatch at 1. cbn [stream_established].
  replace (stream_established (removeWatch m h)) with (stream_established m) by done.
  rewrite Hsubs, Hsent, app_nil_r. by destruct m.
Qed.

Lemma removeWatch_silences m h resp e :
  e ∈ delivered (onDiscoveryResponse (removeWatch m h) resp) →
  e ∈ delivered m ∨ event_watch e ≠ h.
Proof.
  unfold onDiscoveryResponse.
  destruct (find_subscription (removeWatch m h) (type_url resp)) as [[t s]|] eqn:Hfound;
    simpl; [|by left].
  rewrite elem_of_app. intros [He|He]; [by left|right].
  apply response_events_handles in He. intros Heq.
  apply find_subscription_elem in Hfound.
  apply (removeWatch_gone m h (t, s) Hfound). by rewrite <- Heq.
Qed.

(** C9. Removing a handle a second time changes nothing: the callback
    registry after two removals is the registry after one, whatever is
    done with it afterwards has the same effects, and a removed handle
    that the registry had issued is never invoked again. The same holds
    for the watches of the multiplexer: cancelling a watch twice leaves
    the multiplexer as cancelling it once does, and no response is
    delivered to a cancelled watch. Removal is a total function: it
    cannot fail. *)
Theorem cancel_twice_is_cancel_once
    (registry : CallbackManager.CallbackManager) (h : CallbackManager.CallbackHandle)
    (m : Mux) (watch : nat) :
  (CallbackManager.remove (CallbackManager.remove registry h) h
     = CallbackManager.remove registry h
   ∧ (∀ ops, CallbackManager.exec
               (CallbackManager.remove (CallbackManager.remove registry h) h) ops
             = CallbackManager.exec (CallbackManager.remove registry h) ops)
   ∧ (CallbackManager.issued registry → h < CallbackManager.next_handle registry →
      ∀ ops, h ∉ (CallbackManager.exec (CallbackManager.remove registry h) ops).2.*1))
  ∧ (removeWatch (removeWatch m watch) watch = removeWatch m watch
     ∧ ∀ resp e, e ∈ delivered (onDiscoveryResponse (removeWatch m watch) resp) →
                 e ∈ delivered m ∨ event_watch e ≠ watch).
Proof.
  split; [split; [|split]|split].
  - apply CallbackManager.remove_remove.
  - intros ops. by rewrite CallbackManager.remove_remove.
  - intros Hissued Hlt ops. apply CallbackManager.exec_never_invokes.
    + intros x Hx. apply Hissued. by eapply CallbackManager.remove_subset.
    + done.
    + apply CallbackManager.remove_callbacks.
  - apply removeWatch_again.
  - apply removeWatch_silences.
Qed.

(** The first handle of [CallbackManagerTest.All] and the watch of "foo"
    of [DynamicContextParameters], each cancelled twice. *)
Lemma cancel_twice_witness :
  let registry :=
    (CallbackManager.add (CallbackManager.add CallbackManager.empty (λ arg, ([arg], []))).1
       (λ arg, ([arg * 2]%Z, []))).1 in
  let m := start (addWatch (addWatch (setup false) "foo" ["x"; "y"] default_options).1
                    "bar" [] default_options).1 in
  (CallbackManager.exec (CallbackManager.remove (CallbackManager.remove registry 0) 0)
     [CallbackManager.OpRunCallbacks 5]).2 = [(1, [10%Z])]
  ∧ (0 ∉ (CallbackManager.exec (CallbackManager.remove registry 0)
            [CallbackManager.OpRunCallbacks 5; CallbackManager.OpRunCallbacks 7]).2.*1)
  ∧ sent (removeWatch (removeWatch m 0) 0) = sent m ++
      [{| req_type_url := "foo"; resource_names_subscribe := [];
          resource_names_unsubscribe := ["x"; "y"]; response_nonce := "";
          error_detail := None; node := false |}].
Proof.
  intros registry m.
  destruct (cancel_twice_is_cancel_once registry 0 m 0)
    as ((_ & Hexec & Hnever) & Hwatch & _).
  split; [by rewrite Hexec|]. split.
  - apply Hnever.
    + intros x. vm_compute. intros Hx.
      repeat (apply elem_of_cons in Hx as [->|Hx]; [lia|]).
      by apply elem_of_nil in Hx.
    + vm_compute. lia.
  - by rewrite Hwatch.
Defined.

End NewGrpcMux.
